(** * Keppel: a shallow embedding of the registry core and its specification

    The development follows the Go packages of the repository.  Every Go
    function that a property talks about is transcribed as a Rocq function
    with the name it has in the source; Go's [error] results become an
    explicit sum type, fixed-width integers are [Z] with the wrap-around
    written out, and database tables are finite maps or row lists.

    Part I holds the embedding, one module per Go package.  Part II holds
    the properties, one section per component. *)

From Stdlib Require Import ZArith List String Ascii Bool Lia DecimalString.
From stdpp Require Import base option list strings gmap.

Import ListNotations.
Local Open Scope string_scope.
Local Open Scope list_scope.
Local Open Scope Z_scope.

(* ===================================================================== *)
(** * Part I: the embedding                                               *)
(* ===================================================================== *)

(** ** Go basics shared by all packages *)

Module Go.

(** A Go [error] value is either [nil] or carries a message; a function
    returning [(T, error)] returns [Ok] exactly when the error is [nil]. *)
Inductive result (A : Type) : Type :=
| Ok (a : A)
| Err (msg : string).
Arguments Ok {A} a.
Arguments Err {A} msg.

Definition bind {A B : Type} (r : result A) (k : A -> result B) : result B :=
  match r with
  | Ok a => k a
  | Err e => Err e
  end.

Definition is_ok {A : Type} (r : result A) : bool :=
  match r with Ok _ => true | Err _ => false end.

(** Two's complement wrap-around of the fixed-width integer types. *)
Definition wrap_int64 (z : Z) : Z := (z + 2^63) mod 2^64 - 2^63.
Definition wrap_uint64 (z : Z) : Z := z mod 2^64.
Definition wrap_uint32 (z : Z) : Z := z mod 2^32.

Definition in_int64 (z : Z) : Prop := - 2^63 <= z < 2^63.
Definition in_uint64 (z : Z) : Prop := 0 <= z < 2^64.
Definition in_uint32 (z : Z) : Prop := 0 <= z < 2^32.

End Go.

Export Go.

(** [result] is an error monad; stdpp's [x ← r; k] notation sequences calls
    the way Go's [if err != nil { return err }] does. *)
#[export] Instance result_ret : MRet result := fun A a => Ok a.
#[export] Instance result_bind : MBind result := fun A B k r => Go.bind r k.

(** ** internal/keppel/duration.go *)

Module Duration.

(** [type Duration time.Duration]: an int64 count of nanoseconds. *)
Definition Duration := Z.

Definition Second : Duration := 1000000000.
Definition Minute : Duration := 60 * Second.
Definition Hour : Duration := 60 * Minute.

(** [durationObj] is the JSON document [{"value": .., "unit": ..}] that
    [encoding/json] writes and reads; the document is kept as the record. *)
Record durationObj : Type := mkDurationObj {
  Value : Z;      (* int64 *)
  Unit : string
}.

(** The table [units], ordered from big to small. *)
Definition units : list (string * Duration) :=
  [ ("y", 365 * 24 * Hour);
    ("w", 7 * 24 * Hour);
    ("d", 24 * Hour);
    ("h", Hour);
    ("m", Minute);
    ("s", Second) ].

(** The loop of [MarshalJSON]: the first unit with [d % unit.Length == 0].
    Go's [%] and [/] truncate towards zero: [Z.rem] and [Z.quot]. *)
Fixpoint marshal_units (d : Duration) (us : list (string * Duration))
  : option durationObj :=
  match us with
  | [] => None
  | (name, len) :: rest =>
      if Z.rem d len =? 0
      then Some (mkDurationObj (Z.quot d len) name)
      else marshal_units d rest
  end.

Definition MarshalJSON (d : Duration) : result durationObj :=
  if d =? 0 then Ok (mkDurationObj 0 "s")
  else match marshal_units d units with
       | Some obj => Ok obj
       | None => Err "duration is not a multiple of 1 second"
       end.

(** The loop of [UnmarshalJSON]: [Duration(obj.Value) * unit.Length] is an
    int64 product and wraps. *)
Fixpoint unmarshal_units (obj : durationObj) (us : list (string * Duration))
  : option Duration :=
  match us with
  | [] => None
  | (name, len) :: rest =>
      if String.eqb name (Unit obj)
      then Some (wrap_int64 (Value obj * len))
      else unmarshal_units obj rest
  end.

Definition UnmarshalJSON (obj : durationObj) : result Duration :=
  match unmarshal_units obj units with
  | Some d => Ok d
  | None => Err "unknown duration unit"
  end.

(** What "the largest lossless unit" means for a rendered document: its unit
    is in the table, it divides [d] with quotient [Value], and no longer unit
    of the table divides [d]. *)
Definition largest_lossless_unit (d : Duration) (obj : durationObj) : Prop :=
  exists len : Duration,
    In (Unit obj, len) units /\
    Z.rem d len = 0 /\
    Value obj = Z.quot d len /\
    forall name' len', In (name', len') units -> len < len' -> Z.rem d len' <> 0.

End Duration.

(** ** The OCI image specification types (image-spec/specs-go/v1) *)

Module Imagespecs.

(** [imagespecs.Platform].  A Go slice that may be [nil] is an [option]:
    [reflect.DeepEqual] tells a nil slice from an empty one. *)
Record Platform : Type := mkPlatform {
  Architecture : string;
  OS : string;
  OSVersion : string;
  OSFeatures : option (list string);
  Variant : string
}.

#[global] Instance Platform_eq_dec : EqDecision Platform.
Proof. solve_decision. Defined.

(** [imagespecs.Descriptor], with the fields that the adapters fill in.
    [Platform] is a pointer. *)
Record Descriptor : Type := mkDescriptor {
  MediaType : string;
  Digest : string;
  Size : Z;
  URLs : option (list string);
  DPlatform : option Platform
}.

Definition MediaTypeImageIndex : string :=
  "application/vnd.oci.image.index.v1+json".
Definition MediaTypeImageManifest : string :=
  "application/vnd.oci.image.manifest.v1+json".

End Imagespecs.

(** ** internal/models: the rows the core passes around *)

Module Models.
Import Imagespecs.

Definition AccountName := string.

(** [models.PlatformFilter] *)
Definition PlatformFilter := list Platform.

(** [PlatformFilter.Includes]: the empty filter accepts everything. *)
Definition Includes (f : PlatformFilter) (platform : Platform) : bool :=
  if (length f =? 0)%nat then true
  else existsb (fun p => bool_decide (p = platform)) f.

(** [PlatformFilter.IsEqualTo] *)
Definition IsEqualTo (f other : PlatformFilter) : bool :=
  if negb (length f =? length other)%nat then false
  else forallb (fun '(p, q) => bool_decide (p = q)) (combine f other).

(** [models.Account]: a row of the accounts table.  Times are seconds since
    the epoch; a NULL clock is [None]. *)
Record Account : Type := mkAccount {
  Name : AccountName;
  AuthTenantID : string;
  UpstreamPeerHostName : string;
  ExternalPeerURL : string;
  AccountPlatformFilter : PlatformFilter;
  RequiredLabels : string;
  IsDeleting : bool;
  GCPoliciesJSON : string;
  RBACPoliciesJSON : string;
  SecurityScanPoliciesJSON : string;
  TagPoliciesJSON : string;
  NextBlobSweepAt : option Z;
  NextDeletionAttemptAt : option Z
}.

#[global] Instance Account_eq_dec : EqDecision Account.
Proof. solve_decision. Defined.

(** [models.Repository] *)
Record Repository : Type := mkRepository {
  repo_ID : Z;
  repo_AccountName : AccountName;
  repo_Name : string
}.

(** [models.Blob]: a row of the blobs table.  An empty [StorageID] marks an
    unbacked blob. *)
Record Blob : Type := mkBlob {
  blob_ID : Z;
  blob_AccountName : AccountName;
  blob_Digest : string;
  blob_SizeBytes : Z;
  blob_StorageID : string;
  blob_MediaType : string;
  blob_PushedAt : Z;
  blob_NextValidationAt : Z;
  blob_CanBeDeletedAt : option Z
}.

(** [models.BlobValidationInterval]: 7 days, in seconds. *)
Definition BlobValidationInterval : Z := 7 * 24 * 3600.

(** [models.PendingBlob]: a row of the pending_blobs table, whose key is
    the account name and the digest. *)
Inductive PendingReason : Type := PendingBecauseOfReplication.

Record PendingBlob : Type := mkPendingBlob {
  pb_AccountName : AccountName;
  pb_Digest : string;
  pb_Reason : PendingReason;
  pb_PendingSince : Z
}.

(** [models.ReducedAccount]: what the storage driver sees of an account. *)
Record ReducedAccount : Type := mkReducedAccount {
  ra_Name : AccountName;
  ra_AuthTenantID : string
}.

(** [models.Upload]: an upload in progress.  [NumChunks] is a uint32 and
    [SizeBytes] a uint64.  The running digest plays no part in appending. *)
Record Upload : Type := mkUpload {
  StorageID : string;
  SizeBytes : Z;
  NumChunks : Z
}.

End Models.

(** ** The storage driver interface, as far as blob uploads use it *)

Module Storage.
Import Models.

(** One call of [StorageDriver.AppendToBlob], with the bytes the driver reads
    from the chunk reader it is handed. *)
Record AppendCall : Type := mkAppendCall {
  call_account : ReducedAccount;
  call_storageID : string;
  call_chunkNumber : Z;            (* uint32 *)
  call_chunkLength : option Z;     (* Option[uint64] *)
  call_chunk : list Byte.byte
}.

(** A driver is a state with the interface methods as transitions that may
    fail. *)
Class StorageDriver (S : Type) : Type := {
  sd_AppendToBlob : AppendCall -> S -> S * option string;
  (* FinalizeBlob(account, storageID, chunkCount) *)
  sd_FinalizeBlob : ReducedAccount -> string -> Z -> S -> S * option string;
  (* AbortBlobUpload(account, storageID, chunkCount) *)
  sd_AbortBlobUpload : ReducedAccount -> string -> Z -> S -> S * option string;
  (* DeleteBlob(account, storageID) *)
  sd_DeleteBlob : ReducedAccount -> string -> S -> S * option string
}.

End Storage.

(** ** The in-memory storage driver of the test suites *)

Module Trivial.
Import Models Storage.

Record StorageDriver : Type := mkStorageDriver {
  blobs : gmap string (list Byte.byte);
  blobChunkCounts : gmap string Z;   (* uint32 values *)
  ForbidNewAccounts : bool
}.

Definition Init : StorageDriver := mkStorageDriver ∅ ∅ false.

Definition errAppendToBlobAfterFinalize : string :=
  "AppendToBlob() was called after FinalizeBlob()".

Definition blobKey (account : ReducedAccount) (storageID : string) : string :=
  (ra_Name account ++ "/" ++ storageID)%string.

(** [AppendToBlob]: chunk 1 must open a new blob, and every later chunk must
    follow the previous one of a blob that is still open.  A missing map key
    reads as the zero value, as in Go. *)
Definition AppendToBlob (c : AppendCall) (d : StorageDriver)
  : StorageDriver * option string :=
  let k := blobKey (call_account c) (call_storageID c) in
  let chunkNumber := call_chunkNumber c in
  let chunkCount := default 0 (blobChunkCounts d !! k) in
  let exists_ := bool_decide (is_Some (blobChunkCounts d !! k)) in
  let store :=
    (mkStorageDriver
       (<[k := (default [] (blobs d !! k) ++ call_chunk c)%list]> (blobs d))
       (<[k := chunkNumber]> (blobChunkCounts d))
       (ForbidNewAccounts d),
     None) in
  if chunkNumber =? 1 then
    if exists_ then (d, Some "expected another chunk, but got chunk #1")
    else store
  else
    if exists_ && (chunkCount =? 0) then (d, Some errAppendToBlobAfterFinalize)
    else if negb (wrap_uint32 (chunkCount + 1) =? chunkNumber) || negb exists_
    then (d, Some "got an unexpected chunk number")
    else store.

Definition errNoSuchBlob : string := "no such blob".
Definition errAbortBlobUploadAfterFinalize : string :=
  "AbortBlobUpload() was called after FinalizeBlob()".

(** [FinalizeBlob]: a chunk count of 0 marks the blob as finalized. *)
Definition FinalizeBlob (account : ReducedAccount) (storageID : string)
    (chunkCount : Z) (d : StorageDriver) : StorageDriver * option string :=
  let k := blobKey account storageID in
  if negb (bool_decide (is_Some (blobs d !! k))) then (d, Some errNoSuchBlob)
  else (mkStorageDriver (blobs d) (<[k := 0]> (blobChunkCounts d)) (ForbidNewAccounts d),
        None).

(** [DeleteBlob] *)
Definition DeleteBlob (account : ReducedAccount) (storageID : string)
    (d : StorageDriver) : StorageDriver * option string :=
  let k := blobKey account storageID in
  if negb (bool_decide (is_Some (blobs d !! k))) then (d, Some errNoSuchBlob)
  else (mkStorageDriver (delete k (blobs d)) (delete k (blobChunkCounts d))
          (ForbidNewAccounts d),
        None).

(** [AbortBlobUpload] *)
Definition AbortBlobUpload (account : ReducedAccount) (storageID : string)
    (chunkCount : Z) (d : StorageDriver) : StorageDriver * option string :=
  if (default 0 (blobChunkCounts d !! blobKey account storageID) =? 0)
  then (d, Some errAbortBlobUploadAfterFinalize)
  else DeleteBlob account storageID d.

(** [CanSetupAccount] *)
Definition CanSetupAccount (account : ReducedAccount) (d : StorageDriver)
  : option string :=
  if ForbidNewAccounts d then Some "CanSetupAccount failed as requested" else None.

(** [ReadBlob]: the contents and their length ([len] is never negative, so
    the conversion to uint64 keeps it). *)
Definition ReadBlob (account : ReducedAccount) (storageID : string) (d : StorageDriver)
  : result (list Byte.byte * Z) :=
  match blobs d !! blobKey account storageID with
  | None => Err errNoSuchBlob
  | Some contents => Ok (contents, Z.of_nat (length contents))
  end.

(** [BlobCount] *)
Definition BlobCount (d : StorageDriver) : nat := size (blobs d).

(** The other two maps of the driver, [manifests] and [trivyReports].  The
    blob methods above do not touch them, and the methods below touch
    nothing else. *)
Record ManifestStore : Type := mkManifestStore {
  manifests : gmap string (list Byte.byte);
  trivyReports : gmap string (list Byte.byte)
}.

Definition errNoSuchManifest : string := "no such manifest".
Definition errNoSuchTrivyReport : string := "no such Trivy report".

Definition manifestKey (account : ReducedAccount) (repoName manifestDigest : string)
  : string :=
  (ra_Name account ++ "/" ++ repoName ++ "/" ++ manifestDigest)%string.

Definition trivyReportKey (account : ReducedAccount) (repoName manifestDigest format : string)
  : string :=
  (ra_Name account ++ "/" ++ repoName ++ "/" ++ manifestDigest ++ "/" ++ format)%string.

(** [ReadManifest], [WriteManifest] and [DeleteManifest] *)
Definition ReadManifest (account : ReducedAccount) (repoName manifestDigest : string)
    (d : ManifestStore) : result (list Byte.byte) :=
  match manifests d !! manifestKey account repoName manifestDigest with
  | None => Err errNoSuchManifest
  | Some contents => Ok contents
  end.

Definition WriteManifest (account : ReducedAccount) (repoName manifestDigest : string)
    (contents : list Byte.byte) (d : ManifestStore) : ManifestStore * option string :=
  (mkManifestStore
     (<[manifestKey account repoName manifestDigest := contents]> (manifests d))
     (trivyReports d),
   None).

Definition DeleteManifest (account : ReducedAccount) (repoName manifestDigest : string)
    (d : ManifestStore) : ManifestStore * option string :=
  let k := manifestKey account repoName manifestDigest in
  if negb (bool_decide (is_Some (manifests d !! k))) then (d, Some errNoSuchManifest)
  else (mkManifestStore (delete k (manifests d)) (trivyReports d), None).

(** [ReadTrivyReport], [WriteTrivyReport] and [DeleteTrivyReport]; the
    payload of a report is its format and its contents. *)
Definition ReadTrivyReport (account : ReducedAccount)
    (repoName manifestDigest format : string) (d : ManifestStore)
  : result (list Byte.byte) :=
  match trivyReports d !! trivyReportKey account repoName manifestDigest format with
  | None => Err errNoSuchTrivyReport
  | Some contents => Ok contents
  end.

Definition WriteTrivyReport (account : ReducedAccount) (repoName manifestDigest : string)
    (payload : string * list Byte.byte) (d : ManifestStore)
  : ManifestStore * option string :=
  (mkManifestStore (manifests d)
     (<[trivyReportKey account repoName manifestDigest (fst payload) := snd payload]>
        (trivyReports d)),
   None).

Definition DeleteTrivyReport (account : ReducedAccount)
    (repoName manifestDigest format : string) (d : ManifestStore)
  : ManifestStore * option string :=
  let k := trivyReportKey account repoName manifestDigest format in
  if negb (bool_decide (is_Some (trivyReports d !! k))) then (d, Some errNoSuchTrivyReport)
  else (mkManifestStore (manifests d) (delete k (trivyReports d)), None).

(** [ManifestCount] *)
Definition ManifestCount (d : ManifestStore) : nat := size (manifests d).

#[global] Instance trivial_driver : Storage.StorageDriver StorageDriver :=
  {| sd_AppendToBlob := AppendToBlob;
     sd_FinalizeBlob := FinalizeBlob;
     sd_AbortBlobUpload := AbortBlobUpload;
     sd_DeleteBlob := DeleteBlob |}.

End Trivial.

(** ** A client of the in-memory driver *)

Module TrivialSessions.
Import Models Storage Trivial.

(** The chunks of one upload, sent in order and numbered from [first]; the
    session stops at the first error. *)
Fixpoint append_chunks (account : ReducedAccount) (storageID : string) (first : Z)
    (chunks : list (list Byte.byte)) (d : StorageDriver) : StorageDriver * option string :=
  match chunks with
  | [] => (d, None)
  | chunk :: rest =>
      match AppendToBlob (mkAppendCall account storageID first None chunk) d with
      | (d', None) => append_chunks account storageID (first + 1) rest d'
      | (d', Some err) => (d', Some err)
      end
  end.

(** The two blob maps have the same keys. *)
Definition aligned (d : StorageDriver) : Prop :=
  forall k, is_Some (blobs d !! k) <-> is_Some (blobChunkCounts d !! k).

(** Account names and digests have no slash; repository names may. *)
Fixpoint has_slash (s : string) : bool :=
  match s with
  | EmptyString => false
  | String c rest => Ascii.eqb c "/"%char || has_slash rest
  end.

(** What the in-memory driver holds for an upload that has sent [n] chunks
    with the bytes [old]: nothing before the first chunk. *)
Definition upload_in_driver (account : ReducedAccount) (upload : Upload)
    (old : list Byte.byte) (d : StorageDriver) : Prop :=
  let k := blobKey account (StorageID upload) in
  (NumChunks upload = 0 /\ old = [] /\
   blobChunkCounts d !! k = None /\ blobs d !! k = None) \/
  (1 <= NumChunks upload /\
   blobChunkCounts d !! k = Some (NumChunks upload) /\
   blobs d !! k = Some old).

End TrivialSessions.

(** ** internal/processor: appending to a blob upload *)

Module Chunking.
Import Models Storage.

(** [const chunkSizeBytes = 500 << 20] *)
Definition chunkSizeBytes : Z := Z.shiftl 500 20.

(** An [io.Reader] over a stream is the list of bytes not yet read.
    [io.LimitReader(contents, n)] hands out the next [n] bytes at most, and
    reading it to its end leaves the rest in [contents]. *)
Definition Reader := list Byte.byte.

Definition LimitReader (contents : Reader) (n : Z) : Reader :=
  take (Z.to_nat n) contents.

Definition after_limit (contents : Reader) (n : Z) : Reader :=
  drop (Z.to_nat n) contents.

Section ForeachChunk.
Context {St : Type}.
Variable action : Reader -> Z -> St -> St * option string.

(** The loop of [foreachChunkWithKnownSize].  [remainingBytes] is a uint64.
    The loop runs while [remainingBytes > chunkSizeBytes]; [fuel] bounds the
    number of rounds, and [None] means the bound was too small. *)
Fixpoint foreachChunk_loop (fuel : nat) (contents : Reader) (remainingBytes : Z)
    (st : St) : option (St * option string) :=
  if chunkSizeBytes <? remainingBytes then
    match fuel with
    | O => None
    | S fuel' =>
        let '(st', err) := action (LimitReader contents chunkSizeBytes) chunkSizeBytes st in
        match err with
        | Some e => Some (st', Some e)
        | None =>
            foreachChunk_loop fuel' (after_limit contents chunkSizeBytes)
              (wrap_uint64 (remainingBytes - chunkSizeBytes)) st'
        end
    end
  else Some (action contents remainingBytes st).

(** [foreachChunkWithKnownSize]: [lengthBytes / chunkSizeBytes] rounds are
    always enough for a uint64 length (see
    [foreachChunkWithKnownSize_returns]). *)
Definition foreachChunkWithKnownSize (contents : Reader) (lengthBytes : Z)
    (st : St) : option (St * option string) :=
  foreachChunk_loop (Z.to_nat (lengthBytes / chunkSizeBytes)) contents lengthBytes st.

End ForeachChunk.

(** What the processor touches while appending: the storage driver, and the
    calls made to it so far, oldest first. *)
Record World (S : Type) : Type := mkWorld {
  sd : S;
  calls : list AppendCall
}.
Arguments mkWorld {S} sd calls.
Arguments sd {S} w.
Arguments calls {S} w.

Section AppendToBlob.
Context {S : Type} `{!StorageDriver S}.

(** [p.sd.AppendToBlob(...)], recorded. *)
Definition call_AppendToBlob (c : AppendCall) (w : World S)
  : World S * option string :=
  let '(s', err) := sd_AppendToBlob c (sd w) in
  (mkWorld s' (calls w ++ [c]), err).

(** The closure that [AppendToBlob] passes as [action]. *)
Definition append_chunk (account : ReducedAccount) (chunk : Reader)
    (chunkLengthBytes : Z) (st : Upload * World S)
  : (Upload * World S) * option string :=
  let '(upload, w) := st in
  let numChunks := wrap_uint32 (NumChunks upload + 1) in
  let sizeBytes := wrap_uint64 (SizeBytes upload + chunkLengthBytes) in
  let upload' := mkUpload (StorageID upload) sizeBytes numChunks in
  let '(w', err) :=
    call_AppendToBlob
      (mkAppendCall account (StorageID upload') numChunks (Some chunkLengthBytes) chunk) w in
  ((upload', w'), err).

(** [Processor.AppendToBlob] for an input of known length (the case
    [lengthBytes != nil] of the source). *)
Definition AppendToBlob (account : ReducedAccount) (upload : Upload)
    (contents : Reader) (lengthBytes : Z) (w : World S)
  : option ((Upload * World S) * option string) :=
  foreachChunkWithKnownSize (append_chunk account) contents lengthBytes (upload, w).

End AppendToBlob.

(** The number of chunks the specification announces for [L] bytes:
    [max(1, ceil(L / 500 MiB))]. *)
Definition chunk_count (L : Z) : Z :=
  Z.max 1 ((L + chunkSizeBytes - 1) / chunkSizeBytes).

(** The [i]-th call (counting from 0) that appending to [upload] is expected
    to make: it continues the upload's chunk numbering, declares a length of
    at most one chunk size, and carries that many bytes. *)
Definition expected_call (account : ReducedAccount) (upload : Upload)
    (i : nat) (c : AppendCall) : Prop :=
  call_account c = account /\
  call_storageID c = StorageID upload /\
  call_chunkNumber c = NumChunks upload + 1 + Z.of_nat i /\
  exists len : Z,
    call_chunkLength c = Some len /\
    0 <= len <= chunkSizeBytes /\
    Z.of_nat (length (call_chunk c)) = len.

End Chunking.

(** ** internal/processor: appending a stream of unknown length *)

Module UnknownLength.
Import Models Storage Chunking.

(** The [io.Reader] that the upload comes from: the bytes it still has, and
    how it hands them out.  A read into a buffer of [m] bytes returns at most
    [grant m] of them (a reader may return fewer bytes than the buffer
    takes), and the reader reports [io.EOF] either together with its last
    bytes or only on the read after them; [io.Reader] allows both.
    [bytes.Reader] fills the buffer and reports its end on the read after
    the last byte. *)
Record Stream : Type := mkStream {
  remaining : list Byte.byte;
  grant : nat -> nat;
  eof_with_data : bool
}.

Definition bytes_Reader (contents : list Byte.byte) : Stream :=
  mkStream contents (fun m => m) false.

(** [Read] of the stream into a buffer of length [m]: the bytes read,
    whether the error is [io.EOF], and the stream afterwards.  Other errors
    than [io.EOF] are not modelled. *)
Definition stream_Read (s : Stream) (m : nat) : list Byte.byte * bool * Stream :=
  match remaining s with
  | [] => ([], true, s)
  | _ =>
      let n := Nat.min m (grant s m) in
      let rest := drop n (remaining s) in
      (take n (remaining s),
       eof_with_data s && bool_decide (rest = []),
       mkStream rest (grant s) (eof_with_data s))
  end.

(** [chunkingTrackingReader]; [bytesRead] is a uint64. *)
Record chunkingTrackingReader : Type := mkTrackingReader {
  wrapped : Stream;
  peeked : option Byte.byte;
  bytesRead : Z
}.

(** [chunkingTrackingReader.Read] for a buffer of length [m], when no byte
    is held back: the call that the method makes on itself comes here. *)
Definition Read_wrapped (r : chunkingTrackingReader) (m : nat)
  : list Byte.byte * bool * chunkingTrackingReader :=
  if (m =? 0)%nat then ([], false, r)
  else
    let '(data, eof, rest) := stream_Read (wrapped r) m in
    (data, eof,
     mkTrackingReader rest (peeked r) (wrap_uint64 (bytesRead r + Z.of_nat (length data)))).

(** [chunkingTrackingReader.Read] *)
Definition Read (r : chunkingTrackingReader) (m : nat)
  : list Byte.byte * bool * chunkingTrackingReader :=
  if (m =? 0)%nat then ([], false, r)
  else
    match peeked r with
    | Some b =>
        (* buf[0] = *r.peeked; r.peeked = nil; r.bytesRead++; r.Read(buf[1:]) *)
        let r := mkTrackingReader (wrapped r) None (wrap_uint64 (bytesRead r + 1)) in
        let '(data, eof, r) := Read_wrapped r (m - 1) in
        (b :: data, eof, r)
    | None => Read_wrapped r m
    end.

(** [chunkingTrackingReader.IsEOF] *)
Definition IsEOF (r : chunkingTrackingReader) : bool * chunkingTrackingReader :=
  match peeked r with
  | Some _ => (false, r)
  | None =>
      let '(data, eof, rest) := stream_Read (wrapped r) 1 in
      if eof then (true, mkTrackingReader rest None (bytesRead r))
      else
        match data with
        | [b] => (false, mkTrackingReader rest (Some b) (bytesRead r))
        | _ => (false, mkTrackingReader rest None (bytesRead r))
        end
  end.

(** [io.LimitReader(contents, n)] over the tracking reader, and its [Read]. *)
Record LimitedReader : Type := mkLimitedReader {
  R : chunkingTrackingReader;
  N : Z
}.

Definition LimitedReader_Read (l : LimitedReader) (m : nat)
  : list Byte.byte * bool * LimitedReader :=
  if N l <=? 0 then ([], true, l)
  else
    let m := if N l <? Z.of_nat m then Z.to_nat (N l) else m in
    let '(data, eof, r) := Read (R l) m in
    (data, eof, mkLimitedReader r (N l - Z.of_nat (length data))).

(** How a storage driver consumes a chunk: it reads until [io.EOF], as
    [io.ReadAll] does.  [room k] is the length of the buffer it offers once
    it holds [k] bytes ([io.ReadAll] starts with 512 and grows the buffer
    when it is full).  [fuel] bounds the number of reads. *)
Fixpoint ReadAll (room : nat -> nat) (fuel : nat) (l : LimitedReader)
    (b : list Byte.byte) : option (list Byte.byte * LimitedReader) :=
  match fuel with
  | O => None
  | S fuel' =>
      let '(data, eof, l') := LimitedReader_Read l (room (length b)) in
      if eof then Some (b ++ data, l') else ReadAll room fuel' l' (b ++ data)
  end.

(** The bytes that a tracking reader still has to give. *)
Definition pending (r : chunkingTrackingReader) : list Byte.byte :=
  match peeked r with
  | Some b => b :: remaining (wrapped r)
  | None => remaining (wrapped r)
  end.

(** A reader that makes progress: a read into a buffer that is not empty
    returns at least one byte while bytes are left. *)
Definition makes_progress (s : Stream) : Prop :=
  forall m : nat, (1 <= m)%nat -> (1 <= grant s m)%nat.

Section AppendToBlob.
Context {S : Type} `{!StorageDriver S}.
Variable room : nat -> nat.

(** The closure that [AppendToBlob] passes to [foreachChunkWithUnknownSize],
    applied to [io.LimitReader(contents, chunkSizeBytes)]: the chunk has no
    announced length, and the driver reads it to its end before it
    answers. *)
Definition append_stream_chunk (account : ReducedAccount)
    (st : Upload * World S * chunkingTrackingReader)
  : option ((Upload * World S * chunkingTrackingReader) * option string) :=
  let '(upload, w, contents) := st in
  let numChunks := wrap_uint32 (NumChunks upload + 1) in
  let upload' := mkUpload (StorageID upload) (SizeBytes upload) numChunks in
  match ReadAll room (Datatypes.S (Datatypes.S (length (remaining (wrapped contents)))))
          (mkLimitedReader contents chunkSizeBytes) [] with
  | None => None
  | Some (chunk, l) =>
      let '(w', err) :=
        call_AppendToBlob
          (mkAppendCall account (StorageID upload') numChunks None chunk) w in
      Some ((upload', w', R l), err)
  end.

(** [foreachChunkWithUnknownSize]: the action, then [IsEOF], again and
    again.  [fuel] bounds the number of rounds. *)
Fixpoint foreachChunkWithUnknownSize (fuel : nat) (account : ReducedAccount)
    (st : Upload * World S * chunkingTrackingReader)
  : option ((Upload * World S * chunkingTrackingReader) * option string) :=
  match fuel with
  | O => None
  | Datatypes.S fuel' =>
      match append_stream_chunk account st with
      | None => None
      | Some (st', Some err) => Some (st', Some err)
      | Some ((upload, w, contents), None) =>
          let '(eof, contents) := IsEOF contents in
          if eof then Some ((upload, w, contents), None)
          else foreachChunkWithUnknownSize fuel' account (upload, w, contents)
      end
  end.

(** [Processor.AppendToBlob] for an input of unknown length (the case
    [lengthBytes == nil] of the source). *)
Definition AppendToBlob (account : ReducedAccount) (upload : Upload)
    (contents : Stream) (w : World S)
  : option ((Upload * World S) * option string) :=
  let ctr := mkTrackingReader contents None 0 in
  match foreachChunkWithUnknownSize (Datatypes.S (length (remaining contents))) account
          (upload, w, ctr) with
  | None => None
  | Some ((upload, w, ctr), err) =>
      Some ((mkUpload (StorageID upload)
               (wrap_uint64 (SizeBytes upload + bytesRead ctr)) (NumChunks upload),
             w),
            err)
  end.

End AppendToBlob.

(** The [i]-th call (counting from 0) that appending a stream of unknown
    length to [upload] is expected to make. *)
Definition expected_stream_call (account : ReducedAccount) (upload : Upload)
    (i : nat) (c : AppendCall) : Prop :=
  call_account c = account /\
  call_storageID c = StorageID upload /\
  call_chunkNumber c = NumChunks upload + 1 + Z.of_nat i /\
  call_chunkLength c = None /\
  Z.of_nat (length (call_chunk c)) <= chunkSizeBytes.

End UnknownLength.

(** ** internal/keppel: the configuration *)

Module Keppel.

(** [keppel.Configuration], as far as hostnames go.  The anycast hostname is
    the empty string when no anycast endpoint is configured. *)
Record Configuration : Type := mkConfiguration {
  APIPublicHostname : string;
  AnycastAPIPublicHostname : string
}.

End Keppel.

(** ** internal/auth: audiences *)

Module Auth.
Import Keppel.

Record Audience : Type := mkAudience {
  IsAnycast : bool;
  AccountName : string
}.

(** [strings.SplitN(s, ".", 2)]: cut at the first dot, if there is one. *)
Fixpoint cut_dot (s : string) : option (string * string) :=
  match s with
  | EmptyString => None
  | String c rest =>
      if Ascii.eqb c "."%char then Some (EmptyString, rest)
      else match cut_dot rest with
           | Some (head, tail) => Some (String c head, tail)
           | None => None
           end
  end.

Definition SplitN_dot_2 (s : string) : list string :=
  match cut_dot s with
  | Some (head, tail) => [head; tail]
  | None => [s]
  end.

Fixpoint has_dot (s : string) : bool :=
  match s with
  | EmptyString => false
  | String c rest => Ascii.eqb c "."%char || has_dot rest
  end.

Section Audiences.

(** [models.IsAccountName] is not embedded; the functions below take it as
    given. *)
Variable IsAccountName : string -> bool.

Definition fallback : Audience := mkAudience false "".

(** Option 2 of [IdentifyAudience]: the hostname of a domain-remapped API. *)
Definition identify_remapped (hostname : string) (cfg : Configuration) : Audience :=
  match SplitN_dot_2 hostname with
  | [head; tail] =>
      if negb (head =? "")%string && negb (tail =? "")%string then
        if IsAccountName head then
          if (tail =? APIPublicHostname cfg)%string then mkAudience false head
          else if (tail =? AnycastAPIPublicHostname cfg)%string then mkAudience true head
          else fallback
        else fallback
      else fallback
  | _ => fallback
  end.

Definition IdentifyAudience (hostname : string) (cfg : Configuration) : Audience :=
  if negb (hostname =? "")%string then
    if (hostname =? APIPublicHostname cfg)%string then mkAudience false ""
    else if (hostname =? AnycastAPIPublicHostname cfg)%string then mkAudience true ""
    else identify_remapped hostname cfg
  else identify_remapped hostname cfg.

(** [Audience.Hostname]; [fmt.Sprintf("%s.%s", a, b)] is [a ++ "." ++ b]. *)
Definition Hostname (a : Audience) (cfg : Configuration) : string :=
  let result := APIPublicHostname cfg in
  let result := if IsAnycast a then AnycastAPIPublicHostname cfg else result in
  if negb (AccountName a =? "")%string
  then (AccountName a ++ "." ++ result)%string
  else result.

(** The well-known hostname that [Hostname] builds on, and the other one. *)
Definition own_hostname (a : Audience) (cfg : Configuration) : string :=
  if IsAnycast a then AnycastAPIPublicHostname cfg else APIPublicHostname cfg.

Definition other_hostname (a : Audience) (cfg : Configuration) : string :=
  if IsAnycast a then APIPublicHostname cfg else AnycastAPIPublicHostname cfg.

(** The audiences that a configuration can tell apart by hostname:
    - an anycast audience needs an anycast hostname, different from the
      public one;
    - a domain-remapped audience needs an account name that
      [IsAccountName] accepts and that has no dot, a non-empty hostname to
      build on, and a remapped hostname that is not the other well-known
      hostname. *)
Definition resolvable (a : Audience) (cfg : Configuration) : Prop :=
  (IsAnycast a = true ->
     AnycastAPIPublicHostname cfg <> "" /\
     AnycastAPIPublicHostname cfg <> APIPublicHostname cfg) /\
  (AccountName a <> "" ->
     IsAccountName (AccountName a) = true /\
     has_dot (AccountName a) = false /\
     own_hostname a cfg <> "" /\
     Hostname a cfg <> other_hostname a cfg).

End Audiences.

(** [Audience.MapPeerHostname]: the peer's hostname, domain-remapped like the
    audience. *)
Definition MapPeerHostname (a : Audience) (peerHostname : string) : string :=
  if negb (AccountName a =? "")%string
  then (AccountName a ++ "." ++ peerHostname)%string
  else peerHostname.

(** Modelled from the spec: [models.IsAccountName] is missing from the
    sources; section 3 gives account names a DNS-label shape.  This is the
    shape used where an example needs a concrete check: lower-case letters,
    digits and dashes, not starting with a dash, and not empty. *)
Definition is_label_char (c : ascii) : bool :=
  let n := nat_of_ascii c in
  ((97 <=? n)%nat && (n <=? 122)%nat) || ((48 <=? n)%nat && (n <=? 57)%nat)
  || (n =? 45)%nat.

Fixpoint all_label_chars (s : string) : bool :=
  match s with
  | EmptyString => true
  | String c rest => is_label_char c && all_label_chars rest
  end.

Definition dns_label (s : string) : bool :=
  match s with
  | EmptyString => false
  | String c _ => negb (Ascii.eqb c "-"%char) && all_label_chars s
  end.

End Auth.

(** ** internal/keppel: parsed manifests *)

Module Manifest.
Import Imagespecs Models.

(** [manifest.Schema2PlatformSpec]: the platform of an entry of a Docker
    manifest list; it has a field more than [imagespecs.Platform]. *)
Record Schema2PlatformSpec : Type := mkSchema2PlatformSpec {
  sp_Architecture : string;
  sp_OS : string;
  sp_OSVersion : string;
  sp_OSFeatures : option (list string);
  sp_Variant : string;
  sp_Features : option (list string)
}.

(** [manifest.Schema2ManifestDescriptor]: an entry of a Docker manifest
    list; its platform is a value, not a pointer. *)
Record Schema2ManifestDescriptor : Type := mkSchema2ManifestDescriptor {
  s2_MediaType : string;
  s2_Size : Z;
  s2_Digest : string;
  s2_URLs : option (list string);
  s2_Platform : Schema2PlatformSpec
}.

(** [manifest.Schema2List] *)
Record Schema2List : Type := mkSchema2List {
  list_MediaType : string;
  list_Manifests : list Schema2ManifestDescriptor
}.

(** [manifest.OCI1Index] *)
Record OCI1Index : Type := mkOCI1Index {
  index_MediaType : string;
  index_Manifests : list Descriptor
}.

(** [manifest.Schema2] and [manifest.OCI1]: image manifests, with a config
    blob and layers. *)
Record Schema2 : Type := mkSchema2 {
  schema2_MediaType : string;
  schema2_Config : Descriptor;
  schema2_Layers : list Descriptor
}.

Record OCI1 : Type := mkOCI1 {
  oci_MediaType : string;
  oci_Config : Descriptor;
  oci_Layers : list Descriptor
}.

Definition DockerV2ListMediaType : string :=
  "application/vnd.docker.distribution.manifest.list.v2+json".
Definition DockerV2Schema2MediaType : string :=
  "application/vnd.docker.distribution.manifest.v2+json".
(** [ManifestMediaTypes]: the media types that [ParseManifest] is meant to
    know. *)
Definition ManifestMediaTypes : list string :=
  [ DockerV2ListMediaType; DockerV2Schema2MediaType;
    MediaTypeImageIndex; MediaTypeImageManifest ].

(** The implementations of the [ParsedManifest] interface. *)
Inductive ParsedManifest : Type :=
| v2ManifestListAdapter (m : Schema2List)
| v2ManifestAdapter (m : Schema2)
| ociIndexAdapter (m : OCI1Index)
| ociManifestAdapter (m : OCI1).

Section Parsing.

(** The parsers of the image library are not part of the repository. *)
Variable Schema2ListFromManifest : list Byte.byte -> result Schema2List.
Variable Schema2FromManifest : list Byte.byte -> result Schema2.
Variable OCI1IndexFromManifest : list Byte.byte -> result OCI1Index.
Variable OCI1FromManifest : list Byte.byte -> result OCI1.

Definition ParseManifest (mediaType : string) (contents : list Byte.byte)
  : result ParsedManifest :=
  if (mediaType =? DockerV2ListMediaType)%string then
    m ← Schema2ListFromManifest contents; Ok (v2ManifestListAdapter m)
  else if (mediaType =? DockerV2Schema2MediaType)%string then
    m ← Schema2FromManifest contents; Ok (v2ManifestAdapter m)
  else if (mediaType =? MediaTypeImageIndex)%string then
    m ← OCI1IndexFromManifest contents; Ok (ociIndexAdapter m)
  else if (mediaType =? MediaTypeImageManifest)%string then
    m ← OCI1FromManifest contents; Ok (ociManifestAdapter m)
  else Err "unsupported manifest media type".

End Parsing.

(** The loop of [v2ManifestListAdapter.ManifestReferences]. *)
Fixpoint list_references (pf : PlatformFilter) (ms : list Schema2ManifestDescriptor)
    (result : list Descriptor) : list Descriptor :=
  match ms with
  | [] => result
  | m :: rest =>
      let platform :=
        mkPlatform (sp_Architecture (s2_Platform m)) (sp_OS (s2_Platform m))
          (sp_OSVersion (s2_Platform m)) (sp_OSFeatures (s2_Platform m))
          (sp_Variant (s2_Platform m)) in
      if Includes pf platform then
        let descriptor :=
          mkDescriptor (s2_MediaType m) (s2_Digest m) (s2_Size m) (s2_URLs m)
            (Some platform) in
        list_references pf rest (result ++ [descriptor])
      else list_references pf rest result
  end.

(** The loop of [ociIndexAdapter.ManifestReferences]. *)
Fixpoint index_references (pf : PlatformFilter) (ms : list Descriptor)
    (result : list Descriptor) : list Descriptor :=
  match ms with
  | [] => result
  | m :: rest =>
      let keep :=
        match DPlatform m with
        | None => true
        | Some platform => Includes pf platform
        end in
      if keep then index_references pf rest (result ++ [m])
      else index_references pf rest result
  end.

Definition ManifestReferences (a : ParsedManifest) (pf : PlatformFilter)
  : list Descriptor :=
  match a with
  | v2ManifestListAdapter m => list_references pf (list_Manifests m) []
  | v2ManifestAdapter _ => []
  | ociIndexAdapter m => index_references pf (index_Manifests m) []
  | ociManifestAdapter _ => []
  end.

(** The loop of [v2ManifestListAdapter.AcceptableAlternates].  The body reads
    [m.Platform.OS] through the pointer; [None] stands for the panic of a nil
    pointer dereference. *)
Fixpoint list_alternates (listMediaType : string) (refs : list Descriptor)
    (result : list Descriptor) : option (list Descriptor) :=
  match refs with
  | [] => Some result
  | m :: rest =>
      if (listMediaType =? DockerV2ListMediaType)%string
         && (MediaType m =? DockerV2Schema2MediaType)%string then
        match DPlatform m with
        | None => None
        | Some platform =>
            if (OS platform =? "linux")%string && (Architecture platform =? "amd64")%string
            then list_alternates listMediaType rest (result ++ [m])
            else list_alternates listMediaType rest result
        end
      else list_alternates listMediaType rest result
  end.

Definition AcceptableAlternates (a : ParsedManifest) (pf : PlatformFilter)
  : option (list Descriptor) :=
  match a with
  | v2ManifestListAdapter m =>
      list_alternates (list_MediaType m) (ManifestReferences a pf) []
  | v2ManifestAdapter _ => Some []
  | ociIndexAdapter _ => Some []
  | ociManifestAdapter _ => Some []
  end.

(** A child manifest that can stand in for a Docker manifest list: a Docker
    v2 schema 2 image for linux/amd64. *)
Definition is_linux_amd64_image (d : Descriptor) : bool :=
  (MediaType d =? DockerV2Schema2MediaType)%string &&
  match DPlatform d with
  | Some platform =>
      (OS platform =? "linux")%string && (Architecture platform =? "amd64")%string
  | None => false
  end.

(** The platform of an entry, as an [imagespecs.Platform]. *)
Definition entry_platform (c : Schema2ManifestDescriptor) : Platform :=
  mkPlatform (sp_Architecture (s2_Platform c)) (sp_OS (s2_Platform c))
    (sp_OSVersion (s2_Platform c)) (sp_OSFeatures (s2_Platform c))
    (sp_Variant (s2_Platform c)).

(** The children of a Docker manifest list that pass the platform filter,
    said directly. *)
Definition filtered_children (m : Schema2List) (pf : PlatformFilter)
  : list Descriptor :=
  map (fun c => mkDescriptor (s2_MediaType c) (s2_Digest c) (s2_Size c)
                  (s2_URLs c) (Some (entry_platform c)))
      (List.filter (fun c => Includes pf (entry_platform c)) (list_Manifests m)).

(** The alternate-serving rule in the words of the specification: every
    parsed Docker v2 manifest list offers its linux/amd64 Docker v2 schema 2
    children (among those that pass the platform filter); a manifest of the
    three other kinds offers nothing. *)
Definition alternates_by_rule (a : ParsedManifest) (pf : PlatformFilter)
  : list Descriptor :=
  match a with
  | v2ManifestListAdapter m => List.filter is_linux_amd64_image (filtered_children m pf)
  | v2ManifestAdapter _ | ociIndexAdapter _ | ociManifestAdapter _ => []
  end.

(** The digests of the children of a manifest list or an image index, as
    the manifest has them; an image manifest has no children. *)
Definition child_digests (a : ParsedManifest) : list string :=
  match a with
  | v2ManifestListAdapter m => map s2_Digest (list_Manifests m)
  | ociIndexAdapter m => map Digest (index_Manifests m)
  | v2ManifestAdapter _ | ociManifestAdapter _ => []
  end.

(** The manifest list of the test fixtures: an amd64 and an arm image. *)
Definition fixture_list : Schema2List :=
  mkSchema2List DockerV2ListMediaType
    [ mkSchema2ManifestDescriptor DockerV2Schema2MediaType 592
        "sha256:e255ca60e7cfef94adfcd95d78f1eb44404c4f5887cbf506dd5799489a42606c"
        None (mkSchema2PlatformSpec "amd64" "linux" "" None "" None);
      mkSchema2ManifestDescriptor DockerV2Schema2MediaType 592
        "sha256:207a16511ab28a6c3ff0ad6e483ba79fb59a9ebf3721c94e4b91b825bfecf223"
        None (mkSchema2PlatformSpec "arm" "linux" "" None "" None) ].

(** The same list from a document without a [mediaType] field: the parser
    of the image library leaves [MediaType] empty. *)
Definition fixture_list_without_media_type : Schema2List :=
  mkSchema2List "" (list_Manifests fixture_list).

End Manifest.

(** ** internal/keppel: the federation driver interface *)

Module FederationDriver.

(** [keppel.ClaimResult] *)
Inductive ClaimResult : Type :=
| ClaimSucceeded
| ClaimFailed
| ClaimErrored.

Definition ErrNoSuchPrimaryAccount : string := "no such primary account".

End FederationDriver.

(** ** internal/drivers/openstack: the federation driver on a Swift container *)

Module FederationSwift.
Import Models FederationDriver.

(** [accountFile].  [ReplicaHostNames] is a slice: [None] is the nil slice
    that a missing file or a JSON null gives. *)
Record accountFile : Type := mkAccountFile {
  af_AccountName : AccountName;
  PrimaryHostName : string;
  ReplicaHostNames : option (list string);
  SubleaseTokenSecret : string
}.

#[global] Instance accountFile_eq_dec : EqDecision accountFile.
Proof. solve_decision. Defined.

(** The Swift container: object name to the account file that its JSON
    text holds.  The model container answers every request and shows a write
    to the next read. *)
Abbreviation Container := (gmap string accountFile).

Record federationDriverSwift : Type := mkDriver {
  OwnHostName : string
}.

Definition accountFileObj (accountName : AccountName) : string :=
  ("accounts/" ++ accountName ++ ".json")%string.

(** [readAccountFile]: a missing object reads as an empty file.  The account
    name is not part of the JSON text ([json:"-"]); the reader fills it in. *)
Definition readAccountFile (c : Container) (accountName : AccountName) : accountFile :=
  match c !! accountFileObj accountName with
  | None => mkAccountFile accountName "" None ""
  | Some file =>
      mkAccountFile accountName (PrimaryHostName file) (ReplicaHostNames file)
        (SubleaseTokenSecret file)
  end.

(** What [json.Marshal] keeps of a file. *)
Definition stored (file : accountFile) : accountFile :=
  mkAccountFile "" (PrimaryHostName file) (ReplicaHostNames file)
    (SubleaseTokenSecret file).

(** [sort.Strings] *)
Fixpoint insert_sorted (x : string) (l : list string) : list string :=
  match l with
  | [] => [x]
  | y :: rest => if String.leb x y then x :: l else y :: insert_sorted x rest
  end.

Definition sort_strings (l : list string) : list string :=
  fold_right insert_sorted [] l.

Definition sort_replicas (file : accountFile) : accountFile :=
  mkAccountFile (af_AccountName file) (PrimaryHostName file)
    (option_map sort_strings (ReplicaHostNames file)) (SubleaseTokenSecret file).

(** [addStringToList] and [removeStringFromList].  The flag tells whether
    the result is the very slice that was passed in: [addStringToList]
    returns its argument when the value is there already, and appends
    otherwise; [removeStringFromList] always builds a new slice. *)
Definition addStringToList (l : option (list string)) (value : string)
  : option (list string) * bool :=
  if existsb (String.eqb value) (default [] l) then (l, true)
  else (Some (default [] l ++ [value]), false).

Definition removeStringFromList (l : option (list string)) (value : string)
  : option (list string) * bool :=
  (Some (List.filter (fun elem => negb (elem =? value)%string) (default [] l)), false).

(** One run of a [modify] closure on the file it is handed: either the
    modified file, with the flag above for its [ReplicaHostNames], or an
    error together with the value the closure left in the captured
    [isUserError]. *)
Inductive modify_outcome : Type :=
| Modified (file : accountFile) (same_slice : bool)
| Rejected (isUserError : bool) (msg : string).

(** The comparison [reflect.DeepEqual(file, fileModified)] that follows
    [sort.Strings(fileModified.ReplicaHostNames)].  [fileModified] starts as a
    copy of the struct, which copies the slice header only: as long as the
    closure left the slice in place, the sort reorders the array that [file]
    looks at, too. *)
Definition unchanged (file fileModified : accountFile) (same_slice : bool) : bool :=
  let seen := if same_slice then sort_replicas file else file in
  bool_decide (seen = sort_replicas fileModified).

(** [modifyAccountFile]: write, read back, and check that the modification
    is still in place.  The error, if any, comes with [isUserError]. *)
Definition modifyAccountFile (c : Container) (accountName : AccountName)
    (modify : accountFile -> bool -> modify_outcome)
  : Container * option (bool * string) :=
  let fileOld := readAccountFile c accountName in
  match modify fileOld true with
  | Rejected isUserError msg => (c, Some (isUserError, msg))
  | Modified fileOldModified same_slice =>
      if unchanged fileOld fileOldModified same_slice then (c, None)
      else
        let c' := <[accountFileObj accountName := stored (sort_replicas fileOldModified)]> c in
        let fileNew := readAccountFile c' accountName in
        match modify fileNew false with
        | Rejected isUserError msg => (c', Some (isUserError, msg))
        | Modified fileNewModified same_slice' =>
            if negb (unchanged fileNew fileNewModified same_slice')
            then (c', Some (false, "write collision while trying to update the account file, please retry"))
            else (c', None)
        end
  end.

Definition verifyAccountOwnership (file : accountFile) (expectedPrimaryHostName : string)
  : option string :=
  if negb (PrimaryHostName file =? expectedPrimaryHostName)%string
  then Some "expected primary for account to be hosted elsewhere"
  else None.

Definition with_primary (file : accountFile) (host : string) : accountFile :=
  mkAccountFile (af_AccountName file) host (ReplicaHostNames file)
    (SubleaseTokenSecret file).

Definition with_secret (file : accountFile) (secret : string) : accountFile :=
  mkAccountFile (af_AccountName file) (PrimaryHostName file) (ReplicaHostNames file)
    secret.

Definition with_replicas (file : accountFile) (l : option (list string)) : accountFile :=
  mkAccountFile (af_AccountName file) (PrimaryHostName file) l
    (SubleaseTokenSecret file).

Section Driver.
Variable fd : federationDriverSwift.

Definition claimPrimaryAccount (c : Container) (account : Account)
    (subleaseTokenSecret : string) : Container * option (bool * string) :=
  if negb (subleaseTokenSecret =? "")%string
  then (c, Some (true, "cannot check sublease token when claiming a primary account"))
  else
    modifyAccountFile c (Name account) (fun file firstPass =>
      if (PrimaryHostName file =? "")%string
         || (PrimaryHostName file =? OwnHostName fd)%string
      then Modified (with_primary file (OwnHostName fd)) true
      else Rejected true "account name is already in use").

Definition claimReplicaAccount (c : Container) (account : Account)
    (subleaseTokenSecret : string) : Container * option (bool * string) :=
  if (subleaseTokenSecret =? "")%string
  then (c, Some (true, "missing sublease token"))
  else
    modifyAccountFile c (Name account) (fun file firstPass =>
      let checked :=
        if firstPass then
          if negb (SubleaseTokenSecret file =? subleaseTokenSecret)%string
          then Rejected true "invalid sublease token (or token was already used)"
          else Modified (with_secret file "") true
        else Modified file true in
      match checked with
      | Rejected isUserError msg => Rejected isUserError msg
      | Modified file _ =>
          match verifyAccountOwnership file (UpstreamPeerHostName account) with
          | Some msg => Rejected false msg
          | None =>
              let '(l, same_slice) := addStringToList (ReplicaHostNames file) (OwnHostName fd) in
              Modified (with_replicas file l) same_slice
          end
      end).

(** [ClaimAccountName] *)
Definition ClaimAccountName (c : Container) (account : Account)
    (subleaseTokenSecret : string) : Container * (ClaimResult * option string) :=
  let '(c', out) :=
    if negb (UpstreamPeerHostName account =? "")%string
    then claimReplicaAccount c account subleaseTokenSecret
    else claimPrimaryAccount c account subleaseTokenSecret in
  match out with
  | Some (true, msg) => (c', (ClaimFailed, Some msg))
  | Some (false, msg) => (c', (ClaimErrored, Some msg))
  | None => (c', (ClaimSucceeded, None))
  end.

(** [IssueSubleaseTokenSecret]; [tokenStr] is the random token. *)
Definition IssueSubleaseTokenSecret (c : Container) (account : Account)
    (tokenStr : string) : Container * (string * option string) :=
  let '(c', out) :=
    modifyAccountFile c (Name account) (fun file firstPass =>
      if negb (UpstreamPeerHostName account =? "")%string
      then Rejected false "operation not allowed for replica accounts"
      else match verifyAccountOwnership file (OwnHostName fd) with
           | Some msg => Rejected false msg
           | None => Modified (with_secret file tokenStr) true
           end) in
  (c', (tokenStr, option_map snd out)).

(** [ForfeitAccountName] *)
Definition ForfeitAccountName (c : Container) (account : Account)
  : Container * option string :=
  if negb (UpstreamPeerHostName account =? "")%string then
    let '(c', out) :=
      modifyAccountFile c (Name account) (fun file _ =>
        let '(l, same_slice) := removeStringFromList (ReplicaHostNames file) (OwnHostName fd) in
        Modified (with_replicas file l) same_slice) in
    (c', option_map snd out)
  else
    let file := readAccountFile c (Name account) in
    match verifyAccountOwnership file (OwnHostName fd) with
    | Some msg => (c, Some msg)
    | None =>
        if (0 <? length (default [] (ReplicaHostNames file)))%nat
        then (c, Some "cannot delete primary account: replicas are still attached to it")
        else match c !! accountFileObj (Name account) with
             | Some _ => (delete (accountFileObj (Name account)) c, None)
             | None => (c, Some "404 Not Found")
             end
    end.

(** [FindPrimaryAccount] *)
Definition FindPrimaryAccount (c : Container) (accountName : AccountName)
  : result string :=
  let file := readAccountFile c accountName in
  if (PrimaryHostName file =? "")%string then Err ErrNoSuchPrimaryAccount
  else Ok (PrimaryHostName file).

(** [RecordExistingAccount]; the [now] argument is not used by this driver. *)
Definition RecordExistingAccount (c : Container) (account : Account)
  : Container * option string :=
  let '(c', out) :=
    modifyAccountFile c (Name account) (fun file _ =>
      (* check that the primary hostname is correct, or fill in if missing *)
      let expectedPrimaryHostName :=
        if (UpstreamPeerHostName account =? "")%string then OwnHostName fd
        else UpstreamPeerHostName account in
      if (PrimaryHostName file =? "")%string
         || (PrimaryHostName file =? expectedPrimaryHostName)%string
      then
        let file := with_primary file expectedPrimaryHostName in
        (* if we are a replica, make sure our name is entered *)
        if negb (UpstreamPeerHostName account =? "")%string then
          let '(l, same_slice) := addStringToList (ReplicaHostNames file) (OwnHostName fd) in
          Modified (with_replicas file l) same_slice
        else Modified file true
      else Rejected false "expected primary for account to be hosted elsewhere") in
  (c', option_map snd out).

End Driver.

(** An ascending list, as [sort.Strings] leaves it. *)
Fixpoint ascending (l : list string) : bool :=
  match l with
  | x :: ((y :: _) as rest) => String.leb x y && ascending rest
  | _ => true
  end.

(** The file that is read back after [modifyAccountFile] has written. *)
Definition written (name : AccountName) (file : accountFile) : accountFile :=
  mkAccountFile name (PrimaryHostName file)
    (option_map sort_strings (ReplicaHostNames file)) (SubleaseTokenSecret file).

End FederationSwift.

(** ** Anycast forwarding (internal/keppel and internal/api/auth) *)

Module Anycast.
Import Keppel Auth.

(** [url.Values] and [http.Header]: a key has a list of values. *)
Abbreviation Values := (gmap string (list string)).

Definition Values_Get (v : Values) (key : string) : string :=
  match v !! key with
  | Some (x :: _) => x
  | _ => ""
  end.

Definition Values_Set (v : Values) (key value : string) : Values :=
  <[key := [value]]> v.

(** An [http.Request] as it travels: the peer receives what was sent. *)
Record Request : Type := mkRequest {
  Method : string;
  Host : string;
  Path : string;
  Query : Values;
  Header : Values
}.

Record Response : Type := mkResponse {
  StatusCode : Z;
  RespHeader : Values;
  Body : string
}.

Definition reverseProxyHeaders : list string := ["Accept"; "Authorization"].

(** The request that [ReverseProxyAnycastRequestToPeer] builds.
    [req.Header[name] = r.Header[name]] copies the nil slice of a missing
    header, too. *)
Definition proxy_request (cfg : Configuration) (r : Request) (peerHostName : string)
  : Request :=
  let query := Values_Set (Query r) "forwarded-by" (APIPublicHostname cfg) in
  let header :=
    fold_left (fun (h : Values) headerName =>
                 <[headerName := default [] (Header r !! headerName)]> h)
              reverseProxyHeaders (∅ : Values) in
  let header := Values_Set header "X-Keppel-Forwarded-By" (APIPublicHostname cfg) in
  mkRequest (Method r) peerHostName (Path r) query header.

Section Handlers.

(** [client.Do]: the network between the peers. *)
Variable Do : Request -> result Response.

(** [ReverseProxyAnycastRequestToPeer].  The [ResponseWriter] is the response
    written so far, if any. *)
Definition ReverseProxyAnycastRequestToPeer (cfg : Configuration)
    (w : option Response) (r : Request) (peerHostName : string)
  : option Response * option string :=
  match Do (proxy_request cfg r peerHostName) with
  | Err e => (w, Some e)
  | Ok resp => (Some resp, None)
  end.

(** [FederationDriver.FindPrimaryAccount] of the API's federation driver. *)
Variable FindPrimaryAccount : string -> result string.

Definition loop_protection_error : string :=
  "request blocked by reverse-proxy loop protection".

(** [API.reverseProxyTokenReqToUpstream] *)
Definition reverseProxyTokenReqToUpstream (cfg : Configuration)
    (w : option Response) (r : Request) (audience : Audience) (accountName : string)
  : option Response * option string :=
  match FindPrimaryAccount accountName with
  | Err e => (w, Some e)
  | Ok primaryHostName =>
      let forwardedBy := Values_Get (Query r) "X-Keppel-Forwarded-By" in
      if negb (forwardedBy =? "")%string
      then (w, Some loop_protection_error)
      else ReverseProxyAnycastRequestToPeer cfg w r
             (MapPeerHostname audience primaryHostName)
  end.

End Handlers.

(** Two peers that each take the other one for the primary of an account
    that neither of them has.  [bounce n] is the network in which a request
    can travel [n] more times; every arrival runs the token handler of the
    addressed peer, and the number of arrivals is counted in the status of
    the final answer. *)
Definition hostA : string := "keppel-a.example.org".
Definition hostB : string := "keppel-b.example.org".

Definition other_peer (host : string) : string :=
  if (host =? hostA)%string then hostB else hostA.

Fixpoint bounce (n : nat) (req : Request) : result Response :=
  match n with
  | O => Err "context deadline exceeded"
  | S n' =>
      let cfg := mkConfiguration (Host req) "registry-global.example.org" in
      match reverseProxyTokenReqToUpstream (bounce n')
              (fun _ => Ok (other_peer (Host req)))
              cfg None req (mkAudience true "") "library" with
      | (_, Some e) => Err e
      | (Some resp, None) => Ok resp
      | (None, None) => Err "no response"
      end
  end.

(** A client's token request for [library/alpine] at the anycast endpoint. *)
Definition token_request : Request :=
  mkRequest "GET" hostA "/keppel/v1/auth"
    {[ "service" := ["registry-global.example.org"];
       "scope" := ["repository:library/alpine:pull"] ]}
    {[ "Accept" := ["application/json"] ]}.

End Anycast.

(** ** internal/processor: creating and updating accounts *)

Module Accounts.
Import Imagespecs Models FederationDriver.

(** [keppel.RegistryV2Error] as its caller sees it: the wrapped message, and
    the HTTP status given by [WithStatus] ([None] where the source leaves the
    status to [AsRegistryV2Error]). *)
Record RegistryV2Error : Type := mkRegistryV2Error {
  rerr_message : string;
  rerr_status : option Z
}.

Definition AsRegistryV2Error (msg : string) : RegistryV2Error :=
  mkRegistryV2Error msg None.
Definition WithStatus (e : RegistryV2Error) (status : Z) : RegistryV2Error :=
  mkRegistryV2Error (rerr_message e) (Some status).

Definition StatusBadRequest : Z := 400.
Definition StatusForbidden : Z := 403.
Definition StatusConflict : Z := 409.
Definition StatusUnprocessableEntity : Z := 422.
Definition StatusInternalServerError : Z := 500.

Inductive rresult (A : Type) : Type :=
| ROk (a : A)
| RErr (e : RegistryV2Error).
Arguments ROk {A} a.
Arguments RErr {A} e.

#[global] Instance rresult_ret : MRet rresult := fun A a => ROk a.
#[global] Instance rresult_bind : MBind rresult := fun A B k r =>
  match r with
  | ROk a => k a
  | RErr e => RErr e
  end.

(** *** The reserved account names *)

Definition is_digit (c : ascii) : bool :=
  let n := nat_of_ascii c in (48 <=? n)%nat && (n <=? 57)%nat.

Definition is_digit_1_to_9 (c : ascii) : bool :=
  let n := nat_of_ascii c in (49 <=? n)%nat && (n <=? 57)%nat.

Fixpoint all_chars (f : ascii -> bool) (s : string) : bool :=
  match s with
  | EmptyString => true
  | String c rest => f c && all_chars f rest
  end.

(** [looksLikeAPIVersionRx.MatchString] for the expression
    [^v[0-9][1-9]*$] of the source. *)
Definition looksLikeAPIVersionRx_MatchString (s : string) : bool :=
  match s with
  | String c0 (String c1 rest) =>
      Ascii.eqb c0 "v"%char && is_digit c1 && all_chars is_digit_1_to_9 rest
  | _ => false
  end.

(** The pattern [v[0-9]+] of the specification: a "v" followed by one or
    more decimal digits. *)
Definition matches_v_digits (s : string) : bool :=
  match s with
  | String c0 (String c1 rest) =>
      Ascii.eqb c0 "v"%char && is_digit c1 && all_chars is_digit rest
  | _ => false
  end.

Definition ErrAccountNameEmpty : string := "account name cannot be empty string".

(** The name checks at the head of [CreateOrUpdateAccount].  (The first
    message has the word keppel in double quotes in the source.) *)
Definition check_account_name (name : AccountName) : option RegistryV2Error :=
  if (name =? "")%string then Some (AsRegistryV2Error ErrAccountNameEmpty)
  else if String.prefix "keppel" name then
    Some (WithStatus
            (AsRegistryV2Error "account names with the prefix keppel are reserved for internal use")
            StatusUnprocessableEntity)
  else if looksLikeAPIVersionRx_MatchString name then
    Some (WithStatus
            (AsRegistryV2Error "account names that look like API versions (e.g. v1) are reserved for internal use")
            StatusUnprocessableEntity)
  else None.

(** The names that the specification reserves. *)
Definition reserved_name (name : AccountName) : bool :=
  (name =? "")%string || String.prefix "keppel" name || matches_v_digits name.

(** *** What the processor works with *)

Inductive ReplicationStrategy : Type :=
| NoReplicationStrategy
| OnFirstUseStrategy
| FromExternalOnFirstUseStrategy.

#[global] Instance ReplicationStrategy_eq_dec : EqDecision ReplicationStrategy.
Proof. solve_decision. Defined.

(** The outcome of [ReplicationPolicy.ApplyToAccount]: the account with the
    policy applied, [ErrIncompatibleReplicationPolicy], or another error. *)
Inductive apply_outcome : Type :=
| Applied (account : Account)
| Incompatible
| Invalid (msg : string).

Definition ErrIncompatibleReplicationPolicy : string :=
  "cannot change replication policy on existing account".

(** The policy types of package keppel, their validation and their JSON
    rendering are not embedded.  They are the fields of
    an environment, together with the peer API. *)
Record Policies : Type := mkPolicies {
  GCPolicy : Type;
  GCPolicy_Validate : GCPolicy -> option string;
  GCPolicies_json : list GCPolicy -> string;
  TagPolicy : Type;
  TagPolicy_Validate : TagPolicy -> option string;
  TagPolicies_json : list TagPolicy -> string;
  RBACPolicy : Type;
  RBACPolicy_ValidateAndNormalize : RBACPolicy -> ReplicationStrategy -> result RBACPolicy;
  RBACPolicies_json : list RBACPolicy -> string;
  ValidationPolicy : Type;
  ValidationPolicy_ApplyToAccount : ValidationPolicy -> Account -> rresult Account;
  ReplicationPolicy : Type;
  Strategy : ReplicationPolicy -> ReplicationStrategy;
  ReplicationPolicy_ApplyToAccount : ReplicationPolicy -> Account -> apply_outcome;
  RenderReplicationPolicy : Account -> option ReplicationPolicy;
  (* peerclient: GetForeignAccountConfigurationInto, reduced to the filter *)
  GetForeignPlatformFilter : string -> AccountName -> result PlatformFilter
}.

(** [keppel.Account]: the account as the API receives it.  A [nil] platform
    filter is [None]. *)
Record APIAccount (P : Policies) : Type := mkAPIAccount {
  api_Name : AccountName;
  api_AuthTenantID : string;
  api_State : string;
  api_GCPolicies : list (GCPolicy P);
  api_TagPolicies : list (TagPolicy P);
  api_RBACPolicies : list (RBACPolicy P);
  api_ReplicationPolicy : option (ReplicationPolicy P);
  api_ValidationPolicy : option (ValidationPolicy P);
  api_PlatformFilter : option PlatformFilter
}.
Arguments mkAPIAccount {P}.
Arguments api_Name {P}.
Arguments api_AuthTenantID {P}.
Arguments api_State {P}.
Arguments api_GCPolicies {P}.
Arguments api_TagPolicies {P}.
Arguments api_RBACPolicies {P}.
Arguments api_ReplicationPolicy {P}.
Arguments api_ValidationPolicy {P}.
Arguments api_PlatformFilter {P}.

(** An audit event: the action and the account it is about. *)
Inductive AuditAction : Type := CreateAction | UpdateAction | DeleteAction.

Record AuditEvent : Type := mkAuditEvent {
  ev_User : string;
  ev_Action : AuditAction;
  ev_Target : Account
}.

(** The processor: the accounts and peers tables of the database (which
    answers every statement), the federation driver, the storage driver and
    the audit trail. *)
Record Processor (FD SD : Type) : Type := mkProcessor {
  db_accounts : gmap AccountName Account;
  db_peers : gset string;
  fd : FD;
  sd : SD;
  audit : list AuditEvent
}.
Arguments mkProcessor {FD SD}.
Arguments db_accounts {FD SD}.
Arguments db_peers {FD SD}.
Arguments fd {FD SD}.
Arguments sd {FD SD}.
Arguments audit {FD SD}.

(** Modelled from the spec: [keppel.FindAccount] is missing from the sources.
    Its callers fix what it returns: [CreateOrUpdateAccount] goes on to
    create the account when the returned pointer is nil and the error is
    nil, so an account that does not exist is reported as [(nil, nil)]. *)
Definition FindAccount (accounts : gmap AccountName Account) (name : AccountName)
  : result (option Account) :=
  Ok (accounts !! name).

(** [Account.Reduced] *)
Definition Reduced (a : Account) : ReducedAccount :=
  mkReducedAccount (Name a) (AuthTenantID a).

Definition set_IsDeleting (a : Account) (b : bool) : Account :=
  mkAccount (Name a) (AuthTenantID a) (UpstreamPeerHostName a) (ExternalPeerURL a)
    (AccountPlatformFilter a) (RequiredLabels a) b (GCPoliciesJSON a)
    (RBACPoliciesJSON a) (SecurityScanPoliciesJSON a) (TagPoliciesJSON a)
    (NextBlobSweepAt a) (NextDeletionAttemptAt a).

Definition set_GCPoliciesJSON (a : Account) (j : string) : Account :=
  mkAccount (Name a) (AuthTenantID a) (UpstreamPeerHostName a) (ExternalPeerURL a)
    (AccountPlatformFilter a) (RequiredLabels a) (IsDeleting a) j
    (RBACPoliciesJSON a) (SecurityScanPoliciesJSON a) (TagPoliciesJSON a)
    (NextBlobSweepAt a) (NextDeletionAttemptAt a).

Definition set_TagPoliciesJSON (a : Account) (j : string) : Account :=
  mkAccount (Name a) (AuthTenantID a) (UpstreamPeerHostName a) (ExternalPeerURL a)
    (AccountPlatformFilter a) (RequiredLabels a) (IsDeleting a) (GCPoliciesJSON a)
    (RBACPoliciesJSON a) (SecurityScanPoliciesJSON a) j
    (NextBlobSweepAt a) (NextDeletionAttemptAt a).

Definition set_RBACPoliciesJSON (a : Account) (j : string) : Account :=
  mkAccount (Name a) (AuthTenantID a) (UpstreamPeerHostName a) (ExternalPeerURL a)
    (AccountPlatformFilter a) (RequiredLabels a) (IsDeleting a) (GCPoliciesJSON a)
    j (SecurityScanPoliciesJSON a) (TagPoliciesJSON a)
    (NextBlobSweepAt a) (NextDeletionAttemptAt a).

Definition set_PlatformFilter (a : Account) (f : PlatformFilter) : Account :=
  mkAccount (Name a) (AuthTenantID a) (UpstreamPeerHostName a) (ExternalPeerURL a)
    f (RequiredLabels a) (IsDeleting a) (GCPoliciesJSON a)
    (RBACPoliciesJSON a) (SecurityScanPoliciesJSON a) (TagPoliciesJSON a)
    (NextBlobSweepAt a) (NextDeletionAttemptAt a).

(** The first error of a list of validations. *)
Fixpoint first_error {A : Type} (validate : A -> option string) (l : list A)
  : option string :=
  match l with
  | [] => None
  | x :: rest =>
      match validate x with
      | Some e => Some e
      | None => first_error validate rest
      end
  end.

Fixpoint normalize_all {A : Type} (f : A -> result A) (l : list A) : result (list A) :=
  match l with
  | [] => Ok []
  | x :: rest =>
      match f x with
      | Err e => Err e
      | Ok y =>
          match normalize_all f rest with
          | Err e => Err e
          | Ok ys => Ok (y :: ys)
          end
      end
  end.

Section CreateOrUpdate.
Context {P : Policies} {FD SD : Type}.

(** The two drivers, as the processor calls them. *)
Variable fd_ClaimAccountName : FD -> Account -> string -> FD * (ClaimResult * option string).
Variable sd_CanSetupAccount : ReducedAccount -> SD -> option string.

Definition statusError {A : Type} (msg : string) (status : Z) : rresult A :=
  RErr (WithStatus (AsRegistryV2Error msg) status).

(** The part of [CreateOrUpdateAccount] between the lookup of the account
    and the creation or update: it computes the row to write, the peer it
    replicates from, or the error to answer with. *)
Definition validate_account (p : Processor FD SD) (account : APIAccount P)
    (originalAccount : option Account)
    (setCustomFields : Account -> rresult Account)
  : rresult (Account * string) :=
  let targetAccount :=
    match originalAccount with
    | None =>
        mkAccount (api_Name account) (api_AuthTenantID account) "" "" [] "" false
          "" "" "[]" "[]" None None
    | Some original => original
    end in
  (* validate and update fields as requested *)
  let targetAccount := set_IsDeleting targetAccount (api_State account =? "deleting")%string in
  (* validate GC policies *)
  targetAccount ←
    (if (length (api_GCPolicies account) =? 0)%nat
     then ROk (set_GCPoliciesJSON targetAccount "[]")
     else match first_error (GCPolicy_Validate P) (api_GCPolicies account) with
          | Some e => statusError e StatusUnprocessableEntity
          | None =>
              ROk (set_GCPoliciesJSON targetAccount (GCPolicies_json P (api_GCPolicies account)))
          end);
  (* validate Tag policies *)
  targetAccount ←
    (if (length (api_TagPolicies account) =? 0)%nat
     then ROk (set_TagPoliciesJSON targetAccount "[]")
     else match first_error (TagPolicy_Validate P) (api_TagPolicies account) with
          | Some e => statusError e StatusUnprocessableEntity
          | None =>
              ROk (set_TagPoliciesJSON targetAccount (TagPolicies_json P (api_TagPolicies account)))
          end);
  (* validate replication policy *)
  let originalStrategy :=
    match originalAccount with
    | Some original =>
        match RenderReplicationPolicy P original with
        | None => NoReplicationStrategy
        | Some rp => Strategy P rp
        end
    | None => NoReplicationStrategy
    end in
  '(targetAccount, replicationStrategy) ←
    match api_ReplicationPolicy account with
    | None =>
        match originalAccount with
        | None => ROk (targetAccount, NoReplicationStrategy)
        | Some _ => ROk (targetAccount, originalStrategy)
        end
    | Some rp =>
        if bool_decide (is_Some originalAccount)
           && negb (bool_decide (originalStrategy = Strategy P rp))
        then statusError ErrIncompatibleReplicationPolicy StatusConflict
        else match ReplicationPolicy_ApplyToAccount P rp targetAccount with
             | Incompatible => statusError ErrIncompatibleReplicationPolicy StatusConflict
             | Invalid e => statusError e StatusUnprocessableEntity
             | Applied targetAccount => ROk (targetAccount, Strategy P rp)
             end
    end;
  (* validate RBAC policies *)
  targetAccount ←
    (if (length (api_RBACPolicies account) =? 0)%nat
     then ROk (set_RBACPoliciesJSON targetAccount "")
     else match normalize_all
                  (fun policy => RBACPolicy_ValidateAndNormalize P policy replicationStrategy)
                  (api_RBACPolicies account) with
          | Err e => statusError e StatusUnprocessableEntity
          | Ok policies => ROk (set_RBACPoliciesJSON targetAccount (RBACPolicies_json P policies))
          end);
  (* validate validation policy *)
  targetAccount ←
    match api_ValidationPolicy account with
    | Some vp => ValidationPolicy_ApplyToAccount P vp targetAccount
    | None => ROk targetAccount
    end;
  (* the peer; GetPeerFromAccount finds it by its hostname *)
  peer ←
    (if negb (UpstreamPeerHostName targetAccount =? "")%string then
       if bool_decide (UpstreamPeerHostName targetAccount ∈ db_peers p)
       then ROk (UpstreamPeerHostName targetAccount)
       else statusError "unknown peer registry" StatusUnprocessableEntity
     else ROk "");
  (* validate platform filter *)
  targetAccount ←
    match originalAccount with
    | None =>
        match replicationStrategy with
        | NoReplicationStrategy =>
            match api_PlatformFilter account with
            | Some _ =>
                statusError "platform filter is only allowed on replica accounts"
                  StatusUnprocessableEntity
            | None => ROk targetAccount
            end
        | FromExternalOnFirstUseStrategy =>
            ROk (set_PlatformFilter targetAccount (default [] (api_PlatformFilter account)))
        | OnFirstUseStrategy =>
            match GetForeignPlatformFilter P peer (Name targetAccount) with
            | Err e => statusError e StatusInternalServerError
            | Ok upstreamPlatformFilter =>
                match api_PlatformFilter account with
                | Some f =>
                    if negb (IsEqualTo upstreamPlatformFilter f)
                    then statusError
                           "peer account filter needs to match primary account filter"
                           StatusConflict
                    else ROk (set_PlatformFilter targetAccount upstreamPlatformFilter)
                | None => ROk (set_PlatformFilter targetAccount upstreamPlatformFilter)
                end
            end
        end
    | Some original =>
        match api_PlatformFilter account with
        | Some f =>
            if negb (IsEqualTo (AccountPlatformFilter original) f)
            then statusError "cannot change platform filter on existing account"
                   StatusConflict
            else ROk targetAccount
        | None => ROk targetAccount
        end
    end;
  targetAccount ← setCustomFields targetAccount;
  ROk (targetAccount, peer).

(** [CreateOrUpdateAccount].  [userInfo] is [None] for a nil [UserInfo];
    [getSubleaseToken] answers with the secret of the token. *)
Definition CreateOrUpdateAccount (p : Processor FD SD) (account : APIAccount P)
    (userInfo : option string)
    (getSubleaseToken : string -> result string)
    (setCustomFields : Account -> rresult Account)
  : Processor FD SD * rresult Account :=
  match check_account_name (api_Name account) with
  | Some rerr => (p, RErr rerr)
  | None =>
  (* check if account already exists *)
  match FindAccount (db_accounts p) (api_Name account) with
  | Err e => (p, statusError e StatusInternalServerError)
  | Ok originalAccount =>
  if match originalAccount with
     | Some original => negb (AuthTenantID original =? api_AuthTenantID account)%string
     | None => false
     end
  then (p, statusError "account name already in use by a different tenant" StatusConflict)
  else
  match validate_account p account originalAccount setCustomFields with
  | RErr rerr => (p, RErr rerr)
  | ROk (targetAccount, peer) =>
  match originalAccount with
  | None =>
      (* create account: sublease tokens are only relevant for replicas *)
      match (if negb (UpstreamPeerHostName targetAccount =? "")%string
             then getSubleaseToken peer else Ok "") with
      | Err e => (p, statusError e StatusBadRequest)
      | Ok subleaseTokenSecret =>
      let '(fd', (claimResult, err)) :=
        fd_ClaimAccountName (fd p) targetAccount subleaseTokenSecret in
      let p := mkProcessor (db_accounts p) (db_peers p) fd' (sd p) (audit p) in
      match claimResult with
      | ClaimFailed => (p, statusError (default "" err) StatusForbidden)
      | ClaimErrored => (p, statusError (default "" err) StatusInternalServerError)
      | ClaimSucceeded =>
      match sd_CanSetupAccount (Reduced targetAccount) (sd p) with
      | Some e =>
          (p, statusError ("cannot set up backing storage for this account: " ++ e)
                StatusConflict)
      | None =>
          (* tx.Insert(&targetAccount) and tx.Commit() *)
          let p := mkProcessor (<[Name targetAccount := targetAccount]> (db_accounts p))
                     (db_peers p) (fd p) (sd p) (audit p) in
          let p :=
            match userInfo with
            | Some user =>
                mkProcessor (db_accounts p) (db_peers p) (fd p) (sd p)
                  (audit p ++ [mkAuditEvent user CreateAction targetAccount])
            | None => p
            end in
          (p, ROk targetAccount)
      end
      end
      end
  | Some original =>
      (* update if necessary *)
      let p :=
        if negb (bool_decide (original = targetAccount))
        then mkProcessor (<[Name targetAccount := targetAccount]> (db_accounts p))
               (db_peers p) (fd p) (sd p) (audit p)
        else p in
      let p :=
        match userInfo with
        | Some user =>
            if negb (bool_decide (set_IsDeleting original (IsDeleting targetAccount)
                                  = targetAccount))
            then mkProcessor (db_accounts p) (db_peers p) (fd p) (sd p)
                   (audit p ++ [mkAuditEvent user UpdateAction targetAccount])
            else p
        | None => p
        end in
      (p, ROk targetAccount)
  end
  end
  end
  end.

End CreateOrUpdate.

(** [UPDATE accounts SET is_deleting = TRUE, next_deletion_attempt_at = $1
    WHERE name = $2] *)
Definition markAccountForDeletion (accounts : gmap AccountName Account)
    (t : Z) (name : AccountName) : gmap AccountName Account :=
  alter (fun a =>
           mkAccount (Name a) (AuthTenantID a) (UpstreamPeerHostName a) (ExternalPeerURL a)
             (AccountPlatformFilter a) (RequiredLabels a) true (GCPoliciesJSON a)
             (RBACPoliciesJSON a) (SecurityScanPoliciesJSON a) (TagPoliciesJSON a)
             (NextBlobSweepAt a) (Some t))
        name accounts.

(** [MarkAccountForDeletion]; [userInfo] is what
    [actx.UserIdentity.UserInfo()] gives, [None] for nil.  The audit event
    is about the account as the caller passed it. *)
Definition MarkAccountForDeletion {FD SD : Type} (timeNow : Z) (p : Processor FD SD)
    (account : Account) (userInfo : option string) : Processor FD SD * option string :=
  let p := mkProcessor (markAccountForDeletion (db_accounts p) timeNow (Name account))
             (db_peers p) (fd p) (sd p) (audit p) in
  let p :=
    match userInfo with
    | Some user =>
        mkProcessor (db_accounts p) (db_peers p) (fd p) (sd p)
          (audit p ++ [mkAuditEvent user DeleteAction account])
    | None => p
    end in
  (p, None).

End Accounts.

(** ** internal/processor: replicating a blob from upstream *)

Module Replication.
Import Models Storage Chunking.

(** [ErrConcurrentReplication] *)
Definition ErrConcurrentReplication : string := "currently replicating".

(** An [http.ResponseWriter]: the headers set, the status written, and the
    body bytes written so far. *)
Record ResponseWriter : Type := mkResponseWriter {
  rw_Header : gmap string string;
  rw_Status : option Z;
  rw_Body : list Byte.byte
}.

(** The processor, as far as replication goes: the pending_blobs and blobs
    tables of the database (which answers every statement), the storage
    driver with the appends made to it, and two counters. *)
Record Processor (S : Type) : Type := mkProcessor {
  pending_blobs : gmap (AccountName * string) PendingBlob;
  blobs : gmap Z Blob;
  world : World S;
  BlobsPushedCounter : nat;
  UploadsAbortedCounter : nat
}.
Arguments mkProcessor {S}.
Arguments pending_blobs {S}.
Arguments blobs {S}.
Arguments world {S}.
Arguments BlobsPushedCounter {S}.
Arguments UploadsAbortedCounter {S}.

(** [strconv.FormatUint(n, 10)] *)
Definition FormatUint (n : Z) : string :=
  NilZero.string_of_uint (N.to_uint (Z.to_N n)).

Section Replicate.
Context {S : Type} `{!StorageDriver S}.

(** [p.timeNow()] and [p.generateStorageID()] *)
Variable timeNow : Z.
Variable generateStorageID : string.

(** The client for the upstream registry is not embedded:
    [getRepoClientForUpstream] and [RepoClient.DownloadBlob], which answers
    with the blob's bytes and their announced number. *)
Variable RepoClient : Type.
Variable getRepoClientForUpstream : ReducedAccount -> Repository -> result RepoClient.
Variable DownloadBlob : RepoClient -> string -> result (Reader * Z).

(** [Blob.SafeMediaType] is not embedded. *)
Variable SafeMediaType : Blob -> string.

Definition with_world (p : Processor S) (w : World S) : Processor S :=
  mkProcessor (pending_blobs p) (blobs p) w (BlobsPushedCounter p)
    (UploadsAbortedCounter p).

Definition with_driver (p : Processor S) (s : S) : Processor S :=
  with_world p (mkWorld s (calls (world p))).

Definition count_aborted (p : Processor S) : Processor S :=
  mkProcessor (pending_blobs p) (blobs p) (world p) (BlobsPushedCounter p)
    (Datatypes.S (UploadsAbortedCounter p)).

Definition count_pushed (p : Processor S) : Processor S :=
  mkProcessor (pending_blobs p) (blobs p) (world p)
    (Datatypes.S (BlobsPushedCounter p)) (UploadsAbortedCounter p).

(** [p.db.Insert(&pendingBlob)]: fails on a duplicate key. *)
Definition insert_pending_blob (p : Processor S) (row : PendingBlob)
  : result (Processor S) :=
  match pending_blobs p !! (pb_AccountName row, pb_Digest row) with
  | Some _ => Err "duplicate key value violates unique constraint"
  | None =>
      Ok (mkProcessor (<[(pb_AccountName row, pb_Digest row) := row]> (pending_blobs p))
            (blobs p) (world p) (BlobsPushedCounter p) (UploadsAbortedCounter p))
  end.

(** [SELECT COUNT( * ) FROM pending_blobs WHERE account_name = $1 AND digest = $2] *)
Definition count_pending_blobs (p : Processor S) (accountName : AccountName)
    (digest : string) : Z :=
  match pending_blobs p !! (accountName, digest) with
  | Some _ => 1
  | None => 0
  end.

(** [DELETE FROM pending_blobs WHERE account_name = $1 AND digest = $2] *)
Definition delete_pending_blobs (p : Processor S) (accountName : AccountName)
    (digest : string) : Processor S * option string :=
  (mkProcessor (delete (accountName, digest) (pending_blobs p))
     (blobs p) (world p) (BlobsPushedCounter p) (UploadsAbortedCounter p),
   None).

(** [p.db.Update(&blob)]: by primary key. *)
Definition update_blob (p : Processor S) (blob : Blob) : Processor S * option string :=
  (mkProcessor (pending_blobs p)
     (match blobs p !! blob_ID blob with
      | Some _ => <[blob_ID blob := blob]> (blobs p)
      | None => blobs p
      end)
     (world p) (BlobsPushedCounter p) (UploadsAbortedCounter p),
   None).

(** [uploadBlobToLocal].  [None] only if the chunking loop does not return
    (see [uploadBlobToLocal_returns]).  The errors of the clean-up calls are
    logged, not returned. *)
Definition uploadBlobToLocal (p : Processor S) (blob : Blob) (account : ReducedAccount)
    (blobReader : Reader) (blobLengthBytes : Z)
  : option (Processor S * option string) :=
  let upload := mkUpload generateStorageID 0 0 in
  match AppendToBlob account upload blobReader blobLengthBytes (world p) with
  | None => None
  | Some ((upload, w), Some err) =>
      let p := with_world p w in
      let '(s, abortErr) :=
        sd_AbortBlobUpload account (StorageID upload) (NumChunks upload) (sd w) in
      Some (count_aborted (with_driver p s), Some err)
  | Some ((upload, w), None) =>
      let p := with_world p w in
      let '(s, err) :=
        sd_FinalizeBlob account (StorageID upload) (NumChunks upload) (sd w) in
      let p := with_driver p s in
      match err with
      | Some err =>
          let '(s, abortErr) :=
            sd_AbortBlobUpload account (StorageID upload) (NumChunks upload) s in
          Some (count_aborted (with_driver p s), Some err)
      | None =>
          (* write blob metadata to DB *)
          let blob :=
            mkBlob (blob_ID blob) (blob_AccountName blob) (blob_Digest blob)
              (blob_SizeBytes blob) (StorageID upload) (blob_MediaType blob)
              timeNow (timeNow + BlobValidationInterval) (blob_CanBeDeletedAt blob) in
          let '(p, err) := update_blob p blob in
          match err with
          | Some err =>
              (* the deferred clean-up of the blob in the storage *)
              let '(s, deleteErr) := sd_DeleteBlob account (StorageID upload) (sd (world p)) in
              Some (count_aborted (with_driver p s), Some err)
          | None => Some (p, None)
          end
      end
  end.

(** What [w.Header().Set(..)] and [w.WriteHeader(http.StatusOK)] leave in
    the response. *)
Definition write_blob_headers (rw : ResponseWriter) (blob : Blob) (blobLengthBytes : Z)
  : ResponseWriter :=
  mkResponseWriter
    (<["Content-Length" := FormatUint blobLengthBytes]>
       (<["Docker-Content-Digest" := blob_Digest blob]>
          (<["Content-Type" := SafeMediaType blob]> (rw_Header rw))))
    (Some 200) (rw_Body rw).

(** [io.TeeReader(blobReader, w)]: what the storage driver reads is written
    to the response, too. *)
Definition tee (rw : ResponseWriter) (bytes : list Byte.byte) : ResponseWriter :=
  mkResponseWriter (rw_Header rw) (rw_Status rw) (rw_Body rw ++ bytes).

Definition bytes_appended (before after : World S) : list Byte.byte :=
  concat (map call_chunk (drop (length (calls before)) (calls after))).

(** The body of [ReplicateBlob] after the pending blob has been inserted. *)
Definition replicate (p : Processor S) (blob : Blob) (account : ReducedAccount)
    (repo : Repository) (w : option ResponseWriter)
  : option (Processor S * option ResponseWriter * (bool * option string)) :=
  (* query upstream for the blob *)
  match getRepoClientForUpstream account repo with
  | Err err => Some (p, w, (false, Some err))
  | Ok client =>
      match DownloadBlob client (blob_Digest blob) with
      | Err err => Some (p, w, (false, Some err))
      | Ok (blobReader, blobLengthBytes) =>
          (* stream into w if requested *)
          let w := option_map (fun rw => write_blob_headers rw blob blobLengthBytes) w in
          match uploadBlobToLocal p blob account blobReader blobLengthBytes with
          | None => None
          | Some (p', err) =>
              let w := option_map (fun rw => tee rw (bytes_appended (world p) (world p'))) w in
              match err with
              | Some err => Some (p', w, (true, Some err))
              | None => Some (count_pushed p', w, (true, None))
              end
          end
      end
  end.

(** [ReplicateBlob].  The result is [(responseWasWritten, returnErr)]; the
    deferred DELETE runs on every way out of [replicate], and its error
    becomes the result only if there is no other. *)
Definition ReplicateBlob (p : Processor S) (blob : Blob) (account : ReducedAccount)
    (repo : Repository) (w : option ResponseWriter)
  : option (Processor S * option ResponseWriter * (bool * option string)) :=
  (* mark this blob as currently being replicated *)
  let pendingBlob :=
    mkPendingBlob (ra_Name account) (blob_Digest blob) PendingBecauseOfReplication timeNow in
  match insert_pending_blob p pendingBlob with
  | Err _ =>
      (* did we get a duplicate-key error? *)
      let count := count_pending_blobs p (ra_Name account) (blob_Digest blob) in
      if 0 <? count then Some (p, w, (false, Some ErrConcurrentReplication))
      else Some (p, w, (false, None))
  | Ok p =>
      match replicate p blob account repo w with
      | None => None
      | Some (p, w, (responseWasWritten, returnErr)) =>
          let '(p, err) := delete_pending_blobs p (ra_Name account) (blob_Digest blob) in
          let returnErr := match returnErr with None => err | Some _ => returnErr end in
          Some (p, w, (responseWasWritten, returnErr))
      end
  end.

End Replicate.

End Replication.

(** ** internal/processor: the workers of ReplicateBlob *)

Module Workers.
Import Models Storage Chunking Replication.

(** Several requests run [ReplicateBlob] at the same time, on one database
    and one storage.  A worker is one call of [ReplicateBlob]: it sends its
    statements to the database one after the other, and the statements of
    the other workers come in between.  In the sources only [ReplicateBlob]
    reads or writes the pending_blobs table. *)

(** The arguments of one call. *)
Record Job : Type := mkJob {
  job_blob : Blob;
  job_account : ReducedAccount;
  job_repo : Repository;
  job_w : option ResponseWriter
}.

(** The key of the pending_blobs row of a call. *)
Definition job_key (r : Job) : AccountName * string :=
  (ra_Name (job_account r), blob_Digest (job_blob r)).

(** Where a worker stands in [ReplicateBlob]: before its INSERT; after a
    failed INSERT and before its SELECT COUNT; after a successful INSERT;
    after the body, with the response and the result so far, and before the
    deferred DELETE; or returned. *)
Inductive Stage : Type :=
| BeforeInsert
| BeforeCount
| Inserted
| BeforeDelete (w : option ResponseWriter) (out : bool * option string)
| Returned (w : option ResponseWriter) (out : bool * option string).


(** The workers and what they share. *)
Record System (S : Type) : Type := mkSystem {
  shared : Processor S;
  workers : list (Job * Stage)
}.
Arguments mkSystem {S}.
Arguments shared {S}.
Arguments workers {S}.

Section Steps.
Context {S : Type} `{!StorageDriver S}.
Variable timeNow : Z.
Variable generateStorageID : string.
Variable RepoClient : Type.
Variable getRepoClientForUpstream : ReducedAccount -> Repository -> result RepoClient.
Variable DownloadBlob : RepoClient -> string -> result (Reader * Z).
Variable SafeMediaType : Blob -> string.

(** The next step of a worker: the piece of [ReplicateBlob] between two of
    its statements on pending_blobs.  The body between the INSERT and the
    deferred DELETE does not touch pending_blobs and is taken as one step.
    [None]: the worker has returned, or the body does not return. *)
Definition step_worker (r : Job) (k : Stage) (p : Processor S)
  : option (Processor S * Stage) :=
  match k with
  | BeforeInsert =>
      (* mark this blob as currently being replicated *)
      let pendingBlob :=
        mkPendingBlob (ra_Name (job_account r)) (blob_Digest (job_blob r))
          PendingBecauseOfReplication timeNow in
      match insert_pending_blob p pendingBlob with
      | Err _ => Some (p, BeforeCount)
      | Ok p => Some (p, Inserted)
      end
  | BeforeCount =>
      (* did we get a duplicate-key error? *)
      let count :=
        count_pending_blobs p (ra_Name (job_account r)) (blob_Digest (job_blob r)) in
      if 0 <? count then Some (p, Returned (job_w r) (false, Some ErrConcurrentReplication))
      else Some (p, Returned (job_w r) (false, None))
  | Inserted =>
      match replicate timeNow generateStorageID RepoClient getRepoClientForUpstream
              DownloadBlob SafeMediaType p (job_blob r) (job_account r) (job_repo r)
              (job_w r) with
      | None => None
      | Some (p, w, out) => Some (p, BeforeDelete w out)
      end
  | BeforeDelete w (responseWasWritten, returnErr) =>
      let '(p, err) :=
        delete_pending_blobs p (ra_Name (job_account r)) (blob_Digest (job_blob r)) in
      let returnErr := match returnErr with None => err | Some _ => returnErr end in
      Some (p, Returned w (responseWasWritten, returnErr))
  | Returned _ _ => None
  end.


(** Worker [i] takes its next step. *)
Definition step_system (i : nat) (s : System S) : option (System S) :=
  match workers s !! i with
  | None => None
  | Some (r, k) =>
      match step_worker r k (shared s) with
      | None => None
      | Some (p', k') => Some (mkSystem p' (<[i := (r, k')]> (workers s)))
      end
  end.

(** A schedule names the worker of each step. *)
Fixpoint run_schedule (schedule : list nat) (s : System S) : option (System S) :=
  match schedule with
  | [] => Some s
  | i :: rest =>
      match step_system i s with
      | None => None
      | Some s' => run_schedule rest s'
      end
  end.



End Steps.

End Workers.

(** ** internal/tasks: deleting the accounts that are marked for deletion *)

Module AccountDeletion.
Import Models.

(** The rows of the manifests and manifest_manifest_refs tables, by their
    keys. *)
Record ManifestRow : Type := mkManifestRow {
  m_RepoID : Z;
  m_Digest : string
}.

Record ManifestRef : Type := mkManifestRef {
  ref_RepoID : Z;
  ref_ParentDigest : string;
  ref_ChildDigest : string
}.

(** The tables that the deletion of an account reads and writes.  The
    database answers every statement. *)
Record DB : Type := mkDB {
  accounts : gmap AccountName Account;
  repos : list Repository;
  manifests : list ManifestRow;
  manifest_manifest_refs : list ManifestRef;
  blobs : list Blob
}.

(** The janitor: the database, the storage driver and the federation
    driver. *)
Record Janitor (SD FD : Type) : Type := mkJanitor {
  db : DB;
  sd : SD;
  fd : FD
}.
Arguments mkJanitor {SD FD}.
Arguments db {SD FD}.
Arguments sd {SD FD}.
Arguments fd {SD FD}.

Definition ErrNoRows : string := "sql: no rows in result set".

Definition is_manifest (repoID : Z) (digest : string) (m : ManifestRow) : bool :=
  (m_RepoID m =? repoID) && (m_Digest m =? digest)%string.

Definition has_parent (d : DB) (repoID : Z) (digest : string) : bool :=
  existsb (fun ref => (ref_RepoID ref =? repoID) && (ref_ChildDigest ref =? digest)%string)
    (manifest_manifest_refs d).

(** The rows of [manifests m JOIN repos r ON m.repo_id = r.id JOIN accounts a
    ON a.name = r.account_name WHERE a.name = $1], filtered by [keep]. *)
Definition account_manifests (d : DB) (accountName : AccountName)
    (keep : Repository -> ManifestRow -> bool) : list (Repository * ManifestRow) :=
  flat_map (fun m =>
    flat_map (fun r =>
      if (m_RepoID m =? repo_ID r)
         && (repo_AccountName r =? accountName)%string
         && bool_decide (is_Some (accounts d !! accountName))
         && keep r m
      then [(r, m)] else [])
      (repos d))
    (manifests d).

(** [deleteAccountFindManifestsQuery]: the manifests of the account without
    a parent, as (repository name, digest). *)
Definition deleteAccountFindManifestsQuery (d : DB) (accountName : AccountName)
  : list (string * string) :=
  map (fun '(r, m) => (repo_Name r, m_Digest m))
    (account_manifests d accountName
       (fun r m => negb (has_parent d (repo_ID r) (m_Digest m)))).


(** [deleteAccountCountManifestsQuery] *)
Definition deleteAccountCountManifestsQuery (d : DB) (accountName : AccountName) : Z :=
  Z.of_nat (length (account_manifests d accountName (fun _ _ => true))).

(** [deleteAccountReposQuery]; the blob mounts go with the repos. *)
Definition deleteAccountReposQuery (d : DB) (accountName : AccountName) : DB :=
  mkDB (accounts d)
    (List.filter (fun r => negb (repo_AccountName r =? accountName)%string) (repos d))
    (manifests d) (manifest_manifest_refs d) (blobs d).

(** [deleteAccountCountBlobsQuery] *)
Definition deleteAccountCountBlobsQuery (d : DB) (accountName : AccountName) : Z :=
  Z.of_nat (length (List.filter (fun b => (blob_AccountName b =? accountName)%string)
                      (blobs d))).

Definition set_CanBeDeletedAt (b : Blob) (t : Z) : Blob :=
  mkBlob (blob_ID b) (blob_AccountName b) (blob_Digest b) (blob_SizeBytes b)
    (blob_StorageID b) (blob_MediaType b) (blob_PushedAt b) (blob_NextValidationAt b)
    (Some t).

(** [deleteAccountMarkAllBlobsForDeletionQuery] *)
Definition deleteAccountMarkAllBlobsForDeletionQuery (d : DB)
    (accountName : AccountName) (t : Z) : DB :=
  mkDB (accounts d) (repos d) (manifests d) (manifest_manifest_refs d)
    (map (fun b => if (blob_AccountName b =? accountName)%string
                   then set_CanBeDeletedAt b t else b)
         (blobs d)).

Definition set_NextBlobSweepAt (a : Account) (t : Z) : Account :=
  mkAccount (Name a) (AuthTenantID a) (UpstreamPeerHostName a) (ExternalPeerURL a)
    (AccountPlatformFilter a) (RequiredLabels a) (IsDeleting a) (GCPoliciesJSON a)
    (RBACPoliciesJSON a) (SecurityScanPoliciesJSON a) (TagPoliciesJSON a)
    (Some t) (NextDeletionAttemptAt a).

Definition set_NextDeletionAttemptAt (a : Account) (t : Z) : Account :=
  mkAccount (Name a) (AuthTenantID a) (UpstreamPeerHostName a) (ExternalPeerURL a)
    (AccountPlatformFilter a) (RequiredLabels a) (IsDeleting a) (GCPoliciesJSON a)
    (RBACPoliciesJSON a) (SecurityScanPoliciesJSON a) (TagPoliciesJSON a)
    (NextBlobSweepAt a) (Some t).

Definition update_account (d : DB) (accountName : AccountName)
    (f : Account -> Account) : DB :=
  mkDB (alter f accountName (accounts d)) (repos d) (manifests d)
    (manifest_manifest_refs d) (blobs d).

(** [deleteAccountScheduleBlobSweepQuery] *)
Definition deleteAccountScheduleBlobSweepQuery (d : DB) (accountName : AccountName)
    (t : Z) : DB :=
  update_account d accountName (fun a => set_NextBlobSweepAt a t).

(** [UPDATE accounts SET next_deletion_attempt_at = $1 WHERE name = $2] *)
Definition set_next_deletion_attempt (d : DB) (accountName : AccountName) (t : Z) : DB :=
  update_account d accountName (fun a => set_NextDeletionAttemptAt a t).

(** [tx.Delete(accountModel)] *)
Definition delete_account (d : DB) (accountName : AccountName) : DB :=
  mkDB (delete accountName (accounts d)) (repos d) (manifests d)
    (manifest_manifest_refs d) (blobs d).

(** [accountDeletionSelectQuery]: the names of the accounts that are marked
    for deletion and due, by [next_deletion_attempt_at] and then by name.  A
    NULL clock compares as unknown, which leaves the row out.  (Names are
    compared byte by byte.) *)
Definition due_for_deletion (now : Z) (a : Account) : bool :=
  IsDeleting a &&
  match NextDeletionAttemptAt a with
  | Some t => t <? now
  | None => false
  end.

Definition attempt_order (a b : Account) : bool :=
  match NextDeletionAttemptAt a, NextDeletionAttemptAt b with
  | Some ta, Some tb => (ta <? tb) || ((ta =? tb) && String.leb (Name a) (Name b))
  | _, _ => true
  end.

(** The clock of a due account. *)
Definition attempt_at (a : Account) : Z := default 0 (NextDeletionAttemptAt a).

Fixpoint insert_by_attempt (a : Account) (l : list Account) : list Account :=
  match l with
  | [] => [a]
  | b :: rest => if attempt_order a b then a :: l else b :: insert_by_attempt a rest
  end.

Definition accountDeletionSelectQuery (accounts : gmap AccountName Account) (now : Z)
  : list AccountName :=
  map Name
    (fold_right insert_by_attempt []
       (List.filter (due_for_deletion now) (map snd (map_to_list accounts)))).

(** [discoverAccountForDeletion]: [SelectOne] into a string takes the first
    row, and reports [sql.ErrNoRows] when there is none. *)
Definition discoverAccountForDeletion (accounts : gmap AccountName Account) (timeNow : Z)
  : result AccountName :=
  match accountDeletionSelectQuery accounts timeNow with
  | accountName :: _ => Ok accountName
  | [] => Err ErrNoRows
  end.

(** Modelled from the spec: [keppel.FindRepository] is missing from the
    sources; it finds the repository of an account by its name, and reports
    [sql.ErrNoRows] when there is none. *)
Definition FindRepository (d : DB) (repoName : string) (accountName : AccountName)
  : result Repository :=
  match List.find (fun r => (repo_Name r =? repoName)%string
                            && (repo_AccountName r =? accountName)%string) (repos d) with
  | Some r => Ok r
  | None => Err ErrNoRows
  end.


(** The root manifests of an account: those without a parent. *)
Definition root_manifests (d : DB) (accountName : AccountName)
  : list (Repository * ManifestRow) :=
  account_manifests d accountName
    (fun r m => negb (has_parent d (repo_ID r) (m_Digest m))).

Section Tasks.
Context {SD FD : Type}.

(** [j.timeNow()]; the clock does not move during one run. *)
Variable timeNow : Z.

(** [digest.Parse], from the go-digest library. *)
Variable digest_Parse : string -> result string.

(** The drivers, as the janitor calls them: [StorageDriver.DeleteManifest],
    [StorageDriver.CleanupAccount] and [FederationDriver.ForfeitAccountName]. *)
Variable sd_DeleteManifest : ReducedAccount -> string -> string -> SD -> SD * option string.
Variable sd_CleanupAccount : ReducedAccount -> SD -> SD * option string.
Variable fd_ForfeitAccountName : Account -> FD -> FD * option string.

(** [keppel.FindAccount], as a parameter: the account found, or
    none, or an error. *)
Variable FindAccount : gmap AccountName Account -> AccountName -> result (option Account).

Definition with_db (j : Janitor SD FD) (d : DB) : Janitor SD FD :=
  mkJanitor d (sd j) (fd j).

(** Modelled from the spec: [Processor.DeleteManifest] is missing from the
    sources.  Section 4.3: "verify it is not referenced by any other manifest,
    unlink tags, delete manifest rows; storage manifest object is deleted
    after commit".  The rows of a manifest are its row in manifests and the
    references that start at it. *)
Definition DeleteManifest (j : Janitor SD FD) (account : ReducedAccount)
    (repo : Repository) (digest : string) : Janitor SD FD * option string :=
  if has_parent (db j) (repo_ID repo) digest
  then (j, Some "cannot delete a manifest which is referenced by other manifests")
  else if negb (existsb (is_manifest (repo_ID repo) digest) (manifests (db j)))
  then (j, Some "no such manifest")
  else
    let d :=
      mkDB (accounts (db j)) (repos (db j))
        (List.filter (fun m => negb (is_manifest (repo_ID repo) digest m)) (manifests (db j)))
        (List.filter (fun ref => negb ((ref_RepoID ref =? repo_ID repo)
                                       && (ref_ParentDigest ref =? digest)%string))
           (manifest_manifest_refs (db j)))
        (blobs (db j)) in
    let '(s, err) := sd_DeleteManifest account (repo_Name repo) digest (sd j) in
    (mkJanitor d s (fd j), err).

(** The callback that [sqlext.ForeachRow] runs on each row of
    [deleteAccountFindManifestsQuery], and the loop over the rows; the count
    is [deletedManifestCount]. *)
Definition delete_manifest_row (j : Janitor SD FD) (accountModel : Account)
    (row : string * string) : Janitor SD FD * option string :=
  let '(repoName, digestStr) := row in
  match digest_Parse digestStr with
  | Err err => (j, Some ("while deleting manifest: could not parse digest: " ++ err)%string)
  | Ok parsedDigest =>
      match FindRepository (db j) repoName (Name accountModel) with
      | Err err =>
          (j, Some ("while deleting manifest: could not find repository in DB: " ++ err)%string)
      | Ok repo =>
          match DeleteManifest j (Accounts.Reduced accountModel) repo parsedDigest with
          | (j', Some err) => (j', Some ("while deleting manifest: " ++ err)%string)
          | (j', None) => (j', None)
          end
      end
  end.

Fixpoint foreach_manifest_row (j : Janitor SD FD) (accountModel : Account)
    (rows : list (string * string)) (deletedManifestCount : nat)
  : Janitor SD FD * nat * option string :=
  match rows with
  | [] => (j, deletedManifestCount, None)
  | row :: rest =>
      match delete_manifest_row j accountModel row with
      | (j', Some err) => (j', deletedManifestCount, Some err)
      | (j', None) =>
          foreach_manifest_row j' accountModel rest (Datatypes.S deletedManifestCount)
      end
  end.

(** How one activation of [deleteMarkedAccount] ends: it returns, it calls
    itself again, or it panics. *)
Inductive outcome : Type :=
| Return (j : Janitor SD FD) (err : option string)
| Recurse (j : Janitor SD FD)
| Panic (j : Janitor SD FD) (msg : string).

Definition nil_dereference : string :=
  "runtime error: invalid memory address or nil pointer dereference".

(** The body of [deleteMarkedAccount], up to the point where it returns or
    calls itself. *)
Definition deleteMarkedAccount_body (j : Janitor SD FD) (accountName : AccountName)
  : outcome :=
  match FindAccount (accounts (db j)) accountName with
  | Err err =>
      if (err =? ErrNoRows)%string
      then Return j None       (* assume the account got already deleted *)
      else Return j (Some err)
  | Ok None => Panic j nil_dereference     (* accountModel.Name *)
  | Ok (Some accountModel) =>
      (* can only delete account when all manifests from it are deleted *)
      let rows := deleteAccountFindManifestsQuery (db j) (Name accountModel) in
      match foreach_manifest_row j accountModel rows 0 with
      | (j, _, Some err) => Return j (Some err)
      | (j, deletedManifestCount, None) =>
          let manifestCount := deleteAccountCountManifestsQuery (db j) (Name accountModel) in
          if 0 <? manifestCount then
            if (0 <? deletedManifestCount)%nat then Recurse j
            else Return j (Some "cannot make progress on deleting account: manifests remain, but none are ready to delete")
          else
            (* delete all repos (and therefore, all blob mounts) *)
            let j := with_db j (deleteAccountReposQuery (db j) (Name accountModel)) in
            (* can only delete account when all blobs have been deleted *)
            let blobCount := deleteAccountCountBlobsQuery (db j) (Name accountModel) in
            if 0 <? blobCount then
              (* make sure that blob sweep runs immediately *)
              let j := with_db j (deleteAccountMarkAllBlobsForDeletionQuery (db j)
                                    (Name accountModel) timeNow) in
              let j := with_db j (deleteAccountScheduleBlobSweepQuery (db j)
                                    (Name accountModel) timeNow) in
              let j := with_db j (set_next_deletion_attempt (db j) (Name accountModel)
                                    (timeNow + 60)) in
              Return j None
            else
              (* start deleting the account in a transaction *)
              let tx := delete_account (db j) (Name accountModel) in
              let '(s, err) := sd_CleanupAccount (Accounts.Reduced accountModel) (sd j) in
              match err with
              | Some err =>
                  Return (mkJanitor (db j) s (fd j))
                    (Some ("while cleaning up storage for account: " ++ err)%string)
              | None =>
                  let '(f, err) := fd_ForfeitAccountName accountModel (fd j) in
                  match err with
                  | Some err =>
                      Return (mkJanitor (db j) s f)
                        (Some ("while cleaning up name claim for account: " ++ err)%string)
                  | None => Return (mkJanitor tx s f) None
                  end
              end
  end
  end.

(** [deleteMarkedAccount]: the body, again and again while it calls itself.
    [fuel] bounds the depth of the recursion; [None] means that the bound was
    too small. *)
Fixpoint deleteMarkedAccount (fuel : nat) (j : Janitor SD FD) (accountName : AccountName)
  : option outcome :=
  match deleteMarkedAccount_body j accountName with
  | Recurse j' =>
      match fuel with
      | O => None
      | Datatypes.S fuel' => deleteMarkedAccount fuel' j' accountName
      end
  | other => Some other
  end.

End Tasks.

End AccountDeletion.

(** ** internal/api/registry: the catalog endpoint *)

Module Catalog.
Import Models.

(** [const maxLimit = 100] *)
Definition maxLimit : Z := 100.

(** [strconv.ParseUint(s, 10, 64)]: decimal digits only, no sign, and a
    value below 2^64.  (The error of the library also quotes the input; only
    its last part is kept here.) *)
Fixpoint digits_value (s : string) (acc : Z) : option Z :=
  match s with
  | EmptyString => Some acc
  | String c rest =>
      if Accounts.is_digit c
      then digits_value rest (10 * acc + (Z.of_nat (nat_of_ascii c) - 48))
      else None
  end.

Definition ParseUint (s : string) : result Z :=
  match s with
  | EmptyString => Err "invalid syntax"
  | _ =>
      match digits_value s 0 with
      | None => Err "invalid syntax"
      | Some v => if v <? 2^64 then Ok v else Err "value out of range"
      end
  end.

(** [strings.SplitN(s, "/", 2)]: cut at the first slash, if there is one. *)
Fixpoint cut_slash (s : string) : option (string * string) :=
  match s with
  | EmptyString => None
  | String c rest =>
      if Ascii.eqb c "/"%char then Some (EmptyString, rest)
      else match cut_slash rest with
           | Some (head, tail) => Some (String c head, tail)
           | None => None
           end
  end.

(** What the handler answers once the request is authorized: a 400 with a
    message, or a 200 with the repository names and, on a partial result,
    the [n] and [last] of the [Link] header. *)
Inductive CatalogResponse : Type :=
| BadRequest (msg : string)
| Page (repositories : list string) (link : option (Z * string)).

(** [getCatalogForAccount]: the repositories of an account, with the account
    name in front unless the API is domain-remapped.  The database answers
    every query; the rows come in the order of the table here, not in the
    order of the database's collation ([ORDER BY name]): the handler sorts
    the names again. *)
Definition getCatalogForAccount (repos : list Repository) (accountName : AccountName)
    (includeAccountName : bool) : list string :=
  map (fun r => if includeAccountName then (accountName ++ "/" ++ repo_Name r)%string
                else repo_Name r)
      (List.filter (fun r => (repo_AccountName r =? accountName)%string) repos).

(** The loop over the accessible accounts. *)
Fixpoint collect (repos : list Repository) (includeAccountName : bool) (marker : string)
    (limit : Z) (idx : nat) (accountNames : list AccountName)
    (allNames : list string) (partialResult : bool) : list string * bool :=
  match accountNames with
  | [] => (allNames, partialResult)
  | accountName :: rest =>
      let names := getCatalogForAccount repos accountName includeAccountName in
      (* when paginating, we might start in the middle of the first account *)
      let names :=
        if (idx =? 0)%nat && negb (marker =? "")%string
        then List.filter (fun name => String.ltb marker name) names
        else names in
      let names := FederationSwift.sort_strings names in
      let allNames := allNames ++ names in
      if limit <? Z.of_nat (length allNames)
      then collect repos includeAccountName marker limit (S idx) rest
             (take (Z.to_nat limit) allNames) true
      else collect repos includeAccountName marker limit (S idx) rest
             allNames partialResult
  end.

Section Handler.

(** [authz.ScopeSet.AccountsWithCatalogAccess] of the authorization. *)
Variable AccountsWithCatalogAccess : AccountName -> list AccountName.

(** [handleGetCatalog], after [Authorize] has let the request through;
    [audienceAccountName] is [authz.Audience.AccountName].  (The messages
    have the parameter names in double quotes in the source.) *)
Definition handleGetCatalog (repos : list Repository) (query : Anycast.Values)
    (audienceAccountName : AccountName) : CatalogResponse :=
  (* parse query: limit (parameter n) *)
  let limitStr := Anycast.Values_Get query "n" in
  match (if negb (limitStr =? "")%string then
           match ParseUint limitStr with
           | Err e => inr ("invalid value for n: " ++ e)%string
           | Ok limit =>
               if limit =? 0 then inr "invalid value for n: must not be 0"
               else inl limit
           end
         else inl maxLimit) with
  | inr msg => BadRequest msg
  | inl limit =>
      let limit := if maxLimit <? limit then maxLimit else limit in
      let includeAccountName := (audienceAccountName =? "")%string in
      (* parse query: marker (parameter last) *)
      let marker := Anycast.Values_Get query "last" in
      match (if negb (marker =? "")%string then
               if includeAccountName then
                 match cut_slash marker with
                 | Some (head, _) => inl head
                 | None => inr "invalid value for last: must contain a slash"
                 end
               else inl audienceAccountName
             else inl ""%string) with
      | inr msg => BadRequest msg
      | inl markerAccountName =>
          (* find accessible accounts *)
          let accountNames :=
            FederationSwift.sort_strings (AccountsWithCatalogAccess markerAccountName) in
          let '(allNames, partialResult) :=
            collect repos includeAccountName marker limit 0 accountNames [] false in
          Page allNames
            (if partialResult then Some (limit, List.last allNames ""%string) else None)
      end
  end.

End Handler.

End Catalog.

(** ** Concrete uploads on the in-memory driver, for the examples *)

Module ChunkingFixtures.
Import Models Storage Chunking.

Definition example_account : ReducedAccount := mkReducedAccount "test1" "test1authtenant".
Definition example_stream : Reader := [Byte.x01; Byte.x02; Byte.x03].
Definition fresh_upload : Upload := mkUpload "6b86b273" 0 0.
Definition fresh_world : World Trivial.StorageDriver := mkWorld Trivial.Init [].

(** The upload of a client that sent two one-byte PATCH requests already. *)
Definition two_patches : option ((Upload * World Trivial.StorageDriver) * option string) :=
  match AppendToBlob example_account fresh_upload [Byte.x01] 1 fresh_world with
  | Some ((upload1, w1), None) =>
      AppendToBlob example_account upload1 [Byte.x02] 1 (mkWorld (sd w1) [])
  | other => other
  end.

End ChunkingFixtures.

(** ** Two peers and one account name, for the examples *)

Module FederationFixtures.
Import Models FederationDriver FederationSwift.

Definition peerA : federationDriverSwift := mkDriver "keppel-a.example.org".
Definition peerB : federationDriverSwift := mkDriver "keppel-b.example.org".

Definition account_row (name upstream : string) : Account :=
  mkAccount name "tenant1" upstream "" [] "" false "[]" "" "[]" "[]" None None.

Definition primary_library : Account := account_row "library" "".
Definition replica_library : Account := account_row "library" "keppel-a.example.org".

(** Peer A claims [library] as a primary and issues a sublease token. *)
Definition container_with_token : gmap string accountFile :=
  let c1 := fst (ClaimAccountName peerA ∅ primary_library "") in
  fst (IssueSubleaseTokenSecret peerA c1 primary_library "c2VjcmV0IHRva2Vu").

End FederationFixtures.

(** ** A fresh deployment, for the examples on accounts *)

Module AccountsFixtures.
Import Models FederationDriver Accounts.

(** An environment without policies: every policy list is empty. *)
Definition no_policies : Policies :=
  mkPolicies
    Empty_set (fun _ => None) (fun _ => "[]")
    Empty_set (fun _ => None) (fun _ => "[]")
    Empty_set (fun policy _ => Ok policy) (fun _ => "[]")
    Empty_set (fun _ account => ROk account)
    Empty_set (fun _ => NoReplicationStrategy) (fun _ account => Applied account)
    (fun _ => None)
    (fun _ _ => Err "no such peer").

(** Peer A with an empty database, an empty Swift container behind its
    federation driver, and the in-memory storage driver. *)
Definition fresh_processor : Processor (gmap string FederationSwift.accountFile) Trivial.StorageDriver :=
  mkProcessor ∅ ∅ ∅ Trivial.Init [].

Definition create (account : APIAccount no_policies)
  : Processor (gmap string FederationSwift.accountFile) Trivial.StorageDriver
    * rresult Account :=
  CreateOrUpdateAccount
    (FederationSwift.ClaimAccountName FederationFixtures.peerA)
    Trivial.CanSetupAccount
    fresh_processor account (Some "alice")
    (fun _ => Err "no sublease token") (fun account => ROk account).

Definition api_account (name : string) : APIAccount no_policies :=
  mkAPIAccount name "tenant1" "" [] [] [] None None None.

End AccountsFixtures.

(** ** A replica and its upstream, for the examples on replication *)

Module ReplicationFixtures.
Import Models Storage Chunking Replication.

Definition replica_account : ReducedAccount := mkReducedAccount "library" "tenant1".
Definition alpine : Repository := mkRepository 1 "library" "alpine".

(** The unbacked config blob of the replicated image. *)
Definition config_blob : Blob :=
  mkBlob 1 "library"
    "sha256:712dfd307e9f735a037e1391f16c8747e7fb0d1318851e32591b51a6bc600c2d"
    3 "" "application/vnd.docker.container.image.v1+json" 0 0 None.

Definition idle : Processor Trivial.StorageDriver :=
  mkProcessor ∅ {[ 1 := config_blob ]} (mkWorld Trivial.Init []) 0%nat 0%nat.

(** Another worker is replicating the same blob. *)
Definition busy : Processor Trivial.StorageDriver :=
  mkProcessor
    {[ ("library", blob_Digest config_blob)
         := mkPendingBlob "library" (blob_Digest config_blob) PendingBecauseOfReplication 10 ]}
    {[ 1 := config_blob ]} (mkWorld Trivial.Init []) 0%nat 0%nat.

(** An upstream that serves three bytes for every blob. *)
Definition upstream_client (account : ReducedAccount) (repo : Repository) : result unit :=
  Ok tt.
Definition upstream_download (client : unit) (digest : string) : result (Reader * Z) :=
  Ok ([Byte.x7b; Byte.x7d; Byte.x0a], 3).

Definition empty_response : ResponseWriter := mkResponseWriter ∅ None [].

Definition replicate_on (p : Processor Trivial.StorageDriver)
  : option (Processor Trivial.StorageDriver * option ResponseWriter * (bool * option string)) :=
  ReplicateBlob 3600 "6b86b273" unit upstream_client upstream_download blob_MediaType
    p config_blob replica_account alpine (Some empty_response).

End ReplicationFixtures.

(** ** Two requests for one blob, for the examples on replication *)

Module WorkersFixtures.
Import Models Storage Chunking Replication Workers ReplicationFixtures.

(** A pull of the config blob through the replica account. *)
Definition pull_config_blob : Job :=
  mkJob config_blob replica_account alpine (Some empty_response).

(** Two clients pull the blob at the same time. *)
Definition two_pulls : System Trivial.StorageDriver :=
  mkSystem idle [(pull_config_blob, BeforeInsert); (pull_config_blob, BeforeInsert)].

Definition run_pulls (schedule : list nat) (s : System Trivial.StorageDriver)
  : option (System Trivial.StorageDriver) :=
  run_schedule 3600 "6b86b273" unit upstream_client upstream_download blob_MediaType
    schedule s.

(** What is seen of the two pulls after a schedule: where a worker stands,
    which workers hold the lock, and whether the row of the blob is in the
    table. *)
Definition stage_after (schedule : list nat) (i : nat) : option Stage :=
  match run_pulls schedule two_pulls with
  | Some s => option_map snd (workers s !! i)
  | None => None
  end.


Definition row_pending_after (schedule : list nat) : option bool :=
  option_map
    (fun s => bool_decide (is_Some (pending_blobs (shared s) !! job_key pull_config_blob)))
    (run_pulls schedule two_pulls).

End WorkersFixtures.

(** ** An account with a manifest list and its two images, for the examples
       on account deletion *)

Module DeletionFixtures.
Import Models AccountDeletion.

Definition list_digest : string :=
  "sha256:b0ab79e83bdb2090b5b78f523b6d88272b1a68bdbae8b3705dad0a487ba65d17".
Definition amd64_digest : string :=
  "sha256:e255ca60e7cfef94adfcd95d78f1eb44404c4f5887cbf506dd5799489a42606c".
Definition arm_digest : string :=
  "sha256:207a16511ab28a6c3ff0ad6e483ba79fb59a9ebf3721c94e4b91b825bfecf223".

Definition test1 : Account :=
  mkAccount "test1" "test1authtenant" "" "" [] "" true "[]" "" "[]" "[]" None (Some 0).

Definition layer (id : Z) (digest : string) : Blob :=
  mkBlob id "test1" digest 1048919 "6b86b273"
    "application/vnd.docker.image.rootfs.diff.tar.gzip" 3600 608400 None.

Definition foo : Repository := mkRepository 1 "test1" "foo".

(** The account as marked for deletion. *)
Definition marked : Janitor unit unit :=
  mkJanitor
    (mkDB {[ "test1" := test1 ]} [foo]
       [mkManifestRow 1 arm_digest; mkManifestRow 1 list_digest; mkManifestRow 1 amd64_digest]
       [mkManifestRef 1 list_digest arm_digest; mkManifestRef 1 list_digest amd64_digest]
       [layer 1 "sha256:442f91fa9998460f28e8ff7023e5ddca679f7d2b51dc5498e8aba249678cc7f8";
        layer 4 "sha256:eb56d5d5d6a0b061ca49785b5a29e899e68208cdb87853f150e97ecb90d17d92"])
    tt tt.



(** The account row is gone already. *)
Definition already_deleted : Janitor unit unit :=
  mkJanitor (mkDB ∅ [] [] [] []) tt tt.

Definition clock : Z := 7200.
Definition parse_digest (s : string) : result string := Ok s.
Definition storage_delete_manifest (account : ReducedAccount) (repoName digest : string)
    (s : unit) : unit * option string := (s, None).
Definition storage_cleanup (account : ReducedAccount) (s : unit) : unit * option string :=
  (s, None).
Definition forfeit (account : Account) (f : unit) : unit * option string := (f, None).

(** Three images without a manifest list: all three are root manifests. *)
Definition three_images : Janitor unit unit :=
  mkJanitor
    (mkDB {[ "test1" := test1 ]} [foo]
       [mkManifestRow 1 amd64_digest; mkManifestRow 1 arm_digest; mkManifestRow 1 list_digest]
       [] (blobs (db marked)))
    tt tt.

(** A storage driver that cannot delete the arm image. *)
Definition storage_fails_on_arm (account : ReducedAccount) (repoName digest : string)
    (s : unit) : unit * option string :=
  (s, if (digest =? arm_digest)%string then Some "503 Service Unavailable" else None).

Definition run_body (j : Janitor unit unit) : outcome :=
  deleteMarkedAccount_body clock parse_digest storage_delete_manifest storage_cleanup
    forfeit Accounts.FindAccount j "test1".

Definition run (fuel : nat) (j : Janitor unit unit) : option outcome :=
  deleteMarkedAccount clock parse_digest storage_delete_manifest storage_cleanup
    forfeit Accounts.FindAccount fuel j "test1".

End DeletionFixtures.

(* ===================================================================== *)
(** * Part II: the properties                                             *)
(* ===================================================================== *)

(** ** Duration encoding *)

Section DurationFacts.
Import Duration.

Lemma wrap_int64_id (z : Z) : in_int64 z -> wrap_int64 z = z.
Proof.
  unfold in_int64, wrap_int64. intros H.
  rewrite Z.mod_small; lia.
Qed.

Lemma units_positive name len : In (name, len) units -> 0 < len.
Proof.
  unfold units. cbn [In]. intros H.
  repeat (destruct H as [H | H]; [inversion H; subst; vm_compute; reflexivity |]).
  contradiction.
Qed.

(** Each branch of the marshalling loop, spelled out on the table. *)
Lemma marshal_units_cases (d : Duration) (obj : durationObj) :
  marshal_units d units = Some obj ->
  largest_lossless_unit d obj.
Proof.
  unfold units, largest_lossless_unit. cbn [marshal_units].
  repeat match goal with
  | |- context [Z.rem d ?l =? 0] =>
      let E := fresh "E" in
      destruct (Z.rem d l =? 0) eqn:E;
      [ apply Z.eqb_eq in E | apply Z.eqb_neq in E ]
  end;
  intros [= <-]; cbn [Unit Value];
  match goal with
  | H : Z.rem _ ?l = 0 |- _ => exists l
  end;
  (split; [cbn; tauto |]); (split; [assumption |]); (split; [reflexivity |]);
  intros name' len' Hin Hlt; cbn [In] in Hin;
  repeat (destruct Hin as [Hin | Hin];
          [ injection Hin as <- <-;
            first [ assumption | exfalso; vm_compute in Hlt; discriminate ] | ]);
  contradiction.
Qed.

Lemma marshal_units_total (d : Duration) :
  Z.rem d Second = 0 -> exists obj, marshal_units d units = Some obj.
Proof.
  intros Hs. unfold units. cbn [marshal_units].
  repeat match goal with
  | |- context [Z.rem d ?l =? 0] =>
      destruct (Z.rem d l =? 0) eqn:?; [eexists; reflexivity |]
  end.
  apply Z.eqb_eq in Hs. congruence.
Qed.

Lemma marshal_units_none (d : Duration) :
  Z.rem d Second <> 0 -> marshal_units d units = None.
Proof.
  intros Hs.
  destruct (marshal_units d units) as [obj |] eqn:E; [| reflexivity].
  exfalso. apply marshal_units_cases in E.
  destruct E as (len & Hin & Hrem & _).
  assert (Hdiv : Z.rem len Second = 0).
  { unfold units in Hin. cbn [In] in Hin.
    repeat (destruct Hin as [Hin | Hin]; [injection Hin as _ <-; reflexivity |]).
    contradiction. }
  apply Hs.
  apply Z.rem_divide in Hrem; [| apply units_positive in Hin; lia].
  apply Z.rem_divide in Hdiv; [| discriminate].
  apply Z.rem_divide; [discriminate |].
  eapply Z.divide_trans; eassumption.
Qed.

(** The table has one entry per unit name, so reading a rendered document
    finds the unit that wrote it. *)
Lemma unmarshal_units_of_table (v : Z) (name : string) (len : Duration) :
  In (name, len) units ->
  unmarshal_units (mkDurationObj v name) units = Some (wrap_int64 (v * len)).
Proof.
  unfold units. cbn [In]. intros Hin.
  repeat (destruct Hin as [Hin | Hin]; [injection Hin as <- <-; reflexivity |]).
  contradiction.
Qed.

Lemma unmarshal_marshal_units (d : Duration) (obj : durationObj) :
  in_int64 d ->
  marshal_units d units = Some obj ->
  unmarshal_units obj units = Some d.
Proof.
  intros Hd Hm. apply marshal_units_cases in Hm.
  destruct Hm as (len & Hin & Hrem & Hval & _).
  destruct obj as [v name]. cbn [Unit Value] in *.
  rewrite (unmarshal_units_of_table v name len Hin). f_equal.
  assert (Hlen : len <> 0) by (apply units_positive in Hin; lia).
  pose proof (Z.quot_rem d len Hlen) as Hqr.
  rewrite Hrem, Z.add_0_r in Hqr.
  rewrite Hval, Z.mul_comm, <- Hqr.
  now apply wrap_int64_id.
Qed.

(** Durations that are not whole seconds have no JSON form. *)
Lemma MarshalJSON_rejects (d : Duration) :
  Z.rem d Second <> 0 ->
  MarshalJSON d = Err "duration is not a multiple of 1 second".
Proof.
  intros Hs. unfold MarshalJSON.
  destruct (d =? 0) eqn:E.
  - apply Z.eqb_eq in E. subst d. now destruct Hs.
  - now rewrite (marshal_units_none d Hs).
Qed.

(** C7 (as amended): for every Duration that is a whole number of seconds,
    [MarshalJSON] renders it with the largest unit among y/w/d/h/m/s that
    divides it evenly (zero is rendered as 0 seconds), and [UnmarshalJSON]
    of the rendered document gives the Duration back. *)
Theorem duration_json_roundtrip (d : Duration) :
  in_int64 d ->
  Z.rem d Second = 0 ->
  exists obj : durationObj,
    MarshalJSON d = Ok obj /\
    (d = 0 -> obj = mkDurationObj 0 "s") /\
    (d <> 0 -> largest_lossless_unit d obj) /\
    UnmarshalJSON obj = Ok d.
Proof.
  intros Hd Hs. unfold MarshalJSON.
  destruct (d =? 0) eqn:E.
  - apply Z.eqb_eq in E. subst d.
    exists (mkDurationObj 0 "s"). repeat split; try reflexivity.
    intros Hne. now destruct Hne.
  - apply Z.eqb_neq in E.
    destruct (marshal_units_total d Hs) as [obj Hobj].
    exists obj. rewrite Hobj. repeat split.
    + intros ->. now destruct E.
    + intros _. now apply marshal_units_cases.
    + unfold UnmarshalJSON. now rewrite (unmarshal_marshal_units d obj Hd Hobj).
Qed.

(** Ninety minutes: rendered as 90 minutes, not as 5400 seconds. *)
Lemma duration_json_roundtrip_witness :
  exists obj : durationObj,
    MarshalJSON (90 * Minute) = Ok obj /\
    (90 * Minute = 0 -> obj = mkDurationObj 0 "s") /\
    (90 * Minute <> 0 -> largest_lossless_unit (90 * Minute) obj) /\
    UnmarshalJSON obj = Ok (90 * Minute).
Proof.
  apply (duration_json_roundtrip (90 * Minute)).
  - unfold in_int64, Minute, Second. lia.
  - vm_compute. reflexivity.
Defined.

(** C7 (as stated) fails: a Duration of one nanosecond has no rendering, so
    there is nothing to read back. *)
Lemma duration_json_nanosecond_counterexample :
  in_int64 1 /\
  MarshalJSON 1 = Err "duration is not a multiple of 1 second" /\
  ~ (exists obj : durationObj, MarshalJSON 1 = Ok obj /\ UnmarshalJSON obj = Ok 1).
Proof.
  split; [unfold in_int64; lia |].
  split; [reflexivity |].
  intros (obj & Hm & _). vm_compute in Hm. discriminate Hm.
Qed.

End DurationFacts.

(** ** Chunked uploads *)

Section ChunkingFacts.
Import Models Storage Chunking.
Context {S : Type} `{!StorageDriver S}.

Lemma chunkSizeBytes_value : chunkSizeBytes = 524288000.
Proof. reflexivity. Qed.

Lemma wrap_uint64_id (z : Z) : in_uint64 z -> wrap_uint64 z = z.
Proof. unfold in_uint64, wrap_uint64. intros H. now apply Z.mod_small. Qed.

Lemma wrap_uint32_id (z : Z) : in_uint32 z -> wrap_uint32 z = z.
Proof. unfold in_uint32, wrap_uint32. intros H. now apply Z.mod_small. Qed.

Lemma chunk_count_small (r : Z) :
  0 <= r <= chunkSizeBytes -> chunk_count r = 1.
Proof.
  intros Hr. unfold chunk_count. rewrite chunkSizeBytes_value in *.
  assert ((r + 524288000 - 1) / 524288000 <= 1).
  { apply Z.lt_succ_r. apply Z.div_lt_upper_bound; lia. }
  lia.
Qed.

Lemma chunk_count_step (r : Z) :
  chunkSizeBytes < r -> chunk_count r = 1 + chunk_count (r - chunkSizeBytes).
Proof.
  intros Hr. unfold chunk_count. rewrite chunkSizeBytes_value in *.
  replace (r + 524288000 - 1) with ((r - 524288000 + 524288000 - 1) + 1 * 524288000) by lia.
  rewrite Z.div_add by lia.
  assert (1 <= (r - 524288000 + 524288000 - 1) / 524288000).
  { apply Z.div_le_lower_bound; lia. }
  lia.
Qed.

Lemma chunk_count_pos (r : Z) : 1 <= chunk_count r.
Proof. unfold chunk_count. lia. Qed.

(** The last round: whatever is left goes out as one chunk. *)
Lemma append_chunk_last (account : ReducedAccount) (upload : Upload)
    (contents : Reader) (r : Z) (w : World S) :
  0 <= r <= chunkSizeBytes ->
  Z.of_nat (length contents) = r ->
  in_uint32 (NumChunks upload) -> NumChunks upload + 1 < 2^32 ->
  in_uint64 (SizeBytes upload) -> SizeBytes upload + r < 2^64 ->
  exists (w' : World S) (err : option string) (c : AppendCall),
    append_chunk account contents r (upload, w)
      = ((mkUpload (StorageID upload) (SizeBytes upload + r) (NumChunks upload + 1), w'), err) /\
    calls w' = calls w ++ [c] /\
    expected_call account upload 0 c /\
    call_chunk c = contents.
Proof.
  intros Hr Hlen Hn Hn' Hs Hs'.
  unfold append_chunk, call_AppendToBlob. cbn [StorageID].
  rewrite (wrap_uint32_id (NumChunks upload + 1)) by (unfold in_uint32 in *; lia).
  rewrite (wrap_uint64_id (SizeBytes upload + r)) by (unfold in_uint64 in *; lia).
  destruct (sd_AppendToBlob _ (sd w)) as [s' err] eqn:E.
  eexists _, err, _. split; [reflexivity |]. cbn [calls].
  split; [reflexivity |]. split; [| reflexivity].
  unfold expected_call. cbn.
  repeat split; try lia. exists r. repeat split; lia.
Qed.

Lemma LimitReader_full (contents : Reader) :
  chunkSizeBytes <= Z.of_nat (length contents) ->
  Z.of_nat (length (LimitReader contents chunkSizeBytes)) = chunkSizeBytes.
Proof.
  intros H. unfold LimitReader. rewrite length_take.
  rewrite chunkSizeBytes_value in *. lia.
Qed.

Lemma after_limit_length (contents : Reader) :
  chunkSizeBytes <= Z.of_nat (length contents) ->
  Z.of_nat (length (after_limit contents chunkSizeBytes))
    = Z.of_nat (length contents) - chunkSizeBytes.
Proof.
  intros H. unfold after_limit. rewrite length_drop.
  rewrite chunkSizeBytes_value in *. lia.
Qed.

(** A full round: one chunk of exactly [chunkSizeBytes]. *)
Lemma append_chunk_full (account : ReducedAccount) (upload : Upload)
    (contents : Reader) (w : World S) :
  chunkSizeBytes <= Z.of_nat (length contents) ->
  in_uint32 (NumChunks upload) -> NumChunks upload + 1 < 2^32 ->
  in_uint64 (SizeBytes upload) -> SizeBytes upload + chunkSizeBytes < 2^64 ->
  exists (w' : World S) (err : option string) (c : AppendCall),
    append_chunk account (LimitReader contents chunkSizeBytes) chunkSizeBytes (upload, w)
      = ((mkUpload (StorageID upload) (SizeBytes upload + chunkSizeBytes)
            (NumChunks upload + 1), w'), err) /\
    calls w' = calls w ++ [c] /\
    expected_call account upload 0 c /\
    call_chunk c = LimitReader contents chunkSizeBytes.
Proof.
  intros Hlen Hn Hn' Hs Hs'.
  apply append_chunk_last; try assumption.
  - rewrite chunkSizeBytes_value. lia.
  - now apply LimitReader_full.
Qed.

Lemma expected_call_shift (account : ReducedAccount) (upload upload' : Upload)
    (i : nat) (c : AppendCall) :
  StorageID upload' = StorageID upload ->
  NumChunks upload' = NumChunks upload + 1 ->
  expected_call account upload' i c ->
  expected_call account upload (Datatypes.S i) c.
Proof.
  intros Hid Hn (Ha & Hs & Hc & Hl). unfold expected_call.
  split; [exact Ha |]. split; [congruence |]. split; [| exact Hl].
  rewrite Hc, Hn. lia.
Qed.

(** The loop invariant of [foreachChunkWithKnownSize] under the closure of
    [AppendToBlob]. *)
Lemma foreachChunk_loop_spec (account : ReducedAccount) :
  forall (fuel : nat) (contents : Reader) (r : Z) (upload : Upload) (w : World S),
    0 <= r ->
    Z.of_nat (length contents) = r ->
    r <= chunkSizeBytes * (Z.of_nat fuel + 1) ->
    in_uint32 (NumChunks upload) -> NumChunks upload + chunk_count r < 2^32 ->
    in_uint64 (SizeBytes upload) -> SizeBytes upload + r < 2^64 ->
    exists (upload' : Upload) (w' : World S) (err : option string)
           (new_calls : list AppendCall),
      foreachChunk_loop (append_chunk account) fuel contents r (upload, w)
        = Some ((upload', w'), err) /\
      calls w' = calls w ++ new_calls /\
      1 <= Z.of_nat (length new_calls) <= chunk_count r /\
      (forall i c, new_calls !! i = Some c -> expected_call account upload i c) /\
      (err = None ->
         Z.of_nat (length new_calls) = chunk_count r /\
         StorageID upload' = StorageID upload /\
         SizeBytes upload' = SizeBytes upload + r /\
         NumChunks upload' = NumChunks upload + chunk_count r /\
         concat (map call_chunk new_calls) = contents).
Proof.
  assert (HC : 0 < chunkSizeBytes) by reflexivity.
  induction fuel as [| fuel IH]; intros contents r upload w Hr Hlen Hfuel Hn Hn' Hs Hs'.
  all: cbn [foreachChunk_loop]; destruct (chunkSizeBytes <? r) eqn:Hcmp;
    [apply Z.ltb_lt in Hcmp | apply Z.ltb_ge in Hcmp].
  - exfalso. rewrite chunkSizeBytes_value in *. lia.
  - rewrite (chunk_count_small r) in * by lia.
    destruct (append_chunk_last account upload contents r w) as (w' & err & c & Ha & Hc & Hexp & Hbytes);
      try assumption; try lia.
    eexists _, w', err, [c]. rewrite Ha. split; [reflexivity |]. split; [exact Hc |].
    split; [cbn; lia |]. split.
    + intros [| i] c' Hi; [injection Hi as <-; exact Hexp | discriminate Hi].
    + intros _. cbn. rewrite app_nil_r. repeat split; try reflexivity; try lia. exact Hbytes.
  - pose proof (chunk_count_step r Hcmp) as Hstep.
    pose proof (chunk_count_pos (r - chunkSizeBytes)) as Hpos.
    destruct (append_chunk_full account upload contents w) as (w1 & err1 & c & Ha & Hc & Hexp & Hbytes);
      try assumption; try lia.
    rewrite Ha. destruct err1 as [e |].
    + eexists _, w1, (Some e), [c]. split; [reflexivity |]. split; [exact Hc |].
      split; [cbn; lia |]. split.
      * intros [| i] c' Hi; [injection Hi as <-; exact Hexp | discriminate Hi].
      * intros [=].
    + rewrite (wrap_uint64_id (r - chunkSizeBytes)) by (unfold in_uint64 in *; lia).
      set (upload1 := mkUpload (StorageID upload) (SizeBytes upload + chunkSizeBytes)
                        (NumChunks upload + 1)).
      destruct (IH (after_limit contents chunkSizeBytes) (r - chunkSizeBytes) upload1 w1)
        as (upload' & w' & err & rest & Hrun & Hcalls & Hcount & Hidx & Hdone).
      * lia.
      * rewrite after_limit_length by lia. lia.
      * rewrite chunkSizeBytes_value in *. lia.
      * unfold in_uint32 in *. cbn. lia.
      * cbn. lia.
      * unfold in_uint64 in *. cbn. rewrite chunkSizeBytes_value in *. lia.
      * cbn. lia.
      * exists upload', w', err, (c :: rest). split; [exact Hrun |].
        split; [rewrite Hcalls, Hc, <- app_assoc; reflexivity |].
        split; [cbn [length]; lia |]. split.
        -- intros [| i] c' Hi.
           ++ injection Hi as <-. exact Hexp.
           ++ apply (expected_call_shift account upload upload1); [reflexivity | reflexivity |].
              apply Hidx. exact Hi.
        -- intros Herr. destruct (Hdone Herr) as (H1 & H2 & H3 & H4 & H5).
           cbn [StorageID SizeBytes NumChunks upload1] in *.
           repeat split; try lia; try congruence.
           ++ cbn [length]. lia.
           ++ cbn [map concat]. rewrite H5, Hbytes.
              unfold LimitReader, after_limit. apply take_drop.
  - rewrite (chunk_count_small r) in * by lia.
    destruct (append_chunk_last account upload contents r w) as (w' & err & c & Ha & Hc & Hexp & Hbytes);
      try assumption; try lia.
    eexists _, w', err, [c]. rewrite Ha. split; [reflexivity |]. split; [exact Hc |].
    split; [cbn; lia |]. split.
    + intros [| i] c' Hi; [injection Hi as <-; exact Hexp | discriminate Hi].
    + intros _. cbn. rewrite app_nil_r. repeat split; try reflexivity; try lia. exact Hbytes.
Qed.

(** The round bound chosen by [foreachChunkWithKnownSize] is always enough:
    the function returns, whatever the action does. *)
Lemma foreachChunk_loop_returns {St : Type}
    (action : Reader -> Z -> St -> St * option string) :
  forall (fuel : nat) (contents : Reader) (r : Z) (st : St),
    in_uint64 r ->
    r <= chunkSizeBytes * (Z.of_nat fuel + 1) ->
    exists out, foreachChunk_loop action fuel contents r st = Some out.
Proof.
  assert (HC : 0 < chunkSizeBytes) by reflexivity.
  induction fuel as [| fuel IH]; intros contents r st Hr Hfuel; cbn [foreachChunk_loop];
    destruct (chunkSizeBytes <? r) eqn:Hcmp;
    [apply Z.ltb_lt in Hcmp | apply Z.ltb_ge in Hcmp | apply Z.ltb_lt in Hcmp | apply Z.ltb_ge in Hcmp].
  - exfalso. lia.
  - eexists. reflexivity.
  - destruct (action _ _ st) as [st' [e |]]; [eexists; reflexivity |].
    unfold in_uint64 in Hr.
    rewrite (wrap_uint64_id (r - chunkSizeBytes)) by (unfold in_uint64; lia).
    apply IH; [unfold in_uint64; lia | lia].
  - eexists. reflexivity.
Qed.

Lemma foreachChunkWithKnownSize_returns {St : Type}
    (action : Reader -> Z -> St -> St * option string)
    (contents : Reader) (L : Z) (st : St) :
  in_uint64 L ->
  exists out, foreachChunkWithKnownSize action contents L st = Some out.
Proof.
  intros HL. unfold foreachChunkWithKnownSize.
  apply foreachChunk_loop_returns; [exact HL |].
  unfold in_uint64 in HL.
  rewrite Z2Nat.id by (apply Z.div_pos; [lia | reflexivity]).
  pose proof (Z.mul_succ_div_gt L chunkSizeBytes eq_refl). lia.
Qed.

Lemma AppendToBlob_returns (account : ReducedAccount) (upload : Upload)
    (contents : Reader) (L : Z) (w : World S) :
  in_uint64 L ->
  exists out, AppendToBlob account upload contents L w = Some out.
Proof. apply foreachChunkWithKnownSize_returns. Qed.

(** C8 (as amended): appending a stream of known length [L] to an upload
    calls the driver's append at least once and at most
    [max(1, ceil(L / 500 MiB))] times; the calls continue the upload's chunk
    numbering (the first one is number [NumChunks + 1], which is 1 for a
    fresh upload), and each carries at most 500 MiB.  When [AppendToBlob]
    returns nil the number of calls is exactly [max(1, ceil(L / 500 MiB))],
    the chunks put together are the input, [NumChunks] grew by the number of
    calls and [SizeBytes] by exactly [L]. *)
Theorem AppendToBlob_chunks (account : ReducedAccount) (upload : Upload)
    (contents : Reader) (L : Z) (w : World S) :
  0 <= L ->
  Z.of_nat (length contents) = L ->
  in_uint32 (NumChunks upload) -> NumChunks upload + chunk_count L < 2^32 ->
  in_uint64 (SizeBytes upload) -> SizeBytes upload + L < 2^64 ->
  exists (upload' : Upload) (w' : World S) (err : option string)
         (new_calls : list AppendCall),
    AppendToBlob account upload contents L w = Some ((upload', w'), err) /\
    calls w' = calls w ++ new_calls /\
    1 <= Z.of_nat (length new_calls) <= chunk_count L /\
    (forall i c, new_calls !! i = Some c -> expected_call account upload i c) /\
    (err = None ->
       Z.of_nat (length new_calls) = chunk_count L /\
       StorageID upload' = StorageID upload /\
       SizeBytes upload' = SizeBytes upload + L /\
       NumChunks upload' = NumChunks upload + chunk_count L /\
       concat (map call_chunk new_calls) = contents).
Proof.
  intros HL Hlen Hn Hn' Hs Hs'.
  unfold AppendToBlob, foreachChunkWithKnownSize.
  apply foreachChunk_loop_spec; try assumption.
  rewrite Z2Nat.id by (apply Z.div_pos; [lia | reflexivity]).
  pose proof (Z.mul_succ_div_gt L chunkSizeBytes eq_refl). lia.
Qed.

End ChunkingFacts.

Section ChunkingExamples.
Import Models Storage Chunking ChunkingFixtures.

(** Three bytes into a fresh upload on the in-memory driver. *)
Lemma AppendToBlob_chunks_witness :
  exists (upload' : Upload) (w' : World Trivial.StorageDriver) (err : option string)
         (new_calls : list AppendCall),
    AppendToBlob example_account fresh_upload example_stream 3 fresh_world
      = Some ((upload', w'), err) /\
    calls w' = calls fresh_world ++ new_calls /\
    1 <= Z.of_nat (length new_calls) <= chunk_count 3 /\
    (forall i c, new_calls !! i = Some c -> expected_call example_account fresh_upload i c) /\
    (err = None ->
       Z.of_nat (length new_calls) = chunk_count 3 /\
       StorageID upload' = StorageID fresh_upload /\
       SizeBytes upload' = SizeBytes fresh_upload + 3 /\
       NumChunks upload' = NumChunks fresh_upload + chunk_count 3 /\
       concat (map call_chunk new_calls) = example_stream).
Proof.
  apply (AppendToBlob_chunks example_account fresh_upload example_stream 3 fresh_world).
  - lia.
  - reflexivity.
  - unfold in_uint32. simpl. lia.
  - vm_compute. reflexivity.
  - unfold in_uint64. simpl. lia.
  - vm_compute. reflexivity.
Defined.

(** An empty input still makes one call. *)
Example AppendToBlob_empty_input :
  exists (w' : World Trivial.StorageDriver),
    AppendToBlob example_account fresh_upload [] 0 fresh_world
      = Some ((mkUpload "6b86b273" 0 1, w'), None) /\
    map call_chunkNumber (calls w') = [1] /\
    map call_chunkLength (calls w') = [Some 0].
Proof. eexists. vm_compute. repeat split. Qed.

(** C8 (as stated) fails: the chunk numbers start at 1 only on a fresh
    upload.  After two chunks, the next request, here an empty one, is sent to
    the driver as chunk number 3, and the driver accepts it. *)
Lemma AppendToBlob_numbering_counterexample :
  exists (upload2 : Upload) (w2 w3 : World Trivial.StorageDriver) (upload3 : Upload),
    two_patches = Some ((upload2, w2), None) /\
    NumChunks upload2 = 2 /\
    AppendToBlob example_account upload2 [] 0 (mkWorld (sd w2) [])
      = Some ((upload3, w3), None) /\
    map call_chunkNumber (calls w3) = [3] /\
    map call_chunkNumber (calls w3) <> [1].
Proof.
  do 4 eexists. split; [vm_compute; reflexivity |].
  split; [reflexivity |].
  split; [vm_compute; reflexivity |].
  split; [reflexivity | discriminate].
Qed.

End ChunkingExamples.

(** ** Audiences and hostnames *)

Section AudienceFacts.
Import Keppel Auth.
Variable IsAccountName : string -> bool.

Lemma append_cons (c : ascii) (n x : string) :
  (String c n ++ x)%string = String c (n ++ x).
Proof. reflexivity. Qed.

Lemma cut_dot_app (n b : string) :
  has_dot n = false -> cut_dot (n ++ "." ++ b) = Some (n, b).
Proof.
  induction n as [| c n IH]; cbn [has_dot]; intros H.
  - reflexivity.
  - apply orb_false_iff in H as [Hc Hn].
    rewrite append_cons. cbn [cut_dot]. rewrite Hc, (IH Hn). reflexivity.
Qed.

Lemma cut_dot_head (n b h t : string) :
  cut_dot (n ++ "." ++ b) = Some (h, t) -> h = n -> has_dot n = false /\ t = b.
Proof.
  revert h. induction n as [| c n IH]; cbn [has_dot]; intros h Hcut Hh.
  - vm_compute in Hcut. injection Hcut as _ <-. split; reflexivity.
  - rewrite append_cons in Hcut. cbn [cut_dot] in Hcut.
    destruct (Ascii.eqb c ".") eqn:Hc.
    + injection Hcut as <- _. discriminate Hh.
    + destruct (cut_dot (n ++ "." ++ b)) as [[h' t'] |] eqn:E; [| discriminate Hcut].
      injection Hcut as <- <-. injection Hh as ->.
      destruct (IH n eq_refl eq_refl) as [Hn Ht]. now rewrite Hn.
Qed.

Lemma string_length_app (s1 s2 : string) :
  String.length (s1 ++ s2) = (String.length s1 + String.length s2)%nat.
Proof.
  induction s1 as [| c s1 IH]; [reflexivity |].
  rewrite append_cons. cbn [String.length]. now rewrite IH.
Qed.

Lemma dotted_longer (n b : string) : (n ++ "." ++ b)%string <> b.
Proof.
  intros H. apply (f_equal String.length) in H.
  rewrite !string_length_app in H. cbn [String.length] in H. lia.
Qed.

Lemma dotted_nonempty (n b : string) : (n ++ "." ++ b)%string <> "".
Proof. destruct n; discriminate. Qed.

Lemma eqb_false (x y : string) : x <> y -> (x =? y)%string = false.
Proof. apply String.eqb_neq. Qed.

(** C6 (as amended): the round trip through a hostname gives the audience
    back for every audience that the configuration can tell apart by
    hostname ([resolvable]): an anycast audience when an anycast hostname is
    configured and differs from the public one, and an account name that is
    empty or a dot-free valid account name whose remapped hostname does not
    collide with the other well-known hostname. *)
Theorem audience_hostname_roundtrip (a : Audience) (cfg : Configuration) :
  resolvable IsAccountName a cfg ->
  IdentifyAudience IsAccountName (Hostname a cfg) cfg = a.
Proof.
  destruct a as [any name]. unfold resolvable, Hostname, own_hostname, other_hostname.
  cbn [IsAnycast AccountName]. intros [Hany Hname].
  destruct (String.eqb_spec name "") as [-> | Hne]; cbn [negb].
  - (* no domain remapping *)
    destruct any.
    + destruct (Hany eq_refl) as [H1 H2]. unfold IdentifyAudience.
      rewrite (eqb_false _ _ H1), (eqb_false _ _ H2), String.eqb_refl. reflexivity.
    + unfold IdentifyAudience.
      destruct (String.eqb_spec (APIPublicHostname cfg) "") as [E | E]; cbn [negb].
      * rewrite E. reflexivity.
      * rewrite String.eqb_refl. reflexivity.
  - (* domain remapping *)
    destruct (Hname Hne) as (Hacc & Hdot & Hown & Hother).
    cbn [negb] in Hother.
    unfold IdentifyAudience.
    rewrite (eqb_false _ _ (dotted_nonempty name _)). cbn [negb].
    assert (Hsplit : forall b, identify_remapped IsAccountName (name ++ "." ++ b) cfg
              = if negb (b =? "")%string then
                  if (b =? APIPublicHostname cfg)%string then mkAudience false name
                  else if (b =? AnycastAPIPublicHostname cfg)%string then mkAudience true name
                  else fallback
                else fallback).
    { intros b. unfold identify_remapped, SplitN_dot_2.
      rewrite (cut_dot_app name b Hdot), (eqb_false _ _ Hne), Hacc. reflexivity. }
    destruct any.
    + destruct (Hany eq_refl) as [H1 H2].
      rewrite (eqb_false _ _ Hother), (eqb_false _ _ (dotted_longer name _)), Hsplit.
      rewrite (eqb_false _ _ H1), (eqb_false _ _ H2), String.eqb_refl. reflexivity.
    + rewrite (eqb_false _ _ (dotted_longer name _)), (eqb_false _ _ Hother), Hsplit.
      rewrite (eqb_false _ _ Hown), String.eqb_refl. reflexivity.
Qed.

(** The condition of the amended claim is the exact one: an audience that
    survives the round trip is [resolvable]. *)
Lemma audience_roundtrip_only_resolvable (a : Audience) (cfg : Configuration) :
  IdentifyAudience IsAccountName (Hostname a cfg) cfg = a ->
  resolvable IsAccountName a cfg.
Proof.
  destruct a as [any name]. unfold resolvable, Hostname, own_hostname, other_hostname.
  cbn [IsAnycast AccountName].
  destruct (String.eqb_spec name "") as [-> | Hne]; cbn [negb].
  - intros Hrt. split; [| intros H; now destruct H].
    intros ->. unfold IdentifyAudience in Hrt.
    destruct (String.eqb_spec (AnycastAPIPublicHostname cfg) "") as [E | E]; cbn [negb] in Hrt.
    + rewrite E in Hrt. discriminate Hrt.
    + split; [exact E |].
      destruct (String.eqb_spec (AnycastAPIPublicHostname cfg) (APIPublicHostname cfg));
        [discriminate Hrt | assumption].
  - set (own := if any then AnycastAPIPublicHostname cfg else APIPublicHostname cfg).
    intros Hrt. unfold IdentifyAudience in Hrt.
    rewrite (eqb_false _ _ (dotted_nonempty name own)) in Hrt. cbn [negb] in Hrt.
    destruct (String.eqb_spec (name ++ "." ++ own) (APIPublicHostname cfg)) as [E1 | E1].
    { injection Hrt as _ Hn. now destruct Hne. }
    destruct (String.eqb_spec (name ++ "." ++ own) (AnycastAPIPublicHostname cfg)) as [E2 | E2].
    { injection Hrt as _ Hn. now destruct Hne. }
    unfold identify_remapped, SplitN_dot_2 in Hrt.
    destruct (cut_dot (name ++ "." ++ own)) as [[h t] |] eqn:Hcut;
      [| injection Hrt as _ Hn; now destruct Hne].
    destruct (negb (h =? "")%string && negb (t =? "")%string) eqn:Hchk;
      [| injection Hrt as _ Hn; now destruct Hne].
    destruct (IsAccountName h) eqn:Hacc; [| injection Hrt as _ Hn; now destruct Hne].
    assert (Hh : h = name).
    { destruct (t =? APIPublicHostname cfg)%string; [now injection Hrt |].
      destruct (t =? AnycastAPIPublicHostname cfg)%string; [now injection Hrt |].
      injection Hrt as _ Hn. now destruct Hne. }
    destruct (cut_dot_head name own h t Hcut Hh) as [Hdot ->]. subst h.
    apply andb_true_iff in Hchk as [_ Hown]. apply negb_true_iff in Hown.
    apply String.eqb_neq in Hown.
    assert (Hany : any = true ->
              AnycastAPIPublicHostname cfg <> "" /\
              AnycastAPIPublicHostname cfg <> APIPublicHostname cfg).
    { intros ->. subst own. split; [exact Hown |].
      destruct (String.eqb_spec (AnycastAPIPublicHostname cfg) (APIPublicHostname cfg));
        [discriminate Hrt | assumption]. }
    split; [exact Hany |]. intros _.
    repeat split; try assumption.
    subst own. destruct any; assumption.
Qed.

End AudienceFacts.

Section AudienceExamples.
Import Keppel Auth.

(** The anycast view of account [library] on a deployment with both
    hostnames configured. *)
Lemma audience_hostname_roundtrip_witness :
  resolvable dns_label (mkAudience true "library")
    (mkConfiguration "registry.example.org" "registry-global.example.org") /\
  IdentifyAudience dns_label
    (Hostname (mkAudience true "library")
       (mkConfiguration "registry.example.org" "registry-global.example.org"))
    (mkConfiguration "registry.example.org" "registry-global.example.org")
  = mkAudience true "library".
Proof.
  assert (H : resolvable dns_label (mkAudience true "library")
                (mkConfiguration "registry.example.org" "registry-global.example.org")).
  { unfold resolvable. cbn. repeat split; try reflexivity; discriminate. }
  split; [exact H |].
  apply (audience_hostname_roundtrip dns_label _ _ H).
Defined.

(** C6 (as stated) fails: on a deployment without an anycast hostname, the
    anycast audience has the empty hostname, which is identified as the
    default audience. *)
Lemma audience_no_anycast_counterexample :
  Hostname (mkAudience true "") (mkConfiguration "registry.example.org" "") = "" /\
  IdentifyAudience dns_label
    (Hostname (mkAudience true "") (mkConfiguration "registry.example.org" ""))
    (mkConfiguration "registry.example.org" "")
  = mkAudience false "" /\
  IdentifyAudience dns_label
    (Hostname (mkAudience true "") (mkConfiguration "registry.example.org" ""))
    (mkConfiguration "registry.example.org" "")
  <> mkAudience true "".
Proof. repeat split. discriminate. Qed.

(** Further audiences that do not survive the round trip: an account name
    with a dot, and an account name in upper case. *)
Example audience_dotted_name_lost :
  IdentifyAudience dns_label
    (Hostname (mkAudience false "a.b") (mkConfiguration "registry.example.org" ""))
    (mkConfiguration "registry.example.org" "")
  = mkAudience false "".
Proof. reflexivity. Qed.

End AudienceExamples.

(** ** Alternate representations of manifests *)

Section ManifestFacts.
Import Imagespecs Models Manifest.

Lemma list_references_spec (pf : PlatformFilter) :
  forall (ms : list Schema2ManifestDescriptor) (acc : list Descriptor),
    list_references pf ms acc
    = acc ++ map (fun c => mkDescriptor (s2_MediaType c) (s2_Digest c) (s2_Size c)
                             (s2_URLs c) (Some (entry_platform c)))
                 (List.filter (fun c => Includes pf (entry_platform c)) ms).
Proof.
  induction ms as [| m rest IH]; intros acc; cbn [list_references List.filter].
  - cbn. now rewrite app_nil_r.
  - fold (entry_platform m).
    destruct (Includes pf (entry_platform m)) eqn:E; rewrite IH.
    + cbn [map]. now rewrite <- app_assoc.
    + reflexivity.
Qed.

(** [ManifestReferences] of a manifest list: its children that pass the
    platform filter, in order. *)
Lemma ManifestReferences_list (m : Schema2List) (pf : PlatformFilter) :
  ManifestReferences (v2ManifestListAdapter m) pf = filtered_children m pf.
Proof. unfold ManifestReferences, filtered_children. now rewrite list_references_spec. Qed.

Lemma filtered_children_platform (m : Schema2List) (pf : PlatformFilter) (d : Descriptor) :
  In d (filtered_children m pf) -> exists p, DPlatform d = Some p.
Proof.
  unfold filtered_children. rewrite in_map_iff. intros (c & <- & _). now eexists.
Qed.

Lemma list_alternates_spec (mt : string) :
  forall (refs acc : list Descriptor),
    mt = DockerV2ListMediaType ->
    (forall d, In d refs -> exists p, DPlatform d = Some p) ->
    list_alternates mt refs acc
    = Some (acc ++ List.filter is_linux_amd64_image refs).
Proof.
  intros refs acc ->. revert acc.
  induction refs as [| m rest IH]; intros acc Hp; cbn [list_alternates List.filter].
  - now rewrite app_nil_r.
  - rewrite String.eqb_refl, andb_true_l.
    destruct (Hp m (or_introl eq_refl)) as [p Hm].
    assert (Him : is_linux_amd64_image m
                  = (MediaType m =? DockerV2Schema2MediaType)%string
                    && ((OS p =? "linux")%string && (Architecture p =? "amd64")%string))
      by (unfold is_linux_amd64_image; now rewrite Hm).
    assert (Hrest : forall d, In d rest -> exists p, DPlatform d = Some p)
      by (intros d Hd; apply Hp; now right).
    rewrite Him, Hm.
    destruct (MediaType m =? DockerV2Schema2MediaType)%string; cbn [andb].
    + destruct ((OS p =? "linux")%string && (Architecture p =? "amd64")%string);
        rewrite (IH _ Hrest); [now rewrite <- app_assoc | reflexivity].
    + now rewrite (IH _ Hrest).
Qed.

Lemma list_alternates_other (mt : string) :
  forall (refs acc : list Descriptor),
    mt <> DockerV2ListMediaType ->
    list_alternates mt refs acc = Some acc.
Proof.
  intros refs acc Hmt. apply String.eqb_neq in Hmt.
  induction refs as [| m rest IH]; cbn [list_alternates]; [reflexivity |].
  now rewrite Hmt.
Qed.


(** What "precisely those children" means, by membership. *)
Lemma alternates_by_rule_list (m : Schema2List) (pf : PlatformFilter) (d : Descriptor) :
  In d (alternates_by_rule (v2ManifestListAdapter m) pf) <->
  In d (ManifestReferences (v2ManifestListAdapter m) pf) /\
  MediaType d = DockerV2Schema2MediaType /\
  exists p, DPlatform d = Some p /\ OS p = "linux" /\ Architecture p = "amd64".
Proof.
  cbn [alternates_by_rule].
  rewrite ManifestReferences_list, filter_In. unfold is_linux_amd64_image.
  split.
  - intros [Hin Hb]. split; [exact Hin |].
    apply andb_true_iff in Hb as [Hmedia Hplat]. apply String.eqb_eq in Hmedia.
    split; [exact Hmedia |].
    destruct (DPlatform d) as [p |]; [| discriminate Hplat].
    apply andb_true_iff in Hplat as [Hos Harch].
    exists p. now rewrite <- !String.eqb_eq.
  - intros (Hin & Hmedia & p & Hp & Hos & Harch). split; [exact Hin |].
    rewrite Hp, Hmedia, Hos, Harch. reflexivity.
Qed.

(** C9 (as stated) fails: a manifest list that was parsed under the Docker
    v2 list type, but whose document has no [mediaType] field, gets no
    alternates, although its linux/amd64 schema 2 child passes the platform
    filter. *)
Lemma AcceptableAlternates_media_type_counterexample :
  map Digest (ManifestReferences (v2ManifestListAdapter fixture_list_without_media_type) [])
  = map s2_Digest (list_Manifests fixture_list) /\
  map Digest (alternates_by_rule (v2ManifestListAdapter fixture_list_without_media_type) [])
  = ["sha256:e255ca60e7cfef94adfcd95d78f1eb44404c4f5887cbf506dd5799489a42606c"] /\
  AcceptableAlternates (v2ManifestListAdapter fixture_list_without_media_type) [] = Some [] /\
  AcceptableAlternates (v2ManifestListAdapter fixture_list_without_media_type) []
  <> Some (alternates_by_rule (v2ManifestListAdapter fixture_list_without_media_type) []).
Proof. repeat split. discriminate. Qed.

(** The fixture list offers its amd64 child, whatever follows it. *)
Example AcceptableAlternates_fixture :
  option_map (map Digest) (AcceptableAlternates (v2ManifestListAdapter fixture_list) [])
  = Some ["sha256:e255ca60e7cfef94adfcd95d78f1eb44404c4f5887cbf506dd5799489a42606c"].
Proof. reflexivity. Qed.

End ManifestFacts.

(** ** Claiming account names *)

Section FederationFacts.
Import Models FederationDriver FederationSwift.
Variable fd : federationDriverSwift.

Lemma readAccountFile_insert (c : Container) (name : AccountName) (file : accountFile) :
  readAccountFile (<[accountFileObj name := file]> c) name
  = mkAccountFile name (PrimaryHostName file) (ReplicaHostNames file)
      (SubleaseTokenSecret file).
Proof. unfold readAccountFile. now rewrite lookup_insert_eq. Qed.

(** A modification that does not look at [firstPass] and went through once
    goes through again, without another write. *)
Lemma modifyAccountFile_again (c c' : Container) (name : AccountName)
    (modify : accountFile -> bool -> modify_outcome) :
  (forall file, modify file true = modify file false) ->
  modifyAccountFile c name modify = (c', None) ->
  modifyAccountFile c' name modify = (c', None).
Proof.
  intros Hpass. unfold modifyAccountFile.
  destruct (modify (readAccountFile c name) true) as [m1 s1 | u1 e1] eqn:E1; [| discriminate].
  destruct (unchanged (readAccountFile c name) m1 s1) eqn:U1.
  - intros [= <-]. now rewrite E1, U1.
  - set (c1 := <[accountFileObj name := stored (sort_replicas m1)]> c).
    destruct (modify (readAccountFile c1 name) false) as [m2 s2 | u2 e2] eqn:E2; [| discriminate].
    destruct (unchanged (readAccountFile c1 name) m2 s2) eqn:U2; [| discriminate].
    cbn [negb]. intros [= <-].
    now rewrite Hpass, E2, U2.
Qed.

(** Claiming a primary account is idempotent. *)
Lemma claimPrimaryAccount_idempotent (c c' : Container) (account : Account)
    (secret : string) :
  claimPrimaryAccount fd c account secret = (c', None) ->
  claimPrimaryAccount fd c' account secret = (c', None).
Proof.
  unfold claimPrimaryAccount.
  destruct (negb (secret =? "")%string); [discriminate |].
  apply modifyAccountFile_again. reflexivity.
Qed.

(** A primary claim can be repeated: when [ClaimAccountName] has succeeded
    for a primary account, the same call on the container it left behind
    succeeds again and leaves the container as it is. *)
Lemma ClaimAccountName_primary_idempotent (c c' : Container) (account : Account)
    (secret : string) :
  UpstreamPeerHostName account = "" ->
  ClaimAccountName fd c account secret = (c', (ClaimSucceeded, None)) ->
  ClaimAccountName fd c' account secret = (c', (ClaimSucceeded, None)).
Proof.
  intros Hup. unfold ClaimAccountName. rewrite Hup. cbn [String.eqb negb].
  destruct (claimPrimaryAccount fd c account secret) as [c1 out] eqn:E.
  destruct out as [[[|] msg] |]; try discriminate.
  intros [= <-]. now rewrite (claimPrimaryAccount_idempotent _ _ _ _ E).
Qed.

(** A successful replica claim has used up the sublease token: the file it
    leaves behind holds the empty secret. *)
Lemma claimReplicaAccount_burns_token (c c' : Container) (account : Account)
    (secret : string) :
  claimReplicaAccount fd c account secret = (c', None) ->
  secret <> "" /\
  SubleaseTokenSecret (readAccountFile c' (Name account)) = "".
Proof.
  unfold claimReplicaAccount.
  destruct (String.eqb_spec secret "") as [-> | Hsecret]; [discriminate |].
  intros Hrun. split; [exact Hsecret |]. revert Hrun.
  unfold modifyAccountFile. cbn beta iota.
  set (file0 := readAccountFile c (Name account)).
  destruct (String.eqb_spec (SubleaseTokenSecret file0) secret) as [Htok | Htok];
    cbn [negb]; [| discriminate].
  destruct (verifyAccountOwnership (with_secret file0 "") (UpstreamPeerHostName account));
    [discriminate |].
  destruct (addStringToList (ReplicaHostNames (with_secret file0 "")) (OwnHostName fd))
    as [l same] eqn:Hadd.
  assert (Hchanged : unchanged file0 (with_replicas (with_secret file0 "") l) same = false).
  { unfold unchanged. apply bool_decide_eq_false. intros Heq.
    apply (f_equal SubleaseTokenSecret) in Heq.
    destruct same; cbn in Heq; congruence. }
  rewrite Hchanged. rewrite readAccountFile_insert.
  match goal with
  | |- context [match ?v with Some _ => _ | None => _ end] => destruct v
  end; [discriminate |].
  match goal with
  | |- context [let '(_, _) := ?v in _] => destruct v
  end.
  match goal with
  | |- context [negb ?b] => destruct b
  end; cbn [negb]; [| discriminate].
  intros [= <-]. now rewrite readAccountFile_insert.
Qed.

(** C1 fails for replica accounts: after a replica claim has succeeded,
    repeating it with the same account and the same sublease token secret is
    turned down as a user error, because the first claim emptied the secret
    in the account file. *)
Theorem ClaimAccountName_replica_repeat_fails (c c' : Container) (account : Account)
    (secret : string) :
  UpstreamPeerHostName account <> "" ->
  ClaimAccountName fd c account secret = (c', (ClaimSucceeded, None)) ->
  ClaimAccountName fd c' account secret
  = (c', (ClaimFailed, Some "invalid sublease token (or token was already used)")).
Proof.
  intros Hup. apply String.eqb_neq in Hup.
  unfold ClaimAccountName. rewrite Hup. cbn [negb].
  destruct (claimReplicaAccount fd c account secret) as [c1 out] eqn:E.
  destruct out as [[[|] msg] |]; try discriminate.
  intros [= <-].
  destruct (claimReplicaAccount_burns_token _ _ _ _ E) as [Hsecret Hburnt].
  unfold claimReplicaAccount, modifyAccountFile.
  apply String.eqb_neq in Hsecret. rewrite Hsecret. rewrite Hburnt.
  assert (Hne : ("" =? secret)%string = false).
  { apply String.eqb_neq. apply String.eqb_neq in Hsecret. congruence. }
  rewrite Hne. reflexivity.
Qed.

End FederationFacts.

Section FederationExamples.
Import Models FederationDriver FederationSwift FederationFixtures.

(** Peer B creates the replica of [library] with the token that peer A
    issued, and then tries the same claim again. *)
Lemma ClaimAccountName_replica_repeat_fails_witness :
  exists c' : gmap string accountFile,
    UpstreamPeerHostName replica_library <> "" /\
    ClaimAccountName peerB container_with_token replica_library "c2VjcmV0IHRva2Vu"
      = (c', (ClaimSucceeded, None)) /\
    ClaimAccountName peerB c' replica_library "c2VjcmV0IHRva2Vu"
      = (c', (ClaimFailed, Some "invalid sublease token (or token was already used)")).
Proof.
  eexists.
  assert (Hup : UpstreamPeerHostName replica_library <> "") by discriminate.
  assert (Hfirst : ClaimAccountName peerB container_with_token replica_library
                     "c2VjcmV0IHRva2Vu"
                   = (fst (ClaimAccountName peerB container_with_token replica_library
                             "c2VjcmV0IHRva2Vu"),
                      (ClaimSucceeded, None))) by (vm_compute; reflexivity).
  split; [exact Hup |]. split; [exact Hfirst |].
  exact (ClaimAccountName_replica_repeat_fails peerB _ _ _ _ Hup Hfirst).
Defined.

(** The same claim on a primary account can be repeated. *)
Example ClaimAccountName_primary_twice :
  let c1 := fst (ClaimAccountName peerA ∅ primary_library "") in
  snd (ClaimAccountName peerA ∅ primary_library "") = (ClaimSucceeded, None) /\
  ClaimAccountName peerA c1 primary_library "" = (c1, (ClaimSucceeded, None)).
Proof. vm_compute. split; reflexivity. Qed.

End FederationExamples.

(** ** Anycast forwarding *)

Section AnycastFacts.
Import Keppel Auth Anycast.
Variable Do : Request -> result Response.
Variable FindPrimaryAccount : string -> result string.

(** What a forwarded request carries: the header [X-Keppel-Forwarded-By] and
    the query parameter [forwarded-by]; a query parameter
    [X-Keppel-Forwarded-By] is there only if the incoming request had it. *)
Lemma proxy_request_marks (cfg : Configuration) (r : Request) (peer : string) :
  Header (proxy_request cfg r peer) !! "X-Keppel-Forwarded-By"
    = Some [APIPublicHostname cfg] /\
  Query (proxy_request cfg r peer) !! "forwarded-by" = Some [APIPublicHostname cfg] /\
  Query (proxy_request cfg r peer) !! "X-Keppel-Forwarded-By"
    = Query r !! "X-Keppel-Forwarded-By".
Proof.
  unfold proxy_request, Values_Set. cbn [Header Query].
  split; [apply lookup_insert_eq |]. split; [apply lookup_insert_eq |].
  now apply lookup_insert_ne.
Qed.

Lemma proxy_request_not_recognised (cfg : Configuration) (r : Request) (peer : string) :
  Values_Get (Query r) "X-Keppel-Forwarded-By" = "" ->
  Values_Get (Query (proxy_request cfg r peer)) "X-Keppel-Forwarded-By" = "".
Proof.
  unfold Values_Get.
  now rewrite (proj2 (proj2 (proxy_request_marks cfg r peer))).
Qed.

(** The guard does stop a request whose query string has a non-empty
    [X-Keppel-Forwarded-By] parameter. *)
Lemma loop_protection_on_query_parameter (cfg : Configuration) (w : option Response)
    (r : Request) (audience : Audience) (accountName primary : string) :
  FindPrimaryAccount accountName = Ok primary ->
  Values_Get (Query r) "X-Keppel-Forwarded-By" <> "" ->
  reverseProxyTokenReqToUpstream Do FindPrimaryAccount cfg w r audience accountName
  = (w, Some loop_protection_error).
Proof.
  intros Hfind Hmark. unfold reverseProxyTokenReqToUpstream. rewrite Hfind.
  apply String.eqb_neq in Hmark. now rewrite Hmark.
Qed.

(** C2 fails: a token request that a peer has forwarded (built by
    [ReverseProxyAnycastRequestToPeer], so bearing the header
    [X-Keppel-Forwarded-By] and the query parameter [forwarded-by]) is handed
    to the reverse proxy again by the receiving peer's handler whenever its
    federation driver names a primary: the handler looks for a query
    parameter [X-Keppel-Forwarded-By], which the forwarding peer never sets. *)
Theorem forwarded_token_request_is_forwarded_again (cfgA cfgB : Configuration)
    (w : option Response) (r : Request) (peer : string) (audience : Audience)
    (accountName primary : string) :
  Values_Get (Query r) "X-Keppel-Forwarded-By" = "" ->
  FindPrimaryAccount accountName = Ok primary ->
  Header (proxy_request cfgA r peer) !! "X-Keppel-Forwarded-By"
    = Some [APIPublicHostname cfgA] /\
  reverseProxyTokenReqToUpstream Do FindPrimaryAccount cfgB w
    (proxy_request cfgA r peer) audience accountName
  = ReverseProxyAnycastRequestToPeer Do cfgB w (proxy_request cfgA r peer)
      (MapPeerHostname audience primary).
Proof.
  intros Hclient Hfind. split; [apply proxy_request_marks |].
  unfold reverseProxyTokenReqToUpstream. rewrite Hfind.
  now rewrite (proxy_request_not_recognised cfgA r peer Hclient).
Qed.

End AnycastFacts.

Section AnycastExamples.
Import Keppel Auth Anycast.

(** Between two peers that take each other for the primary, a request is
    never turned down by the loop protection: it travels until the network
    gives up, however long that takes. *)
Lemma bounce_until_deadline (n : nat) (req : Request) :
  Values_Get (Query req) "X-Keppel-Forwarded-By" = "" ->
  bounce n req = Err "context deadline exceeded".
Proof.
  revert req. induction n as [| n IH]; intros req Hreq; [reflexivity |].
  cbn [bounce]. unfold reverseProxyTokenReqToUpstream.
  rewrite Hreq. cbn [String.eqb negb].
  unfold ReverseProxyAnycastRequestToPeer.
  now rewrite IH by now apply proxy_request_not_recognised.
Qed.

(** Peer A forwards a client's request to peer B; peer B, which takes peer A
    for the primary, sends it back. *)
Lemma forwarded_token_request_is_forwarded_again_witness :
  Values_Get (Query token_request) "X-Keppel-Forwarded-By" = "" /\
  Header (proxy_request (mkConfiguration hostA "registry-global.example.org")
            token_request hostB) !! "X-Keppel-Forwarded-By"
    = Some [hostA] /\
  reverseProxyTokenReqToUpstream (bounce 5) (fun _ => Ok hostA)
    (mkConfiguration hostB "registry-global.example.org") None
    (proxy_request (mkConfiguration hostA "registry-global.example.org")
       token_request hostB)
    (mkAudience true "") "library"
  = ReverseProxyAnycastRequestToPeer (bounce 5)
      (mkConfiguration hostB "registry-global.example.org") None
      (proxy_request (mkConfiguration hostA "registry-global.example.org")
         token_request hostB)
      (MapPeerHostname (mkAudience true "") hostA).
Proof.
  split; [reflexivity |].
  apply (forwarded_token_request_is_forwarded_again (bounce 5) (fun _ => Ok hostA)
           (mkConfiguration hostA "registry-global.example.org")
           (mkConfiguration hostB "registry-global.example.org")
           None token_request hostB (mkAudience true "") "library" hostA);
    reflexivity.
Defined.

End AnycastExamples.

(** ** Reserved account names *)

Section AccountFacts.
Import Models FederationDriver Accounts.
Context {P : Policies} {FD SD : Type}.
Variable fd_ClaimAccountName : FD -> Account -> string -> FD * (ClaimResult * option string).
Variable sd_CanSetupAccount : ReducedAccount -> SD -> option string.

(** A name that the checks turn down never reaches the database or the
    drivers. *)
Lemma CreateOrUpdateAccount_checked_first (p : Processor FD SD) (account : APIAccount P)
    (userInfo : option string) (getSubleaseToken : string -> result string)
    (setCustomFields : Account -> rresult Account) (rerr : RegistryV2Error) :
  check_account_name (api_Name account) = Some rerr ->
  CreateOrUpdateAccount fd_ClaimAccountName sd_CanSetupAccount p account userInfo
    getSubleaseToken setCustomFields
  = (p, RErr rerr).
Proof. intros H. unfold CreateOrUpdateAccount. now rewrite H. Qed.

(** The names that the checks turn down: the empty name, the names that
    start with keppel, and the names that the regular expression of the
    source matches; the last two with status 422. *)
Lemma check_account_name_rejects (name : AccountName) :
  (name = "" \/ String.prefix "keppel" name = true
   \/ looksLikeAPIVersionRx_MatchString name = true) <->
  exists rerr, check_account_name name = Some rerr.
Proof.
  unfold check_account_name.
  destruct (String.eqb_spec name "") as [-> | Hne].
  { split; [eexists; reflexivity | now left]. }
  destruct (String.prefix "keppel" name) eqn:Hp.
  { split; [eexists; reflexivity | intros _; right; now left]. }
  destruct (looksLikeAPIVersionRx_MatchString name) eqn:Hrx.
  { split; [eexists; reflexivity | intros _; right; now right]. }
  split.
  - intros [H | [H | H]]; [contradiction | discriminate | discriminate].
  - intros [rerr H]. discriminate.
Qed.

Lemma check_account_name_status (name : AccountName) (rerr : RegistryV2Error) :
  check_account_name name = Some rerr ->
  name <> "" ->
  rerr_status rerr = Some StatusUnprocessableEntity.
Proof.
  unfold check_account_name. intros H Hne.
  apply String.eqb_neq in Hne. rewrite Hne in H.
  destruct (String.prefix "keppel" name); [now injection H as <- |].
  destruct (looksLikeAPIVersionRx_MatchString name); [now injection H as <- | discriminate].
Qed.

Lemma all_chars_impl (f g : ascii -> bool) (s : string) :
  (forall c, f c = true -> g c = true) ->
  all_chars f s = true -> all_chars g s = true.
Proof.
  intros Hfg. induction s as [| c s IH]; cbn; [reflexivity |].
  intros H. apply andb_true_iff in H as [Hc Hs].
  now rewrite (Hfg c Hc), (IH Hs).
Qed.

(** The regular expression of the source matches only names of the shape
    [v[0-9]+]: what it misses are the names with a 0 after the first digit. *)
Lemma looksLikeAPIVersionRx_sound (name : string) :
  looksLikeAPIVersionRx_MatchString name = true -> matches_v_digits name = true.
Proof.
  destruct name as [| c0 [| c1 rest]]; cbn; try discriminate.
  intros H. apply andb_true_iff in H as [H Hrest]. rewrite H. cbn.
  apply (all_chars_impl is_digit_1_to_9 is_digit); [| exact Hrest].
  intros c. unfold is_digit_1_to_9, is_digit.
  intros Hc. apply andb_true_iff in Hc as [Hlo Hhi].
  apply Nat.leb_le in Hlo. apply andb_true_iff. split; [apply Nat.leb_le; lia | exact Hhi].
Qed.

(** Among the names of the shape [v[0-9]+], the checks let through exactly
    those that the regular expression of the source misses. *)
Lemma v_digits_name_accepted (name : AccountName) :
  matches_v_digits name = true ->
  (check_account_name name = None <-> looksLikeAPIVersionRx_MatchString name = false).
Proof.
  intros Hv. unfold check_account_name.
  destruct name as [| c0 [| c1 rest]]; try discriminate Hv.
  cbn in Hv. apply andb_true_iff in Hv as [Hv _]. apply andb_true_iff in Hv as [Hv _].
  apply Ascii.eqb_eq in Hv. subst c0.
  change (String "v" (String c1 rest) =? "")%string with false.
  change (String.prefix "keppel" (String "v" (String c1 rest))) with false.
  cbn iota.
  destruct (looksLikeAPIVersionRx_MatchString (String "v" (String c1 rest)));
    split; intros H; try reflexivity; discriminate H.
Qed.

End AccountFacts.

Section AccountExamples.
Import Models FederationDriver Accounts AccountsFixtures.

(** C3 fails at the name v10.  The specification reserves it (it has the
    shape [v[0-9]+]), but the regular expression [^v[0-9][1-9]*$] of the
    source does not match it: the name passes the checks, the account name
    is claimed, and the account row is inserted. *)
Theorem CreateOrUpdateAccount_accepts_v10 :
  reserved_name "v10" = true /\
  matches_v_digits "v10" = true /\
  looksLikeAPIVersionRx_MatchString "v10" = false /\
  check_account_name "v10" = None /\
  exists row : Account,
    snd (create (api_account "v10")) = ROk row /\
    Name row = "v10" /\
    db_accounts (fst (create (api_account "v10"))) !! "v10" = Some row /\
    db_accounts fresh_processor !! "v10" = None.
Proof.
  repeat (split; [reflexivity |]).
  eexists. repeat split; vm_compute; reflexivity.
Qed.

(** The names v1 and v12 are turned down, as are keppel-api and the empty
    name. *)
Example CreateOrUpdateAccount_rejects_v1 :
  create (api_account "v1")
  = (fresh_processor,
     RErr (mkRegistryV2Error
             "account names that look like API versions (e.g. v1) are reserved for internal use"
             (Some 422))).
Proof. reflexivity. Qed.

Example check_account_name_examples :
  is_Some (check_account_name "v12") /\
  is_Some (check_account_name "keppel-api") /\
  is_Some (check_account_name "") /\
  check_account_name "v100" = None /\
  check_account_name "v20" = None /\
  check_account_name "library" = None.
Proof. repeat split; vm_compute; eauto. Qed.

End AccountExamples.

(** ** Replication of blobs *)

Section ReplicationFacts.
Import Models Storage Chunking Replication.
Context {S : Type} `{!StorageDriver S}.
Variable timeNow : Z.
Variable generateStorageID : string.
Variable RepoClient : Type.
Variable getRepoClientForUpstream : ReducedAccount -> Repository -> result RepoClient.
Variable DownloadBlob : RepoClient -> string -> result (Reader * Z).
Variable SafeMediaType : Blob -> string.

(** The upload returns, and leaves the pending_blobs table alone. *)
Lemma uploadBlobToLocal_returns (p : Processor S) (blob : Blob) (account : ReducedAccount)
    (blobReader : Reader) (blobLengthBytes : Z) :
  in_uint64 blobLengthBytes ->
  exists (p' : Processor S) (err : option string),
    uploadBlobToLocal timeNow generateStorageID p blob account blobReader blobLengthBytes
      = Some (p', err) /\
    pending_blobs p' = pending_blobs p.
Proof.
  intros HL. unfold uploadBlobToLocal.
  destruct (AppendToBlob_returns account (mkUpload generateStorageID 0 0) blobReader
              blobLengthBytes (world p) HL) as [[[upload w] err] Happend].
  rewrite Happend. destruct err as [err |].
  - destruct (sd_AbortBlobUpload _ _ _ _) as [s abortErr].
    eexists _, _. split; reflexivity.
  - destruct (sd_FinalizeBlob _ _ _ _) as [s [err |]].
    + destruct (sd_AbortBlobUpload _ _ _ _) as [s' abortErr].
      eexists _, _. split; reflexivity.
    + cbn. eexists _, _. split; reflexivity.
Qed.

Lemma replicate_returns (p : Processor S) (blob : Blob) (account : ReducedAccount)
    (repo : Repository) (w : option ResponseWriter) :
  (forall client digest blobReader blobLengthBytes,
     DownloadBlob client digest = Ok (blobReader, blobLengthBytes) ->
     in_uint64 blobLengthBytes) ->
  exists (p' : Processor S) (w' : option ResponseWriter) (out : bool * option string),
    replicate timeNow generateStorageID RepoClient getRepoClientForUpstream DownloadBlob
      SafeMediaType p blob account repo w = Some (p', w', out) /\
    pending_blobs p' = pending_blobs p.
Proof.
  intros Hlen. unfold replicate.
  destruct (getRepoClientForUpstream account repo) as [client | err];
    [| eexists _, _, _; split; reflexivity].
  destruct (DownloadBlob client (blob_Digest blob)) as [[blobReader blobLengthBytes] | err] eqn:Hd;
    [| eexists _, _, _; split; reflexivity].
  destruct (uploadBlobToLocal_returns p blob account blobReader blobLengthBytes
              (Hlen _ _ _ _ Hd)) as (p' & err & Hup & Hpending).
  rewrite Hup. destruct err as [err |]; eexists _, _, _; (split; [reflexivity | exact Hpending]).
Qed.

(** [ReplicateBlob] without a statement of another worker in between: if
    the row exists when it starts, it returns [ErrConcurrentReplication],
    with [responseWasWritten = false], the response untouched and nothing
    else changed; otherwise it returns, and the pending_blobs table is as it
    was. *)
Lemma ReplicateBlob_on_its_own (p : Processor S) (blob : Blob)
    (account : ReducedAccount) (repo : Repository) (w : option ResponseWriter) :
  (forall client digest blobReader blobLengthBytes,
     DownloadBlob client digest = Ok (blobReader, blobLengthBytes) ->
     in_uint64 blobLengthBytes) ->
  (is_Some (pending_blobs p !! (ra_Name account, blob_Digest blob)) ->
     ReplicateBlob timeNow generateStorageID RepoClient getRepoClientForUpstream
       DownloadBlob SafeMediaType p blob account repo w
     = Some (p, w, (false, Some ErrConcurrentReplication))) /\
  (pending_blobs p !! (ra_Name account, blob_Digest blob) = None ->
     exists (p' : Processor S) (w' : option ResponseWriter) (out : bool * option string),
       ReplicateBlob timeNow generateStorageID RepoClient getRepoClientForUpstream
         DownloadBlob SafeMediaType p blob account repo w
       = Some (p', w', out) /\
       pending_blobs p' !! (ra_Name account, blob_Digest blob) = None /\
       pending_blobs p' = pending_blobs p).
Proof.
  intros Hlen. unfold ReplicateBlob, insert_pending_blob, count_pending_blobs.
  cbn [pb_AccountName pb_Digest]. split.
  - intros [row Hrow]. rewrite Hrow. reflexivity.
  - intros Hfree. rewrite Hfree.
    match goal with
    | |- context [replicate _ _ _ _ _ _ ?p1 _ _ _ _] =>
        destruct (replicate_returns p1 blob account repo w Hlen)
          as (p' & w' & [written returnErr] & Hrun & Hpending)
    end.
    rewrite Hrun. cbn [pending_blobs] in Hpending.
    eexists _, _, _. split; [reflexivity |]. cbn [pending_blobs].
    rewrite Hpending, delete_insert_eq, delete_id by exact Hfree.
    split; [exact Hfree | reflexivity].
Qed.

End ReplicationFacts.

Section ReplicationExamples.
Import Models Storage Chunking Replication ReplicationFixtures.

Lemma upstream_download_length :
  forall (client : unit) (digest : string) (blobReader : Reader) (blobLengthBytes : Z),
    upstream_download client digest = Ok (blobReader, blobLengthBytes) ->
    in_uint64 blobLengthBytes.
Proof. intros client digest r l [= <- <-]. unfold in_uint64. lia. Qed.

(** One worker finds the blob busy, another finds it idle and replicates it. *)
Example ReplicateBlob_on_its_own_busy_and_idle :
  replicate_on busy = Some (busy, Some empty_response, (false, Some ErrConcurrentReplication)) /\
  exists (p' : Processor Trivial.StorageDriver) (w' : option ResponseWriter)
         (out : bool * option string),
    replicate_on idle = Some (p', w', out) /\
    pending_blobs p' !! ("library", blob_Digest config_blob) = None /\
    pending_blobs p' = pending_blobs idle.
Proof.
  split.
  - apply (ReplicateBlob_on_its_own 3600 "6b86b273" unit upstream_client
             upstream_download blob_MediaType busy config_blob replica_account alpine
             (Some empty_response) upstream_download_length).
    vm_compute. eauto.
  - apply (ReplicateBlob_on_its_own 3600 "6b86b273" unit upstream_client
             upstream_download blob_MediaType idle config_blob replica_account alpine
             (Some empty_response) upstream_download_length).
    reflexivity.
Qed.

(** The replication of the idle blob, in full: the three bytes go to the
    client and to the storage, and the blob row is backed. *)
Example ReplicateBlob_idle :
  exists p' rw,
    replicate_on idle = Some (p', Some rw, (true, None)) /\
    rw_Status rw = Some 200 /\
    rw_Header rw !! "Content-Length" = Some "3" /\
    rw_Body rw = [Byte.x7b; Byte.x7d; Byte.x0a] /\
    option_map blob_StorageID (blobs p' !! 1) = Some "6b86b273" /\
    BlobsPushedCounter p' = 1%nat.
Proof. eexists _, _. vm_compute. repeat split. Qed.

End ReplicationExamples.

(** ** Replication among several workers *)

Section WorkersFacts.
Import Models Storage Chunking Replication Workers.
Context {S : Type} `{!StorageDriver S}.
Variable timeNow : Z.
Variable generateStorageID : string.
Variable RepoClient : Type.
Variable getRepoClientForUpstream : ReducedAccount -> Repository -> result RepoClient.
Variable DownloadBlob : RepoClient -> string -> result (Reader * Z).
Variable SafeMediaType : Blob -> string.









End WorkersFacts.

Section WorkersExamples.
Import Models Storage Chunking Replication Workers ReplicationFixtures WorkersFixtures.



(** C4 (as stated) fails when the other worker finishes in between.  The
    first call has inserted its row when the second one starts, so that the
    INSERT of the second one fails; the first call then replicates the blob
    and deletes its row; the second call now counts no row, and returns
    without [ErrConcurrentReplication]: no error at all, and no response
    written. *)
Lemma ReplicateBlob_finished_in_between_counterexample :
  row_pending_after [0]%nat = Some true /\
  stage_after [0]%nat 1 = Some BeforeInsert /\
  stage_after [0; 1]%nat 1 = Some BeforeCount /\
  row_pending_after [0; 1; 0; 0]%nat = Some false /\
  stage_after [0; 1; 0; 0; 1]%nat 1
  = Some (Returned (Some empty_response) (false, None)) /\
  stage_after [0; 1; 0; 0; 1]%nat 1
  <> Some (Returned (Some empty_response) (false, Some ErrConcurrentReplication)).
Proof.
  split; [vm_compute; reflexivity |]. split; [vm_compute; reflexivity |].
  split; [vm_compute; reflexivity |]. split; [vm_compute; reflexivity |].
  assert (H : stage_after [0; 1; 0; 0; 1]%nat 1
              = Some (Returned (Some empty_response) (false, None)))
    by (vm_compute; reflexivity).
  split; [exact H |]. rewrite H. discriminate.
Qed.

End WorkersExamples.

(** ** Deleting accounts *)

Section AccountDeletionFacts.
Import Models AccountDeletion.
Context {SD FD : Type}.
Variable timeNow : Z.
Variable digest_Parse : string -> result string.
Variable sd_DeleteManifest : ReducedAccount -> string -> string -> SD -> SD * option string.
Variable sd_CleanupAccount : ReducedAccount -> SD -> SD * option string.
Variable fd_ForfeitAccountName : Account -> FD -> FD * option string.

Lemma filter_out_shorter {A : Type} (f : A -> bool) (l : list A) :
  existsb f l = true ->
  (length (List.filter (fun x => negb (f x)) l) < length l)%nat.
Proof.
  induction l as [| x l IH]; cbn; [discriminate |].
  destruct (f x) eqn:E; cbn.
  - intros _. pose proof (filter_length_le (fun x => negb (f x)) l). lia.
  - intros H. specialize (IH H). lia.
Qed.

(** What a successful [DeleteManifest] does to the tables. *)
Lemma DeleteManifest_ok (j j' : Janitor SD FD) (account : ReducedAccount)
    (repo : Repository) (digest : string) :
  DeleteManifest sd_DeleteManifest j account repo digest = (j', None) ->
  accounts (db j') = accounts (db j) /\
  repos (db j') = repos (db j) /\
  blobs (db j') = blobs (db j) /\
  fd j' = fd j /\
  manifests (db j')
    = List.filter (fun m => negb (is_manifest (repo_ID repo) digest m)) (manifests (db j)) /\
  existsb (is_manifest (repo_ID repo) digest) (manifests (db j)) = true.
Proof.
  unfold DeleteManifest.
  destruct (has_parent (db j) (repo_ID repo) digest); [discriminate |].
  destruct (existsb (is_manifest (repo_ID repo) digest) (manifests (db j))) eqn:E;
    cbn [negb]; [| discriminate].
  destruct (sd_DeleteManifest account (repo_Name repo) digest (sd j)) as [s0 err].
  intros [= <- ->]. cbn. repeat split; reflexivity.
Qed.

Lemma FindRepository_repos (d d' : DB) (repoName : string) (accountName : AccountName) :
  repos d' = repos d ->
  FindRepository d' repoName accountName = FindRepository d repoName accountName.
Proof. unfold FindRepository. now intros ->. Qed.

(** The loop over the root manifests, when every deletion succeeds: it
    counts one deletion per row, touches only the manifests and their
    references, never adds a manifest, and the manifest of every row is
    gone afterwards. *)
Lemma foreach_manifest_row_ok (a : Account) :
  forall (rows : list (string * string)) (j j1 : Janitor SD FD) (c n : nat),
    foreach_manifest_row digest_Parse sd_DeleteManifest j a rows c = (j1, n, None) ->
    n = (c + length rows)%nat /\
    accounts (db j1) = accounts (db j) /\
    repos (db j1) = repos (db j) /\
    blobs (db j1) = blobs (db j) /\
    fd j1 = fd j /\
    (forall m, In m (manifests (db j1)) -> In m (manifests (db j))) /\
    (length (manifests (db j1)) + length rows <= length (manifests (db j)))%nat /\
    (forall repoName digestStr,
       In (repoName, digestStr) rows ->
       exists d repo,
         digest_Parse digestStr = Ok d /\
         FindRepository (db j) repoName (Name a) = Ok repo /\
         forall m, In m (manifests (db j1)) -> is_manifest (repo_ID repo) d m = false).
Proof.
  induction rows as [| [repoName digestStr] rest IH]; intros j j1 c n; cbn [foreach_manifest_row].
  - intros [= <- <-]. cbn. repeat split; try lia; try tauto.
  - unfold delete_manifest_row at 1.
    destruct (digest_Parse digestStr) as [parsed | e] eqn:Hparse; [| discriminate].
    destruct (FindRepository (db j) repoName (Name a)) as [repo | e] eqn:Hfind; [| discriminate].
    destruct (DeleteManifest sd_DeleteManifest j (Accounts.Reduced a) repo parsed)
      as [j' [e |]] eqn:Hdel; [discriminate |].
    intros Hrest.
    destruct (DeleteManifest_ok _ _ _ _ _ Hdel) as (Ha & Hr & Hb & Hf & Hm & Hex).
    destruct (IH _ _ _ _ Hrest) as (Hn & Ha' & Hr' & Hb' & Hf' & Hsub & Hlen & Hgone).
    assert (Hsub' : forall m, In m (manifests (db j')) -> In m (manifests (db j))).
    { intros m. rewrite Hm, filter_In. tauto. }
    split; [cbn [length]; lia |].
    split; [congruence |]. split; [congruence |]. split; [congruence |].
    split; [congruence |]. split; [auto |]. split.
    + pose proof (filter_out_shorter _ _ Hex) as Hlt. rewrite <- Hm in Hlt.
      cbn [length]. lia.
    + intros repoName' digestStr' [Heq | Hin].
      * injection Heq as <- <-. exists parsed, repo.
        split; [exact Hparse |]. split; [exact Hfind |].
        intros m Hmem. apply Hsub in Hmem. rewrite Hm, filter_In in Hmem.
        destruct Hmem as [_ Hneg]. now apply negb_true_iff in Hneg.
      * destruct (Hgone repoName' digestStr' Hin) as (d & repo' & Hp & Hfr & Hno).
        exists d, repo'. split; [exact Hp |]. split; [| exact Hno].
        now rewrite <- (FindRepository_repos (db j) (db j') _ _ Hr).
Qed.





Lemma account_manifests_nil (d : DB) (accountName : AccountName) :
  (forall r, In r (repos d) -> repo_AccountName r <> accountName) ->
  account_manifests d accountName (fun _ _ => true) = [].
Proof.
  intros H. unfold account_manifests.
  induction (manifests d) as [| m ms IH]; cbn [flat_map]; [reflexivity |].
  rewrite IH, app_nil_r. clear IH.
  revert H. generalize (repos d) as rs.
  induction rs as [| r rs IHr]; intros H; cbn [flat_map]; [reflexivity |].
  rewrite IHr by (intros r' Hr'; apply H; now right).
  rewrite (proj2 (String.eqb_neq _ _) (H r (or_introl eq_refl))).
  now rewrite andb_false_r.
Qed.

(** C10, if [keppel.FindAccount] reported a missing account as
    [sql.ErrNoRows]: the task would return nil and touch nothing. *)
Lemma deleteMarkedAccount_on_ErrNoRows (FindAccount : gmap AccountName Account -> AccountName -> result (option Account))
    (fuel : nat) (j : Janitor SD FD) (accountName : AccountName) :
  FindAccount (accounts (db j)) accountName = Err ErrNoRows ->
  deleteMarkedAccount timeNow digest_Parse sd_DeleteManifest sd_CleanupAccount
    fd_ForfeitAccountName FindAccount fuel j accountName
  = Some (Return j None).
Proof.
  intros H. destruct fuel; cbn [deleteMarkedAccount];
    unfold deleteMarkedAccount_body; now rewrite H.
Qed.

(** C10 fails with the [keppel.FindAccount] that the rest of the code relies
    on, which reports a missing account as a nil pointer without an error:
    the guard for [sql.ErrNoRows] is passed over, and the task panics on
    [accountModel.Name] instead of returning nil. *)
Theorem deleteMarkedAccount_missing_account_panics (fuel : nat) (j : Janitor SD FD)
    (accountName : AccountName) :
  accounts (db j) !! accountName = None ->
  deleteMarkedAccount timeNow digest_Parse sd_DeleteManifest sd_CleanupAccount
    fd_ForfeitAccountName Accounts.FindAccount fuel j accountName
  = Some (Panic j nil_dereference).
Proof.
  intros H. destruct fuel; cbn [deleteMarkedAccount];
    unfold deleteMarkedAccount_body, Accounts.FindAccount; now rewrite H.
Qed.

(** A call of the task on itself leaves fewer manifests than there were. *)
Lemma Recurse_fewer_manifests
    (FindAccount : gmap AccountName Account -> AccountName -> result (option Account))
    (j j' : Janitor SD FD) (accountName : AccountName) :
  deleteMarkedAccount_body timeNow digest_Parse sd_DeleteManifest sd_CleanupAccount
    fd_ForfeitAccountName FindAccount j accountName = Recurse j' ->
  (length (manifests (db j')) < length (manifests (db j)))%nat.
Proof.
  unfold deleteMarkedAccount_body.
  destruct (FindAccount (accounts (db j)) accountName) as [[a |] | e];
    [| discriminate | destruct (e =? ErrNoRows)%string; discriminate].
  destruct (foreach_manifest_row _ _ j a _ 0) as [[j1 n] [e |]] eqn:Hloop; [discriminate |].
  destruct (0 <? deleteAccountCountManifestsQuery (db j1) (Name a)).
  - destruct (0 <? n)%nat eqn:Hn; [| discriminate]. intros [= <-].
    apply Nat.ltb_lt in Hn.
    destruct (foreach_manifest_row_ok a _ _ _ _ _ Hloop) as (Hcount & _ & _ & _ & _ & _ & Hlen & _).
    lia.
  - destruct (0 <? deleteAccountCountBlobsQuery _ _); [discriminate |].
    destruct (sd_CleanupAccount _ _) as [s0 [e |]]; [discriminate |].
    destruct (fd_ForfeitAccountName _ _) as [f0 [e |]]; discriminate.
Qed.

(** The task returns (or panics): a recursion depth of the number of
    manifest rows is always enough. *)
Lemma deleteMarkedAccount_returns
    (FindAccount : gmap AccountName Account -> AccountName -> result (option Account))
    (accountName : AccountName) :
  forall (fuel : nat) (j : Janitor SD FD),
    (length (manifests (db j)) <= fuel)%nat ->
    exists out,
      deleteMarkedAccount timeNow digest_Parse sd_DeleteManifest sd_CleanupAccount
        fd_ForfeitAccountName FindAccount fuel j accountName = Some out /\
      forall j', out <> Recurse j'.
Proof.
  induction fuel as [| fuel IH]; intros j Hfuel; cbn [deleteMarkedAccount].
  - destruct (deleteMarkedAccount_body _ _ _ _ _ _ j accountName) as [j' e | j' | j' msg] eqn:Hbody.
    + eexists. split; [reflexivity | discriminate].
    + apply Recurse_fewer_manifests in Hbody. lia.
    + eexists. split; [reflexivity | discriminate].
  - destruct (deleteMarkedAccount_body _ _ _ _ _ _ j accountName) as [j' e | j' | j' msg] eqn:Hbody.
    + eexists. split; [reflexivity | discriminate].
    + apply Recurse_fewer_manifests in Hbody. apply IH. lia.
    + eexists. split; [reflexivity | discriminate].
Qed.


End AccountDeletionFacts.

Section AccountDeletionExamples.
Import Models AccountDeletion DeletionFixtures.




(** C5 (as stated) fails: the task does not always delete all root
    manifests first, and it does not always call itself again when
    manifests remain and one was deleted.  Of three images, the storage
    driver cannot delete the second: the first one is gone, the third one
    (a root manifest) is still there, and the task has returned the error of
    the driver instead of calling itself again. *)
Lemma deleteMarkedAccount_failed_deletion_counterexample :
  exists (j1 : Janitor unit unit) (msg : string),
    map (fun rm => m_Digest (snd rm)) (root_manifests (db three_images) "test1")
    = [amd64_digest; arm_digest; list_digest] /\
    deleteMarkedAccount clock parse_digest storage_fails_on_arm storage_cleanup forfeit
      Accounts.FindAccount 3 three_images "test1"
    = Some (Return j1 (Some msg)) /\
    manifests (db j1) = [mkManifestRow 1 list_digest] /\
    deleteAccountCountManifestsQuery (db j1) "test1" = 1 /\
    forall j', deleteMarkedAccount_body clock parse_digest storage_fails_on_arm
                 storage_cleanup forfeit Accounts.FindAccount three_images "test1"
               <> Recurse j'.
Proof.
  eexists _, _. split; [reflexivity |].
  split; [vm_compute; reflexivity |].
  split; [reflexivity |]. split; [reflexivity |].
  intros j'. vm_compute. discriminate.
Qed.

(** The whole task on the marked account: three activations, after which
    the repos are gone, the blobs are marked and the account waits for the
    blob sweep. *)
Example deleteMarkedAccount_scenario :
  exists j3,
    run 3 marked = Some (Return j3 None) /\
    manifests (db j3) = [] /\
    repos (db j3) = [] /\
    map blob_CanBeDeletedAt (blobs (db j3)) = [Some 7200; Some 7200] /\
    option_map NextDeletionAttemptAt (accounts (db j3) !! "test1") = Some (Some 7260).
Proof. eexists. vm_compute. repeat split. Qed.

(** The task on an account whose row is gone. *)
Lemma deleteMarkedAccount_missing_account_panics_witness :
  accounts (db already_deleted) !! "test1" = None /\
  run 3 already_deleted = Some (Panic already_deleted nil_dereference).
Proof.
  split; [reflexivity |].
  apply (deleteMarkedAccount_missing_account_panics clock parse_digest
           storage_delete_manifest storage_cleanup forfeit 3 already_deleted "test1").
  reflexivity.
Defined.

End AccountDeletionExamples.

(** ** The federation driver: claims, subleases and forfeits *)

Section FederationLifecycle.
Import Models FederationDriver FederationSwift.

(** [sort.Strings] keeps the elements. *)
Lemma insert_sorted_In (x y : string) (l : list string) :
  In y (insert_sorted x l) <-> y = x \/ In y l.
Proof.
  induction l as [| z l IH]; cbn.
  - intuition congruence.
  - destruct (String.leb x z); cbn; [intuition congruence |].
    rewrite IH. intuition congruence.
Qed.

Lemma sort_strings_In (y : string) (l : list string) :
  In y (sort_strings l) <-> In y l.
Proof.
  induction l as [| x l IH]; cbn; [reflexivity |].
  rewrite insert_sorted_In, IH. intuition congruence.
Qed.

Lemma existsb_eqb_In (value : string) (l : list string) :
  existsb (String.eqb value) l = true <-> In value l.
Proof.
  rewrite existsb_exists. split.
  - intros (x & Hin & Heq). apply String.eqb_eq in Heq. now subst.
  - intros Hin. exists value. split; [exact Hin | apply String.eqb_refl].
Qed.

Lemma insert_sorted_ascending (x : string) (l : list string) :
  ascending l = true -> ascending (insert_sorted x l) = true.
Proof.
  induction l as [| y l IH]; [reflexivity |].
  intros Hl. cbn [insert_sorted].
  destruct (String.leb x y) eqn:E.
  - cbn [ascending]. now rewrite E.
  - assert (Hyx : String.leb y x = true).
    { destruct (String.leb_total x y) as [H | H]; congruence. }
    assert (Htail : ascending l = true).
    { destruct l; [reflexivity |]. cbn [ascending] in Hl.
      now apply andb_true_iff in Hl as [_ Hl]. }
    specialize (IH Htail).
    destruct l as [| z l]; cbn [insert_sorted ascending] in *.
    + now rewrite Hyx.
    + apply andb_true_iff in Hl as [Hyz _].
      destruct (String.leb x z); cbn [ascending] in *.
      * now rewrite Hyx, IH.
      * now rewrite Hyz, IH.
Qed.

Lemma sort_strings_ascending (l : list string) : ascending (sort_strings l) = true.
Proof.
  induction l as [| x l IH]; [reflexivity |].
  cbn [sort_strings fold_right]. now apply insert_sorted_ascending.
Qed.

Lemma sort_strings_of_ascending (l : list string) :
  ascending l = true -> sort_strings l = l.
Proof.
  induction l as [| x l IH]; [reflexivity |].
  intros Hl. cbn [sort_strings fold_right]. fold (sort_strings l).
  destruct l as [| y l]; [reflexivity |].
  cbn [ascending] in Hl. apply andb_true_iff in Hl as [Hxy Hl].
  rewrite (IH Hl). cbn [insert_sorted]. now rewrite Hxy.
Qed.

Lemma sort_strings_idempotent (l : list string) :
  sort_strings (sort_strings l) = sort_strings l.
Proof. apply sort_strings_of_ascending, sort_strings_ascending. Qed.

Variable fd : federationDriverSwift.

Lemma with_primary_same (file : accountFile) :
  with_primary file (PrimaryHostName file) = file.
Proof. now destruct file. Qed.

Lemma with_replicas_same (file : accountFile) :
  with_replicas file (ReplicaHostNames file) = file.
Proof. now destruct file. Qed.

Lemma unchanged_same (file : accountFile) (same_slice : bool) :
  ascending (default [] (ReplicaHostNames file)) = true ->
  unchanged file file same_slice = true.
Proof.
  intros Hasc. unfold unchanged. apply bool_decide_eq_true.
  destruct same_slice; [reflexivity |].
  destruct file as [n p [l |] s]; [| reflexivity].
  unfold sort_replicas. cbn in *. now rewrite sort_strings_of_ascending.
Qed.

Lemma readAccountFile_written (c : Container) (name : AccountName) (file : accountFile) :
  readAccountFile (<[accountFileObj name := stored (sort_replicas file)]> c) name
  = written name file.
Proof. now rewrite readAccountFile_insert. Qed.

(** The two ways in which [modifyAccountFile] returns nil. *)
Lemma modifyAccountFile_no_write (c : Container) (name : AccountName)
    (modify : accountFile -> bool -> modify_outcome) (m1 : accountFile) (s1 : bool) :
  modify (readAccountFile c name) true = Modified m1 s1 ->
  unchanged (readAccountFile c name) m1 s1 = true ->
  modifyAccountFile c name modify = (c, None).
Proof. intros Hm Hu. unfold modifyAccountFile. now rewrite Hm, Hu. Qed.

Lemma modifyAccountFile_write (c : Container) (name : AccountName)
    (modify : accountFile -> bool -> modify_outcome) (m1 m2 : accountFile) (s1 s2 : bool) :
  modify (readAccountFile c name) true = Modified m1 s1 ->
  unchanged (readAccountFile c name) m1 s1 = false ->
  modify (written name m1) false = Modified m2 s2 ->
  unchanged (written name m1) m2 s2 = true ->
  modifyAccountFile c name modify
  = (<[accountFileObj name := stored (sort_replicas m1)]> c, None).
Proof.
  intros Hm Hu Hm2 Hu2. unfold modifyAccountFile.
  now rewrite Hm, Hu, readAccountFile_written, Hm2, Hu2.
Qed.

(** After a successful primary claim the account file names this peer as
    the primary. *)
Lemma claimPrimaryAccount_owner (c c' : Container) (account : Account) (secret : string) :
  claimPrimaryAccount fd c account secret = (c', None) ->
  PrimaryHostName (readAccountFile c' (Name account)) = OwnHostName fd.
Proof.
  unfold claimPrimaryAccount.
  destruct (negb (secret =? "")%string); [discriminate |].
  unfold modifyAccountFile.
  set (file0 := readAccountFile c (Name account)).
  destruct ((PrimaryHostName file0 =? "")%string
            || (PrimaryHostName file0 =? OwnHostName fd)%string); [| discriminate].
  destruct (unchanged file0 (with_primary file0 (OwnHostName fd)) true) eqn:U.
  - intros [= <-]. unfold unchanged in U. apply bool_decide_eq_true in U.
    apply (f_equal PrimaryHostName) in U. exact U.
  - rewrite readAccountFile_insert. cbn [PrimaryHostName stored sort_replicas with_primary].
    rewrite String.eqb_refl, orb_true_r.
    match goal with
    | |- context [negb ?b] => destruct b
    end; cbn [negb]; [| discriminate].
    intros [= <-]. now rewrite readAccountFile_insert.
Qed.

(** Once a peer holds an account name as primary, no other peer gets it:
    the primary claim of a peer with another hostname is turned down as a
    user error, whatever sublease token it presents, and the account file
    stays as it is. *)
Theorem primary_claim_is_exclusive (other : federationDriverSwift) (c c' : Container)
    (account account' : Account) (secret secret' : string) :
  UpstreamPeerHostName account = "" ->
  UpstreamPeerHostName account' = "" ->
  Name account' = Name account ->
  OwnHostName fd <> "" ->
  OwnHostName other <> OwnHostName fd ->
  ClaimAccountName fd c account secret = (c', (ClaimSucceeded, None)) ->
  exists msg,
    ClaimAccountName other c' account' secret' = (c', (ClaimFailed, Some msg)).
Proof.
  intros Hup Hup' Hname Hown Hother.
  unfold ClaimAccountName. rewrite Hup, Hup'. cbn [String.eqb negb].
  destruct (claimPrimaryAccount fd c account secret) as [c1 out] eqn:E.
  destruct out as [[[|] msg] |]; try discriminate.
  intros [= <-]. apply claimPrimaryAccount_owner in E.
  unfold claimPrimaryAccount.
  destruct (negb (secret' =? "")%string); [eexists; reflexivity |].
  unfold modifyAccountFile. rewrite Hname, E.
  apply String.eqb_neq in Hown. rewrite Hown.
  assert (Hne : (OwnHostName fd =? OwnHostName other)%string = false).
  { apply String.eqb_neq. congruence. }
  rewrite Hne. cbn [orb]. eexists; reflexivity.
Qed.

(** Forfeiting is the inverse of claiming: a peer that claims a free name
    as primary gets it and is then found as the primary of the name; when it
    forfeits the name, the container is as it was before the claim, and the
    name has no primary any more. *)
Theorem ForfeitAccountName_releases_primary_claim (c : Container) (account : Account) :
  UpstreamPeerHostName account = "" ->
  OwnHostName fd <> "" ->
  c !! accountFileObj (Name account) = None ->
  exists c' : Container,
    ClaimAccountName fd c account "" = (c', (ClaimSucceeded, None)) /\
    FindPrimaryAccount c' (Name account) = Ok (OwnHostName fd) /\
    ForfeitAccountName fd c' account = (c, None) /\
    FindPrimaryAccount c (Name account) = Err ErrNoSuchPrimaryAccount.
Proof.
  intros Hup Hown Hfree.
  assert (Hown' : (OwnHostName fd =? "")%string = false) by now apply String.eqb_neq.
  set (file0 := mkAccountFile (Name account) "" None "").
  set (file1 := mkAccountFile (Name account) (OwnHostName fd) None "").
  assert (Hread : readAccountFile c (Name account) = file0).
  { unfold readAccountFile. now rewrite Hfree. }
  exists (<[accountFileObj (Name account) := stored (sort_replicas file1)]> c).
  assert (Hread1 : readAccountFile
                     (<[accountFileObj (Name account) := stored (sort_replicas file1)]> c)
                     (Name account) = file1).
  { now rewrite readAccountFile_written. }
  split; [| split; [| split]].
  - unfold ClaimAccountName, claimPrimaryAccount.
    rewrite Hup. cbn [String.eqb negb].
    erewrite (modifyAccountFile_write c (Name account) _ file1 file1 true true);
      [reflexivity | | | |].
    + now rewrite Hread.
    + rewrite Hread. unfold unchanged. apply bool_decide_eq_false.
      cbn. intros [= H]. congruence.
    + change (written (Name account) file1) with file1.
      cbn [PrimaryHostName file1]. now rewrite String.eqb_refl, orb_true_r.
    + now apply unchanged_same.
  - unfold FindPrimaryAccount. rewrite Hread1. cbn [PrimaryHostName file1]. now rewrite Hown'.
  - unfold ForfeitAccountName. rewrite Hup. cbn [String.eqb negb]. rewrite Hread1.
    unfold verifyAccountOwnership. cbn [PrimaryHostName ReplicaHostNames file1].
    rewrite String.eqb_refl. cbn [negb default length Nat.ltb Nat.leb].
    rewrite lookup_insert_eq, delete_insert_eq.
    rewrite delete_id by exact Hfree. reflexivity.
  - unfold FindPrimaryAccount. now rewrite Hread.
Qed.

Lemma unchanged_same_slice (file : accountFile) : unchanged file file true = true.
Proof. unfold unchanged. now apply bool_decide_eq_true. Qed.

Lemma with_secret_same (file : accountFile) :
  with_secret file (SubleaseTokenSecret file) = file.
Proof. now destruct file. Qed.

(** The primary of an account can always issue a sublease token; the
    account file then holds the token. *)
Lemma IssueSubleaseTokenSecret_ok (c : Container) (account : Account) (token : string) :
  UpstreamPeerHostName account = "" ->
  PrimaryHostName (readAccountFile c (Name account)) = OwnHostName fd ->
  exists c1 : Container,
    IssueSubleaseTokenSecret fd c account token = (c1, (token, None)) /\
    PrimaryHostName (readAccountFile c1 (Name account)) = OwnHostName fd /\
    SubleaseTokenSecret (readAccountFile c1 (Name account)) = token.
Proof.
  intros Hup Hprimary. unfold IssueSubleaseTokenSecret. rewrite Hup. cbn [String.eqb negb].
  set (file0 := readAccountFile c (Name account)) in *.
  set (modify := fun (file : accountFile) (_ : bool) =>
                   match verifyAccountOwnership file (OwnHostName fd) with
                   | Some msg => Rejected false msg
                   | None => Modified (with_secret file token) true
                   end).
  assert (Hm : forall file pass, PrimaryHostName file = OwnHostName fd ->
                 modify file pass = Modified (with_secret file token) true).
  { intros file pass H. unfold modify, verifyAccountOwnership.
    now rewrite H, String.eqb_refl. }
  destruct (unchanged file0 (with_secret file0 token) true) eqn:U.
  - exists c. rewrite (modifyAccountFile_no_write c (Name account) modify _ _
                         (Hm _ _ Hprimary) U).
    split; [reflexivity |]. split; [exact Hprimary |].
    unfold unchanged in U. apply bool_decide_eq_true in U.
    now apply (f_equal SubleaseTokenSecret) in U.
  - eexists.
    rewrite (modifyAccountFile_write c (Name account) modify
               (with_secret file0 token)
               (with_secret (written (Name account) (with_secret file0 token)) token)
               true true (Hm _ _ Hprimary) U).
    + split; [reflexivity |]. rewrite readAccountFile_written. split; [exact Hprimary | reflexivity].
    + apply Hm. exact Hprimary.
    + change (with_secret (written (Name account) (with_secret file0 token)) token)
        with (written (Name account) (with_secret file0 token)).
      apply unchanged_same_slice.
Qed.

(** A replica claim that presents the token of the account file, for an
    account whose primary is the claimed upstream, goes through: it enters
    the peer in the replica list and uses up the token. *)
Lemma claimReplicaAccount_ok (c1 : Container) (replica : Account) (token : string) :
  token <> "" ->
  SubleaseTokenSecret (readAccountFile c1 (Name replica)) = token ->
  PrimaryHostName (readAccountFile c1 (Name replica)) = UpstreamPeerHostName replica ->
  exists c2 : Container,
    claimReplicaAccount fd c1 replica token = (c2, None) /\
    In (OwnHostName fd)
       (default [] (ReplicaHostNames (readAccountFile c2 (Name replica)))) /\
    PrimaryHostName (readAccountFile c2 (Name replica)) = UpstreamPeerHostName replica /\
    SubleaseTokenSecret (readAccountFile c2 (Name replica)) = "".
Proof.
  intros Htoken Hsecret Hprimary. unfold claimReplicaAccount.
  apply String.eqb_neq in Htoken. rewrite Htoken.
  set (file1 := readAccountFile c1 (Name replica)) in *.
  match goal with
  | |- context [modifyAccountFile _ _ ?f] => set (modify := f)
  end.
  destruct (addStringToList (ReplicaHostNames file1) (OwnHostName fd)) as [l same] eqn:Hadd.
  set (m1 := with_replicas (with_secret file1 "") l).
  assert (Hin : In (OwnHostName fd) (default [] l)).
  { unfold addStringToList in Hadd.
    destruct (existsb (String.eqb (OwnHostName fd)) (default [] (ReplicaHostNames file1))) eqn:E;
      injection Hadd as <- <-.
    - now apply existsb_eqb_In.
    - cbn. apply in_or_app. right. now left. }
  assert (Hm1 : modify file1 true = Modified m1 same).
  { unfold modify. rewrite Hsecret, String.eqb_refl. cbn [negb].
    unfold verifyAccountOwnership. cbn [with_secret PrimaryHostName].
    fold file1. rewrite Hprimary, String.eqb_refl. cbn [negb].
    change (ReplicaHostNames (with_secret file1 "")) with (ReplicaHostNames file1).
    now rewrite Hadd. }
  assert (U1 : unchanged file1 m1 same = false).
  { unfold unchanged. apply bool_decide_eq_false. intros Heq.
    apply (f_equal SubleaseTokenSecret) in Heq.
    apply String.eqb_neq in Htoken.
    destruct same; cbn in Heq; fold file1 in Heq; congruence. }
  set (file2 := written (Name replica) m1).
  assert (Hin2 : existsb (String.eqb (OwnHostName fd)) (default [] (ReplicaHostNames file2))
                 = true).
  { apply existsb_eqb_In. cbn [file2 written ReplicaHostNames m1 with_replicas].
    destruct l as [l |]; cbn in *; [now apply sort_strings_In | exact Hin]. }
  assert (Hm2 : modify file2 false = Modified file2 true).
  { unfold modify. unfold verifyAccountOwnership.
    cbn [file2 written PrimaryHostName m1 with_replicas with_secret].
    fold file1. rewrite Hprimary, String.eqb_refl. cbn [negb].
    fold m1. fold file2. unfold addStringToList. rewrite Hin2.
    now rewrite with_replicas_same. }
  exists (<[accountFileObj (Name replica) := stored (sort_replicas m1)]> c1).
  rewrite (modifyAccountFile_write c1 (Name replica) modify m1 file2 same true
             Hm1 U1 Hm2 (unchanged_same_slice file2)).
  split; [reflexivity |]. rewrite readAccountFile_written. fold file2.
  split; [| split].
  - apply existsb_eqb_In. exact Hin2.
  - cbn. fold file1. exact Hprimary.
  - reflexivity.
Qed.

Lemma claimReplicaAccount_inv (c c' : Container) (account : Account) (secret : string) :
  claimReplicaAccount fd c account secret = (c', None) ->
  secret <> "" /\
  SubleaseTokenSecret (readAccountFile c (Name account)) = secret /\
  PrimaryHostName (readAccountFile c (Name account)) = UpstreamPeerHostName account.
Proof.
  unfold claimReplicaAccount.
  destruct (String.eqb_spec secret "") as [-> | Hsecret]; [discriminate |].
  unfold modifyAccountFile.
  set (file0 := readAccountFile c (Name account)).
  destruct (String.eqb_spec (SubleaseTokenSecret file0) secret) as [Htok | Htok];
    cbn [negb]; [| discriminate].
  unfold verifyAccountOwnership. cbn [with_secret PrimaryHostName].
  destruct (String.eqb_spec (PrimaryHostName file0) (UpstreamPeerHostName account))
    as [Hp | Hp]; cbn [negb]; [| discriminate].
  intros _. auto.
Qed.

(** After a successful claim, primary or replica, the regular announcement
    of the account finds the account file in order: [RecordExistingAccount]
    returns nil and writes nothing. *)
Theorem RecordExistingAccount_after_claim (c c' : Container) (account : Account)
    (secret : string) :
  ClaimAccountName fd c account secret = (c', (ClaimSucceeded, None)) ->
  RecordExistingAccount fd c' account = (c', None).
Proof.
  unfold ClaimAccountName, RecordExistingAccount.
  destruct (String.eqb_spec (UpstreamPeerHostName account) "") as [Hup | Hup]; cbn [negb].
  - (* a primary account *)
    destruct (claimPrimaryAccount fd c account secret) as [c1 out] eqn:E.
    destruct out as [[[|] msg] |]; try discriminate.
    intros [= <-]. apply claimPrimaryAccount_owner in E.
    erewrite (modifyAccountFile_no_write c1 (Name account) _
                (readAccountFile c1 (Name account)) true); [reflexivity | |].
    + cbn beta. rewrite E, String.eqb_refl, orb_true_r.
      rewrite <- E at 1. now rewrite with_primary_same.
    + apply unchanged_same_slice.
  - (* a replica account *)
    destruct (claimReplicaAccount fd c account secret) as [c1 out] eqn:E.
    destruct out as [[[|] msg] |]; try discriminate.
    intros [= <-].
    destruct (claimReplicaAccount_inv _ _ _ _ E) as (Hsecret & Htok & Hprimary).
    destruct (claimReplicaAccount_ok c account secret Hsecret Htok Hprimary)
      as (c2 & Hrun & Hin & Hprimary2 & _).
    rewrite E in Hrun. injection Hrun as <-.
    erewrite (modifyAccountFile_no_write c1 (Name account) _
                (readAccountFile c1 (Name account)) true); [reflexivity | |].
    + cbn beta. rewrite Hprimary2, String.eqb_refl, orb_true_r.
      unfold addStringToList.
      change (ReplicaHostNames (with_primary ?f ?h)) with (ReplicaHostNames f).
      apply existsb_eqb_In in Hin. rewrite Hin.
      f_equal. revert Hprimary2. generalize (UpstreamPeerHostName account).
      destruct (readAccountFile c1 (Name account)). cbn. now intros s <-.
    + apply unchanged_same_slice.
Qed.

Lemma filter_all {A : Type} (p : A -> bool) (l : list A) :
  (forall x, In x l -> p x = true) -> List.filter p l = l.
Proof.
  induction l as [| x l IH]; [reflexivity |].
  intros H. cbn. rewrite (H x (or_introl eq_refl)).
  f_equal. apply IH. intros y Hy. apply H. now right.
Qed.

(** A replica that forfeits its claim leaves the replica list of the account
    file: the call returns nil, the other replicas stay, and so do the
    primary and the sublease token. *)
Theorem ForfeitAccountName_replica_leaves (c : Container) (account : Account) :
  UpstreamPeerHostName account <> "" ->
  exists c' : Container,
    ForfeitAccountName fd c account = (c', None) /\
    (forall h,
       In h (default [] (ReplicaHostNames (readAccountFile c' (Name account)))) <->
       h <> OwnHostName fd /\
       In h (default [] (ReplicaHostNames (readAccountFile c (Name account))))) /\
    PrimaryHostName (readAccountFile c' (Name account))
      = PrimaryHostName (readAccountFile c (Name account)) /\
    SubleaseTokenSecret (readAccountFile c' (Name account))
      = SubleaseTokenSecret (readAccountFile c (Name account)).
Proof.
  intros Hup. unfold ForfeitAccountName.
  apply String.eqb_neq in Hup. rewrite Hup. cbn [negb].
  set (file0 := readAccountFile c (Name account)).
  set (keep := fun elem : string => negb (elem =? OwnHostName fd)%string).
  set (modify := fun (file : accountFile) (_ : bool) =>
                   let '(l, same_slice) :=
                     removeStringFromList (ReplicaHostNames file) (OwnHostName fd) in
                   Modified (with_replicas file l) same_slice).
  set (kept := List.filter keep (default [] (ReplicaHostNames file0))).
  assert (Hkept : forall h, In h kept <->
                    h <> OwnHostName fd /\ In h (default [] (ReplicaHostNames file0))).
  { intros h. unfold kept. rewrite filter_In. unfold keep.
    rewrite negb_true_iff, String.eqb_neq. tauto. }
  set (m1 := with_replicas file0 (Some kept)).
  assert (Hm1 : modify file0 true = Modified m1 false) by reflexivity.
  destruct (unchanged file0 m1 false) eqn:U.
  - exists c. rewrite (modifyAccountFile_no_write c (Name account) modify m1 false Hm1 U).
    split; [reflexivity |]. split; [| split; reflexivity].
    fold file0. unfold unchanged in U. apply bool_decide_eq_true in U.
    apply (f_equal ReplicaHostNames) in U. cbn in U.
    assert (Hl0 : default [] (ReplicaHostNames file0) = sort_strings kept) by now rewrite U.
    intros h. split; [| tauto].
    intros Hin. split; [| exact Hin].
    rewrite Hl0 in Hin. apply sort_strings_In, Hkept in Hin. tauto.
  - set (file1 := written (Name account) m1).
    assert (Hfilter : List.filter keep (sort_strings kept) = sort_strings kept).
    { apply filter_all. intros x Hx. apply sort_strings_In, Hkept in Hx.
      unfold keep. apply negb_true_iff, String.eqb_neq. tauto. }
    assert (Hm2 : modify file1 false = Modified file1 false).
    { unfold modify, removeStringFromList.
      cbn [file1 written ReplicaHostNames m1 with_replicas option_map default].
      unfold id. fold keep. rewrite Hfilter. reflexivity. }
    assert (U2 : unchanged file1 file1 false = true).
    { apply unchanged_same. cbn. apply sort_strings_ascending. }
    exists (<[accountFileObj (Name account) := stored (sort_replicas m1)]> c).
    rewrite (modifyAccountFile_write c (Name account) modify m1 file1 false false
               Hm1 U Hm2 U2).
    split; [reflexivity |]. rewrite readAccountFile_written. fold file1.
    split; [| split; reflexivity].
    intros h. cbn [file1 written ReplicaHostNames m1 with_replicas option_map default].
    unfold id. now rewrite sort_strings_In, Hkept.
Qed.

End FederationLifecycle.

Section FederationPeers.
Import Models FederationDriver FederationSwift.
Variables primary_peer replica_peer : federationDriverSwift.

(** The sublease handshake: the peer that holds an account as primary
    issues a token; a peer that presents this token, and names the primary as
    its upstream, is admitted as a replica.  Afterwards the account file
    lists the replica, still names the primary, and the token is used up. *)
Theorem sublease_token_admits_replica (c : Container) (primary replica : Account)
    (token : string) :
  UpstreamPeerHostName primary = "" ->
  UpstreamPeerHostName replica = OwnHostName primary_peer ->
  Name replica = Name primary ->
  OwnHostName primary_peer <> "" ->
  token <> "" ->
  PrimaryHostName (readAccountFile c (Name primary)) = OwnHostName primary_peer ->
  exists c1 c2 : Container,
    IssueSubleaseTokenSecret primary_peer c primary token = (c1, (token, None)) /\
    ClaimAccountName replica_peer c1 replica token = (c2, (ClaimSucceeded, None)) /\
    In (OwnHostName replica_peer)
       (default [] (ReplicaHostNames (readAccountFile c2 (Name primary)))) /\
    PrimaryHostName (readAccountFile c2 (Name primary)) = OwnHostName primary_peer /\
    SubleaseTokenSecret (readAccountFile c2 (Name primary)) = "".
Proof.
  intros Hup Hupstream Hname Hhost Htoken Hprimary.
  destruct (IssueSubleaseTokenSecret_ok primary_peer c primary token Hup Hprimary)
    as (c1 & Hissue & Hprimary1 & Hsecret1).
  rewrite <- Hname in Hprimary1, Hsecret1. rewrite <- Hupstream in Hprimary1.
  destruct (claimReplicaAccount_ok replica_peer c1 replica token Htoken Hsecret1 Hprimary1)
    as (c2 & Hclaim & Hin & Hprimary2 & Hsecret2).
  exists c1, c2. split; [exact Hissue |].
  rewrite <- Hname, <- Hupstream.
  split; [| now repeat split].
  unfold ClaimAccountName.
  destruct (String.eqb_spec (UpstreamPeerHostName replica) "") as [Hempty | _]; cbn [negb].
  - congruence.
  - now rewrite Hclaim.
Qed.

End FederationPeers.

Section FederationLifecycleExamples.
Import Models FederationDriver FederationSwift FederationFixtures.

(** Peer A claims [library] twice. *)
Lemma ClaimAccountName_primary_idempotent_witness :
  ClaimAccountName peerA (fst (ClaimAccountName peerA ∅ primary_library "")) primary_library ""
  = (fst (ClaimAccountName peerA ∅ primary_library ""), (ClaimSucceeded, None)).
Proof.
  apply (ClaimAccountName_primary_idempotent peerA ∅ _ primary_library "");
    [reflexivity | vm_compute; reflexivity].
Defined.

(** Peer A holds [library]; peer B asks for it as a primary, too. *)
Lemma primary_claim_is_exclusive_witness :
  exists msg,
    ClaimAccountName peerB (fst (ClaimAccountName peerA ∅ primary_library ""))
      primary_library ""
    = (fst (ClaimAccountName peerA ∅ primary_library ""), (ClaimFailed, Some msg)).
Proof.
  apply (primary_claim_is_exclusive peerA peerB ∅ _ primary_library primary_library "" "");
    [reflexivity | reflexivity | reflexivity | discriminate | discriminate
    | vm_compute; reflexivity].
Defined.

(** Peer A claims [library] in an empty container and gives it up again. *)
Lemma ForfeitAccountName_releases_primary_claim_witness :
  exists c' : gmap string accountFile,
    ClaimAccountName peerA ∅ primary_library "" = (c', (ClaimSucceeded, None)) /\
    FindPrimaryAccount c' "library" = Ok "keppel-a.example.org" /\
    ForfeitAccountName peerA c' primary_library = (∅, None) /\
    FindPrimaryAccount ∅ "library" = Err ErrNoSuchPrimaryAccount.
Proof.
  apply (ForfeitAccountName_releases_primary_claim peerA ∅ primary_library);
    [reflexivity | discriminate | reflexivity].
Defined.

(** Peer B's replica of [library] is announced after it was claimed. *)
Lemma RecordExistingAccount_after_claim_witness :
  RecordExistingAccount peerB
    (fst (ClaimAccountName peerB container_with_token replica_library "c2VjcmV0IHRva2Vu"))
    replica_library
  = (fst (ClaimAccountName peerB container_with_token replica_library "c2VjcmV0IHRva2Vu"),
     None).
Proof.
  apply (RecordExistingAccount_after_claim peerB container_with_token _ replica_library
           "c2VjcmV0IHRva2Vu").
  vm_compute. reflexivity.
Defined.

(** Peer A issues a token for [library], and peer B uses it. *)
Lemma sublease_token_admits_replica_witness :
  exists c1 c2 : gmap string accountFile,
    IssueSubleaseTokenSecret peerA (fst (ClaimAccountName peerA ∅ primary_library ""))
      primary_library "c2VjcmV0IHRva2Vu" = (c1, ("c2VjcmV0IHRva2Vu", None)) /\
    ClaimAccountName peerB c1 replica_library "c2VjcmV0IHRva2Vu"
      = (c2, (ClaimSucceeded, None)) /\
    In "keppel-b.example.org"
       (default [] (ReplicaHostNames (readAccountFile c2 "library"))) /\
    PrimaryHostName (readAccountFile c2 "library") = "keppel-a.example.org" /\
    SubleaseTokenSecret (readAccountFile c2 "library") = "".
Proof.
  apply (sublease_token_admits_replica peerA peerB
           (fst (ClaimAccountName peerA ∅ primary_library ""))
           primary_library replica_library "c2VjcmV0IHRva2Vu");
    [reflexivity | reflexivity | reflexivity | discriminate | discriminate
    | vm_compute; reflexivity].
Defined.

(** Peer B gives up its replica of [library]. *)
Lemma ForfeitAccountName_replica_leaves_witness :
  exists c' : gmap string accountFile,
    ForfeitAccountName peerB
      (fst (ClaimAccountName peerB container_with_token replica_library "c2VjcmV0IHRva2Vu"))
      replica_library = (c', None) /\
    (forall h,
       In h (default [] (ReplicaHostNames (readAccountFile c' "library"))) <->
       h <> "keppel-b.example.org" /\
       In h (default [] (ReplicaHostNames
               (readAccountFile
                  (fst (ClaimAccountName peerB container_with_token replica_library
                          "c2VjcmV0IHRva2Vu")) "library")))) /\
    PrimaryHostName (readAccountFile c' "library")
      = PrimaryHostName
          (readAccountFile
             (fst (ClaimAccountName peerB container_with_token replica_library
                     "c2VjcmV0IHRva2Vu")) "library") /\
    SubleaseTokenSecret (readAccountFile c' "library")
      = SubleaseTokenSecret
          (readAccountFile
             (fst (ClaimAccountName peerB container_with_token replica_library
                     "c2VjcmV0IHRva2Vu")) "library").
Proof.
  apply (ForfeitAccountName_replica_leaves peerB
           (fst (ClaimAccountName peerB container_with_token replica_library
                   "c2VjcmV0IHRva2Vu"))
           replica_library).
  discriminate.
Defined.

(** The life of the name [library]: peer A cannot give it up while peer B
    is attached, and can once peer B has left. *)
Example library_lifecycle :
  let c2 := fst (ClaimAccountName peerB container_with_token replica_library
                   "c2VjcmV0IHRva2Vu") in
  let c3 := fst (ForfeitAccountName peerB c2 replica_library) in
  ForfeitAccountName peerA c2 primary_library
    = (c2, Some "cannot delete primary account: replicas are still attached to it") /\
  snd (ForfeitAccountName peerB c2 replica_library) = None /\
  ForfeitAccountName peerA c3 primary_library = (∅, None).
Proof. vm_compute. repeat split. Qed.

End FederationLifecycleExamples.

(** ** The in-memory storage driver *)

Section TrivialFacts.
Import Models Storage Trivial TrivialSessions.

Lemma AppendToBlob_first (account : ReducedAccount) (storageID : string)
    (length : option Z) (chunk : list Byte.byte) (d : StorageDriver) :
  blobChunkCounts d !! blobKey account storageID = None ->
  AppendToBlob (mkAppendCall account storageID 1 length chunk) d
  = (mkStorageDriver
       (<[blobKey account storageID :=
            default [] (blobs d !! blobKey account storageID) ++ chunk]> (blobs d))
       (<[blobKey account storageID := 1]> (blobChunkCounts d))
       (ForbidNewAccounts d),
     None).
Proof.
  intros Hnew. unfold AppendToBlob. cbn [call_account call_storageID call_chunkNumber call_chunk].
  rewrite Hnew. cbn [Z.eqb Pos.eqb].
  rewrite bool_decide_eq_false_2 by (intros [x Hx]; discriminate Hx). reflexivity.
Qed.

Lemma AppendToBlob_next (account : ReducedAccount) (storageID : string)
    (length : option Z) (chunk old : list Byte.byte) (n : Z) (d : StorageDriver) :
  blobChunkCounts d !! blobKey account storageID = Some n ->
  blobs d !! blobKey account storageID = Some old ->
  1 <= n -> n + 1 < 2^32 ->
  AppendToBlob (mkAppendCall account storageID (n + 1) length chunk) d
  = (mkStorageDriver
       (<[blobKey account storageID := old ++ chunk]> (blobs d))
       (<[blobKey account storageID := n + 1]> (blobChunkCounts d))
       (ForbidNewAccounts d),
     None).
Proof.
  intros Hcount Hblob Hn Hn'. unfold AppendToBlob.
  cbn [call_account call_storageID call_chunkNumber call_chunk].
  rewrite Hcount, Hblob. cbn [default]. unfold id.
  rewrite bool_decide_eq_true_2 by eauto.
  replace (n + 1 =? 1) with false by (symmetry; apply Z.eqb_neq; lia).
  replace (n =? 0) with false by (symmetry; apply Z.eqb_neq; lia).
  rewrite (wrap_uint32_id (n + 1)) by (unfold in_uint32; lia).
  rewrite Z.eqb_refl. reflexivity.
Qed.

Lemma append_chunks_next (account : ReducedAccount) (storageID : string) :
  forall (chunks : list (list Byte.byte)) (old : list Byte.byte) (n : Z) (d : StorageDriver),
    blobChunkCounts d !! blobKey account storageID = Some n ->
    blobs d !! blobKey account storageID = Some old ->
    1 <= n -> n + Z.of_nat (length chunks) < 2^32 ->
    exists d1,
      append_chunks account storageID (n + 1) chunks d = (d1, None) /\
      blobChunkCounts d1 !! blobKey account storageID = Some (n + Z.of_nat (length chunks)) /\
      blobs d1 !! blobKey account storageID = Some (old ++ concat chunks).
Proof.
  induction chunks as [| chunk rest IH]; intros old n d Hcount Hblob Hn Hlen.
  - exists d. cbn. rewrite Z.add_0_r, app_nil_r. auto.
  - cbn [append_chunks]. cbn [length] in Hlen.
    rewrite (AppendToBlob_next account storageID None chunk old n d Hcount Hblob)
      by lia.
    edestruct (IH (old ++ chunk) (n + 1)) as (d1 & Hrun & Hcount1 & Hblob1);
      [ | | | | exists d1; rewrite Hrun; split; [reflexivity |]; split ].
    + cbn. apply lookup_insert_eq.
    + cbn. apply lookup_insert_eq.
    + lia.
    + lia.
    + rewrite Hcount1. f_equal. cbn [length]. lia.
    + rewrite Hblob1. cbn [concat]. now rewrite app_assoc.
Qed.

(** An upload in chunks: a new storage ID takes any non-empty sequence of
    chunks numbered from 1; once finalized, the blob reads back as the
    chunks put together, with their total length. *)
Theorem chunked_upload_reads_back (account : ReducedAccount) (storageID : string)
    (chunks : list (list Byte.byte)) (d : StorageDriver) :
  blobChunkCounts d !! blobKey account storageID = None ->
  blobs d !! blobKey account storageID = None ->
  chunks <> [] ->
  Z.of_nat (length chunks) < 2^32 ->
  exists d1 d2,
    append_chunks account storageID 1 chunks d = (d1, None) /\
    FinalizeBlob account storageID (Z.of_nat (length chunks)) d1 = (d2, None) /\
    ReadBlob account storageID d2
      = Ok (concat chunks, Z.of_nat (length (concat chunks))).
Proof.
  intros Hcount Hblob Hne Hlen.
  destruct chunks as [| chunk rest]; [congruence |].
  cbn [append_chunks]. rewrite AppendToBlob_first by exact Hcount.
  rewrite Hblob. cbn [default app].
  cbn [length] in Hlen.
  set (d0 := mkStorageDriver (<[blobKey account storageID := chunk]> (blobs d))
               (<[blobKey account storageID := 1]> (blobChunkCounts d))
               (ForbidNewAccounts d)).
  destruct (append_chunks_next account storageID rest chunk 1 d0)
    as (d1 & Hrun & Hcount1 & Hblob1).
  - cbn. apply lookup_insert_eq.
  - cbn. apply lookup_insert_eq.
  - lia.
  - lia.
  - exists d1. rewrite Hrun.
    eexists. split; [reflexivity |].
    unfold FinalizeBlob. rewrite Hblob1.
    rewrite bool_decide_eq_true_2 by eauto. cbn [negb].
    split; [reflexivity |].
    unfold ReadBlob. cbn [blobs]. now rewrite Hblob1.
Qed.

(** A finalized blob is sealed: the driver turns down every further chunk
    for it, whatever its number, and every attempt to abort the upload; the
    driver stays as it is, and the blob stays readable. *)
Theorem finalized_blob_is_sealed (account : ReducedAccount) (storageID : string)
    (chunkCount : Z) (d d' : StorageDriver) :
  FinalizeBlob account storageID chunkCount d = (d', None) ->
  (forall (n : Z) (len : option Z) (chunk : list Byte.byte),
     exists msg,
       AppendToBlob (mkAppendCall account storageID n len chunk) d' = (d', Some msg)) /\
  (forall n : Z,
     AbortBlobUpload account storageID n d' = (d', Some errAbortBlobUploadAfterFinalize)) /\
  (exists contents,
     ReadBlob account storageID d' = Ok (contents, Z.of_nat (length contents)) /\
     ReadBlob account storageID d = Ok (contents, Z.of_nat (length contents))).
Proof.
  unfold FinalizeBlob.
  destruct (blobs d !! blobKey account storageID) as [contents |] eqn:Hblob.
  2: { rewrite bool_decide_eq_false_2 by (intros [x Hx]; discriminate Hx). discriminate. }
  rewrite bool_decide_eq_true_2 by eauto. cbn [negb]. intros [= <-].
  split; [| split].
  - intros n len chunk. unfold AppendToBlob.
    cbn [call_account call_storageID call_chunkNumber call_chunk blobChunkCounts].
    rewrite lookup_insert_eq. rewrite bool_decide_eq_true_2 by eauto.
    cbn [default]. unfold id. cbn [Z.eqb andb].
    destruct (n =? 1); eexists; reflexivity.
  - intros n. unfold AbortBlobUpload. cbn [blobChunkCounts].
    rewrite lookup_insert_eq. reflexivity.
  - exists contents. unfold ReadBlob. cbn [blobs]. now rewrite Hblob.
Qed.

(** The driver keeps its two blob maps aligned: whatever is called, a key
    has contents exactly when it has a chunk count. *)
Theorem blob_maps_stay_aligned (d : StorageDriver) :
  aligned d ->
  (forall c, aligned (fst (AppendToBlob c d))) /\
  (forall account storageID chunkCount,
     aligned (fst (FinalizeBlob account storageID chunkCount d))) /\
  (forall account storageID chunkCount,
     aligned (fst (AbortBlobUpload account storageID chunkCount d))) /\
  (forall account storageID, aligned (fst (DeleteBlob account storageID d))).
Proof.
  intros Hd.
  assert (Hinsert : forall k (x : list Byte.byte) (n : Z),
            aligned (mkStorageDriver (<[k := x]> (blobs d)) (<[k := n]> (blobChunkCounts d))
                       (ForbidNewAccounts d))).
  { intros k x n k'. cbn. destruct (decide (k = k')) as [-> | Hne].
    - rewrite !lookup_insert_eq. split; eauto.
    - rewrite !lookup_insert_ne by exact Hne. apply Hd. }
  assert (Hdelete : forall account storageID, aligned (fst (DeleteBlob account storageID d))).
  { intros account storageID. unfold DeleteBlob.
    destruct (negb (bool_decide (is_Some (blobs d !! blobKey account storageID))));
      [exact Hd |].
    intros k'. cbn. destruct (decide (blobKey account storageID = k')) as [-> | Hne].
    - rewrite !lookup_delete_eq. split; intros [x Hx]; discriminate Hx.
    - rewrite !lookup_delete_ne by exact Hne. apply Hd. }
  split; [| split; [| split]].
  - intros c. unfold AppendToBlob.
    repeat match goal with
           | |- context [if ?b then _ else _] => destruct b
           end; cbn [fst]; solve [exact Hd | apply Hinsert].
  - intros account storageID chunkCount. unfold FinalizeBlob.
    destruct (negb (bool_decide (is_Some (blobs d !! blobKey account storageID)))) eqn:E;
      [exact Hd |].
    apply negb_false_iff, bool_decide_eq_true in E.
    intros k'. cbn. destruct (decide (blobKey account storageID = k')) as [<- | Hne].
    + rewrite lookup_insert_eq. split; eauto.
    + rewrite lookup_insert_ne by exact Hne. apply Hd.
  - intros account storageID chunkCount. unfold AbortBlobUpload.
    destruct (default 0 (blobChunkCounts d !! blobKey account storageID) =? 0);
      [exact Hd | apply Hdelete].
  - exact Hdelete.
Qed.

Lemma append_nil (x : string) : ("" ++ x)%string = x.
Proof. reflexivity. Qed.

Lemma slash_key_head (a a' x x' : string) :
  has_slash a = false -> has_slash a' = false ->
  (a ++ "/" ++ x)%string = (a' ++ "/" ++ x')%string -> a = a' /\ x = x'.
Proof.
  revert a'. induction a as [| c a IH]; intros [| c' a'] Ha Ha' Heq;
    rewrite ?append_cons, ?append_nil in Heq.
  - injection Heq as ->. split; reflexivity.
  - injection Heq as <- _. cbn in Ha'. discriminate Ha'.
  - injection Heq as -> _. cbn in Ha. discriminate Ha.
  - injection Heq as -> Heq.
    cbn [has_slash] in Ha, Ha'.
    apply orb_false_iff in Ha as [_ Ha]. apply orb_false_iff in Ha' as [_ Ha'].
    destruct (IH a' Ha Ha') as [-> ->]; [| split; reflexivity].
    now rewrite ?append_cons, ?append_nil.
Qed.

Lemma has_slash_app (r x : string) : has_slash (r ++ "/" ++ x) = true.
Proof.
  induction r as [| c r IH]; [reflexivity |].
  rewrite append_cons. cbn [has_slash]. rewrite IH. apply orb_true_r.
Qed.

Lemma slash_key_tail (r r' x x' : string) :
  has_slash x = false -> has_slash x' = false ->
  (r ++ "/" ++ x)%string = (r' ++ "/" ++ x')%string -> r = r' /\ x = x'.
Proof.
  revert r'. induction r as [| c r IH]; intros [| c' r'] Hx Hx' Heq.
  - rewrite ?append_cons, ?append_nil in Heq. injection Heq as ->. split; reflexivity.
  - rewrite append_nil, (append_cons c' r') in Heq.
    rewrite (append_cons "/" "") in Heq at 1. rewrite append_nil in Heq.
    injection Heq as <- Heq.
    rewrite Heq, has_slash_app in Hx. discriminate Hx.
  - rewrite append_nil, (append_cons c r) in Heq.
    rewrite (append_cons "/" "" x') in Heq. rewrite append_nil in Heq.
    injection Heq as -> Heq.
    rewrite <- Heq, has_slash_app in Hx'. discriminate Hx'.
  - rewrite (append_cons c r), (append_cons c' r') in Heq. injection Heq as -> Heq.
    destruct (IH r' Hx Hx' Heq) as [-> ->]. split; reflexivity.
Qed.

Lemma manifestKey_inj (account account' : ReducedAccount)
    (repoName repoName' manifestDigest manifestDigest' : string) :
  has_slash (ra_Name account) = false -> has_slash (ra_Name account') = false ->
  has_slash manifestDigest = false -> has_slash manifestDigest' = false ->
  manifestKey account repoName manifestDigest
    = manifestKey account' repoName' manifestDigest' ->
  ra_Name account = ra_Name account' /\ repoName = repoName'
  /\ manifestDigest = manifestDigest'.
Proof.
  intros Ha Ha' Hd Hd' Heq. unfold manifestKey in Heq.
  apply slash_key_head in Heq as [Hname Heq]; [| assumption | assumption].
  apply slash_key_tail in Heq as [Hrepo Hdigest]; auto.
Qed.

(** The manifests of the driver are kept per account, repository and
    digest: a manifest that was written reads back, and writing it leaves
    every other manifest as it was, although all three parts go into one
    key (account names and digests have no slash). *)
Theorem WriteManifest_then_ReadManifest (account account' : ReducedAccount)
    (repoName repoName' manifestDigest manifestDigest' : string)
    (contents : list Byte.byte) (d : ManifestStore) :
  has_slash (ra_Name account) = false -> has_slash (ra_Name account') = false ->
  has_slash manifestDigest = false -> has_slash manifestDigest' = false ->
  ReadManifest account repoName manifestDigest
    (fst (WriteManifest account repoName manifestDigest contents d)) = Ok contents /\
  ((ra_Name account', repoName', manifestDigest')
     <> (ra_Name account, repoName, manifestDigest) ->
   ReadManifest account' repoName' manifestDigest'
     (fst (WriteManifest account repoName manifestDigest contents d))
   = ReadManifest account' repoName' manifestDigest' d).
Proof.
  intros Ha Ha' Hd Hd'. unfold ReadManifest, WriteManifest. cbn [fst manifests]. split.
  - now rewrite lookup_insert_eq.
  - intros Hne. rewrite lookup_insert_ne; [reflexivity |].
    intros Heq. apply manifestKey_inj in Heq as (H1 & H2 & H3); try assumption.
    apply Hne. congruence.
Qed.

(** Deleting a manifest: it is gone afterwards, a second deletion is an
    error that changes nothing, and the count of manifests goes down by
    one. *)
Theorem DeleteManifest_removes (account : ReducedAccount) (repoName manifestDigest : string)
    (d d' : ManifestStore) :
  DeleteManifest account repoName manifestDigest d = (d', None) ->
  ReadManifest account repoName manifestDigest d' = Err errNoSuchManifest /\
  DeleteManifest account repoName manifestDigest d' = (d', Some errNoSuchManifest) /\
  S (ManifestCount d') = ManifestCount d.
Proof.
  unfold DeleteManifest.
  destruct (manifests d !! manifestKey account repoName manifestDigest) as [x |] eqn:E.
  2: { rewrite bool_decide_eq_false_2 by (intros [y Hy]; discriminate Hy). discriminate. }
  rewrite bool_decide_eq_true_2 by eauto. cbn [negb]. intros [= <-].
  unfold ReadManifest, ManifestCount. cbn [manifests].
  rewrite lookup_delete_eq.
  rewrite bool_decide_eq_false_2 by (intros [y Hy]; discriminate Hy). cbn [negb].
  repeat split.
  rewrite <- (insert_delete_id (manifests d) _ _ E) at 2.
  rewrite map_size_insert_None by apply lookup_delete_eq. reflexivity.
Qed.

End TrivialFacts.

Section TrivialExamples.
Import Models Storage Trivial TrivialSessions ChunkingFixtures.

(** Three bytes in two chunks. *)
Lemma chunked_upload_reads_back_witness :
  exists d1 d2,
    append_chunks example_account "6b86b273" 1 [[Byte.x01]; [Byte.x02; Byte.x03]] Init
      = (d1, None) /\
    FinalizeBlob example_account "6b86b273" 2 d1 = (d2, None) /\
    ReadBlob example_account "6b86b273" d2 = Ok ([Byte.x01; Byte.x02; Byte.x03], 3).
Proof.
  apply (chunked_upload_reads_back example_account "6b86b273"
           [[Byte.x01]; [Byte.x02; Byte.x03]] Init);
    [reflexivity | reflexivity | discriminate | reflexivity].
Defined.

(** The blob of one chunk, finalized. *)
Lemma finalized_blob_is_sealed_witness :
  let d := fst (append_chunks example_account "6b86b273" 1 [[Byte.x01]] Init) in
  let d' := fst (FinalizeBlob example_account "6b86b273" 1 d) in
  (forall (n : Z) (len : option Z) (chunk : list Byte.byte),
     exists msg,
       AppendToBlob (mkAppendCall example_account "6b86b273" n len chunk) d'
       = (d', Some msg)) /\
  (forall n : Z,
     AbortBlobUpload example_account "6b86b273" n d'
     = (d', Some errAbortBlobUploadAfterFinalize)) /\
  (exists contents,
     ReadBlob example_account "6b86b273" d' = Ok (contents, Z.of_nat (length contents)) /\
     ReadBlob example_account "6b86b273" d = Ok (contents, Z.of_nat (length contents))).
Proof.
  apply (finalized_blob_is_sealed example_account "6b86b273" 1). reflexivity.
Defined.

(** The driver as [Init] leaves it. *)
Lemma blob_maps_stay_aligned_witness :
  aligned Init /\
  (forall c, aligned (fst (AppendToBlob c Init))) /\
  (forall account storageID chunkCount,
     aligned (fst (FinalizeBlob account storageID chunkCount Init))) /\
  (forall account storageID chunkCount,
     aligned (fst (AbortBlobUpload account storageID chunkCount Init))) /\
  (forall account storageID, aligned (fst (DeleteBlob account storageID Init))).
Proof.
  assert (H : aligned Init).
  { intros k. cbn. rewrite !lookup_empty. split; intros [x Hx]; discriminate Hx. }
  split; [exact H | exact (blob_maps_stay_aligned Init H)].
Defined.

(** Two manifests of one repository. *)
Lemma WriteManifest_then_ReadManifest_witness :
  let d := mkManifestStore ∅ ∅ in
  ReadManifest example_account "foo" "sha256:e255"
    (fst (WriteManifest example_account "foo" "sha256:e255" [Byte.x7b; Byte.x7d] d))
  = Ok [Byte.x7b; Byte.x7d] /\
  ((ra_Name example_account, "foo", "sha256:207a")
     <> (ra_Name example_account, "foo", "sha256:e255") ->
   ReadManifest example_account "foo" "sha256:207a"
     (fst (WriteManifest example_account "foo" "sha256:e255" [Byte.x7b; Byte.x7d] d))
   = ReadManifest example_account "foo" "sha256:207a" d).
Proof.
  apply (WriteManifest_then_ReadManifest example_account example_account
           "foo" "foo" "sha256:e255" "sha256:207a"); reflexivity.
Defined.

Lemma DeleteManifest_removes_witness :
  let d := fst (WriteManifest example_account "foo" "sha256:e255" [Byte.x7b; Byte.x7d]
                  (mkManifestStore ∅ ∅)) in
  let d' := fst (DeleteManifest example_account "foo" "sha256:e255" d) in
  ReadManifest example_account "foo" "sha256:e255" d' = Err errNoSuchManifest /\
  DeleteManifest example_account "foo" "sha256:e255" d' = (d', Some errNoSuchManifest) /\
  S (ManifestCount d') = ManifestCount d.
Proof.
  apply (DeleteManifest_removes example_account "foo" "sha256:e255"). reflexivity.
Defined.

End TrivialExamples.

(** ** Uploads of unknown length *)

Section UnknownLengthFacts.
Import Models Storage Chunking UnknownLength.
Context {S : Type} `{!StorageDriver S}.
Variable room : nat -> nat.
Hypothesis room_pos : forall k : nat, (1 <= room k)%nat.

Lemma drop_nil_length {A : Type} (l : list A) (n : nat) :
  drop n l = [] -> (length l <= n)%nat.
Proof. intros H. apply (f_equal length) in H. rewrite length_drop in H. cbn in H. lia. Qed.

(** One [Read] with a buffer of [m >= 1] bytes hands out the next bytes of
    the stream, the held-back byte first, and counts them; [k] is their
    number, unless the stream ends before. *)
Lemma Read_spec (r : chunkingTrackingReader) (m : nat) :
  (1 <= m)%nat ->
  makes_progress (wrapped r) ->
  0 <= bytesRead r ->
  bytesRead r + Z.of_nat (length (pending r)) < 2^64 ->
  exists (k : nat) (eof : bool) (r' : chunkingTrackingReader),
    (1 <= k <= m)%nat /\
    Read r m = (take k (pending r), eof, r') /\
    pending r' = drop k (pending r) /\
    peeked r' = None /\
    grant (wrapped r') = grant (wrapped r) /\
    eof_with_data (wrapped r') = eof_with_data (wrapped r) /\
    bytesRead r' = bytesRead r + Z.of_nat (length (take k (pending r))) /\
    (eof = true -> (length (pending r) <= k)%nat) /\
    (eof = false -> (1 <= length (take k (pending r)))%nat).
Proof.
  intros Hm Hg Hb Hb'. unfold Read, pending in *.
  destruct (Nat.eqb_spec m 0) as [-> | _]; [lia |].
  unfold makes_progress in Hg.
  destruct r as [[rem g eager] [p |] br]; cbn [peeked wrapped bytesRead remaining grant] in *.
  - unfold Read_wrapped. cbn [peeked wrapped bytesRead].
    cbn [length] in Hb'.
    rewrite (wrap_uint64_id (br + 1)) by (unfold in_uint64; lia).
    destruct (Nat.eqb_spec (m - 1) 0) as [Hm0 | Hm0].
    + exists 1%nat, false. eexists. split; [lia |].
      split; [cbn [take]; rewrite take_0; reflexivity |].
      cbn [peeked wrapped bytesRead remaining grant eof_with_data take drop length].
      rewrite take_0, drop_0. cbn [length].
      repeat split; try lia; try (intros [=]).
    + unfold stream_Read. cbn [remaining grant eof_with_data].
      destruct rem as [| x rem].
      * exists 1%nat, true. eexists. split; [lia |]. split; [reflexivity |].
        cbn [peeked wrapped bytesRead remaining grant eof_with_data take drop length].
        rewrite wrap_uint64_id by (unfold in_uint64; lia).
        repeat split; lia.
      * pose proof (Hg (m - 1)%nat ltac:(lia)) as Hgm.
        set (n := Nat.min (m - 1) (g (m - 1)%nat)).
        assert (Hn : (1 <= n <= m - 1)%nat) by (subst n; lia).
        exists (Datatypes.S n). eexists. eexists. split; [lia |].
        split; [reflexivity |].
        cbn [peeked wrapped bytesRead remaining grant eof_with_data take drop].
        rewrite wrap_uint64_id.
        2:{ unfold in_uint64. rewrite length_take. cbn [length] in *. lia. }
        cbn [length]. repeat split; try lia.
        intros He. apply andb_true_iff in He as [_ He].
        apply bool_decide_eq_true in He. apply drop_nil_length in He.
        cbn [length] in He. lia.
  - unfold Read_wrapped. cbn [peeked wrapped bytesRead].
    destruct (Nat.eqb_spec m 0) as [-> | _]; [lia |].
    unfold stream_Read. cbn [remaining grant eof_with_data].
    destruct rem as [| x rem].
    + exists 1%nat, true. eexists. split; [lia |]. split; [reflexivity |].
      cbn [peeked wrapped bytesRead remaining grant eof_with_data take drop length].
      rewrite wrap_uint64_id by (unfold in_uint64; lia).
      repeat split; try lia; try (intros [=]).
    + pose proof (Hg m Hm) as Hgm.
      set (n := Nat.min m (g m)).
      assert (Hn : (1 <= n <= m)%nat) by (subst n; lia).
      exists n. eexists. eexists. split; [lia |]. split; [reflexivity |].
      cbn [peeked wrapped bytesRead remaining grant eof_with_data].
      rewrite wrap_uint64_id.
      2:{ unfold in_uint64. rewrite length_take. cbn [length] in *. lia. }
      repeat split; try lia.
      * intros He. apply andb_true_iff in He as [_ He].
        apply bool_decide_eq_true in He. now apply drop_nil_length in He.
      * intros _. destruct n; [lia |]. cbn [take length]. lia.
Qed.

(** Reading a chunk to its end takes the next [n] bytes of the stream, or
    all of them when fewer are left, and leaves the rest. *)
Lemma ReadAll_spec :
  forall (fuel : nat) (r : chunkingTrackingReader) (n : Z) (b : list Byte.byte),
    0 <= n ->
    (length (pending r) < fuel)%nat ->
    makes_progress (wrapped r) ->
    0 <= bytesRead r ->
    bytesRead r + Z.of_nat (length (pending r)) < 2^64 ->
    exists (r' : chunkingTrackingReader) (n' : Z),
      ReadAll room fuel (mkLimitedReader r n) b
        = Some (b ++ take (Z.to_nat n) (pending r), mkLimitedReader r' n') /\
      pending r' = drop (Z.to_nat n) (pending r) /\
      (peeked r = None \/ 0 < n -> peeked r' = None) /\
      grant (wrapped r') = grant (wrapped r) /\
      eof_with_data (wrapped r') = eof_with_data (wrapped r) /\
      bytesRead r' = bytesRead r + Z.of_nat (length (take (Z.to_nat n) (pending r))).
Proof.
  induction fuel as [| fuel IH]; intros r n b Hn Hfuel Hg Hb Hb'; [lia |].
  cbn [ReadAll]. unfold LimitedReader_Read. cbn [N R].
  destruct (Z.leb_spec n 0) as [Hn0 | Hn0].
  - assert (n = 0) as -> by lia. exists r, 0. cbn [Z.to_nat]. rewrite take_0, drop_0.
    cbn [length]. repeat split; try lia. intros [Hp | Hp]; [exact Hp | lia].
  - set (m := if n <? Z.of_nat (room (length b)) then Z.to_nat n else room (length b)).
    assert (Hm : (1 <= m <= Z.to_nat n)%nat).
    { subst m. pose proof (room_pos (length b)).
      destruct (Z.ltb_spec n (Z.of_nat (room (length b)))); lia. }
    destruct (Read_spec r m) as (k & eof & r1 & Hk & HR & Hp1 & Hk1 & Hg1 & He1 & Hb1 & Heof & Hne);
      try assumption; try lia.
    rewrite HR. destruct eof.
    + specialize (Heof eq_refl).
      exists r1, (n - Z.of_nat (length (take k (pending r)))).
      rewrite !take_ge in * by lia. rewrite !drop_ge in * by lia.
      repeat split; try assumption. intros _. exact Hk1.
    + specialize (Hne eq_refl).
      destruct (IH r1 (n - Z.of_nat (length (take k (pending r)))) (b ++ take k (pending r)))
        as (r' & n' & HA & Hp' & Hk' & Hg' & He' & Hb'').
      * rewrite length_take. lia.
      * rewrite Hp1, length_drop. rewrite length_take in Hne. lia.
      * unfold makes_progress in *. now rewrite Hg1.
      * lia.
      * rewrite Hp1, Hb1, length_drop, length_take. lia.
      * exists r', n'. rewrite HA, Hp1, Hp', Hb'', Hb1, Hp1, Hg', He', Hg1, He1.
        assert (Hsplit : Z.to_nat n
                         = (k + Z.to_nat (n - Z.of_nat (length (take k (pending r)))))%nat
                         \/ (length (pending r) <= k)%nat).
        { rewrite length_take. lia. }
        destruct Hsplit as [Hs | Hs].
        -- remember (Z.to_nat (n - Z.of_nat (length (take k (pending r))))) as j.
           rewrite Hs, <- (take_take_drop (pending r) k j), <- app_assoc.
           rewrite drop_drop, length_app.
           repeat split; try lia. intros _. apply Hk'. now left.
        -- rewrite !(take_ge (pending r)) by lia. rewrite !(drop_ge (pending r)) by lia.
           rewrite take_nil, drop_nil, app_nil_r. cbn [length].
           repeat split; try lia. intros _. apply Hk'. now left.
Qed.


(** [IsEOF] on a reader that reports [io.EOF] together with its last byte:
    when exactly one byte is left, [IsEOF] reads it, answers true and does
    not keep it.  The byte is not counted, and no later [Read] returns it. *)
Lemma IsEOF_drops_last_byte (r : chunkingTrackingReader) (x : Byte.byte) :
  peeked r = None ->
  makes_progress (wrapped r) ->
  eof_with_data (wrapped r) = true ->
  remaining (wrapped r) = [x] ->
  exists r' : chunkingTrackingReader,
    IsEOF r = (true, r') /\
    pending r' = [] /\
    bytesRead r' = bytesRead r.
Proof.
  destruct r as [[rem g eager] p br]. cbn [peeked wrapped eof_with_data remaining].
  intros -> Hg -> ->. unfold makes_progress in Hg. cbn [grant] in Hg.
  unfold IsEOF, pending, stream_Read. cbn [peeked wrapped bytesRead remaining grant eof_with_data].
  pose proof (Hg 1%nat ltac:(lia)) as H1.
  replace (Nat.min 1 (g 1%nat)) with 1%nat by lia.
  cbn [take drop andb]. rewrite bool_decide_eq_true_2 by reflexivity.
  eexists. split; [reflexivity |]. now cbn.
Qed.

Lemma pending_length (r : chunkingTrackingReader) :
  (length (pending r) <= Datatypes.S (length (remaining (wrapped r))))%nat.
Proof. unfold pending. destruct (peeked r); cbn [length]; lia. Qed.

(** One round: the next chunk goes to the driver, without a length. *)
Lemma append_stream_chunk_spec (account : ReducedAccount) (upload : Upload)
    (w : World S) (ctr : chunkingTrackingReader) :
  makes_progress (wrapped ctr) ->
  in_uint32 (NumChunks upload) -> NumChunks upload + 1 < 2^32 ->
  0 <= bytesRead ctr ->
  bytesRead ctr + Z.of_nat (length (pending ctr)) < 2^64 ->
  exists (w' : World S) (ctr' : chunkingTrackingReader) (err : option string)
         (c : AppendCall),
    append_stream_chunk room account (upload, w, ctr)
      = Some ((mkUpload (StorageID upload) (SizeBytes upload) (NumChunks upload + 1),
               w', ctr'), err) /\
    calls w' = calls w ++ [c] /\
    expected_stream_call account upload 0 c /\
    call_chunk c = take (Z.to_nat chunkSizeBytes) (pending ctr) /\
    pending ctr' = drop (Z.to_nat chunkSizeBytes) (pending ctr) /\
    peeked ctr' = None /\
    grant (wrapped ctr') = grant (wrapped ctr) /\
    eof_with_data (wrapped ctr') = eof_with_data (wrapped ctr) /\
    bytesRead ctr'
      = bytesRead ctr + Z.of_nat (length (take (Z.to_nat chunkSizeBytes) (pending ctr))).
Proof.
  intros Hg Hn Hn' Hb Hb'. unfold append_stream_chunk.
  rewrite (wrap_uint32_id (NumChunks upload + 1)) by (unfold in_uint32 in *; lia).
  destruct (ReadAll_spec (Datatypes.S (Datatypes.S (length (remaining (wrapped ctr))))) ctr
              chunkSizeBytes [])
    as (ctr' & n' & HA & Hp & Hk & Hg' & He' & Hbr); try assumption.
  { rewrite chunkSizeBytes_value. lia. }
  { pose proof (pending_length ctr). lia. }
  rewrite HA. cbn [app R StorageID]. unfold call_AppendToBlob.
  destruct (sd_AppendToBlob _ (sd w)) as [s' err] eqn:E.
  eexists _, ctr', err, _. split; [reflexivity |]. cbn [calls].
  split; [reflexivity |]. split; [| split; [reflexivity |]].
  - unfold expected_stream_call. cbn. repeat split; try lia.
    rewrite length_take, chunkSizeBytes_value. lia.
  - repeat split; try assumption. apply Hk. right. reflexivity.
Qed.




(** What [AppendToBlob] does with a reader that reports [io.EOF] together
    with its last byte, on a stream of one byte more than a chunk: the
    driver gets one chunk of 500 MiB, [IsEOF] then reads the last byte and
    answers true, and [AppendToBlob] returns what the driver returned.  The
    last byte is in no chunk, and [SizeBytes] has grown by 500 MiB only. *)
Lemma AppendToBlob_unknown_length_drops_last_byte (account : ReducedAccount)
    (upload : Upload) (contents : Stream) (w : World S) :
  makes_progress contents ->
  eof_with_data contents = true ->
  Z.of_nat (length (remaining contents)) = chunkSizeBytes + 1 ->
  in_uint32 (NumChunks upload) ->
  NumChunks upload + 1 < 2^32 ->
  in_uint64 (SizeBytes upload) ->
  SizeBytes upload + chunkSizeBytes + 1 < 2^64 ->
  exists (upload' : Upload) (w' : World S) (err : option string) (c : AppendCall),
    UnknownLength.AppendToBlob room account upload contents w
      = Some ((upload', w'), err) /\
    calls w' = calls w ++ [c] /\
    call_chunk c = take (Z.to_nat chunkSizeBytes) (remaining contents) /\
    call_chunk c <> remaining contents /\
    NumChunks upload' = NumChunks upload + 1 /\
    (err = None -> SizeBytes upload' = SizeBytes upload + chunkSizeBytes).
Proof.
  intros Hg He HL Hn Hn' Hs Hs'. unfold UnknownLength.AppendToBlob.
  cbn [foreachChunkWithUnknownSize].
  assert (HC : Z.of_nat (Z.to_nat chunkSizeBytes) = 524288000)
    by (rewrite chunkSizeBytes_value; lia).
  rewrite chunkSizeBytes_value in HL, Hs'.
  destruct (append_stream_chunk_spec account upload w (mkTrackingReader contents None 0))
    as (w1 & ctr1 & err1 & c & Ha & Hc & Hexp & Hbytes & Hp1 & Hk1 & Hg1 & He1 & Hb1);
    try assumption; unfold pending in *; cbn [peeked wrapped bytesRead] in *; try lia.
  rewrite Ha. rewrite length_take in Hb1.
  assert (Hshort : call_chunk c <> remaining contents).
  { rewrite Hbytes. intros Heq. apply (f_equal length) in Heq.
    rewrite length_take in Heq. lia. }
  destruct err1 as [e |].
  { eexists _, w1, (Some e), c. split; [reflexivity |]. split; [exact Hc |].
    split; [exact Hbytes |]. split; [exact Hshort |]. split; [reflexivity |].
    intros [=]. }
  rewrite Hk1 in Hp1.
  destruct (remaining (wrapped ctr1)) as [| x [| y rest]] eqn:Hrem.
  1,3: apply (f_equal length) in Hp1; rewrite length_drop in Hp1; cbn [length] in Hp1; lia.
  destruct (IsEOF_drops_last_byte ctr1 x) as (ctr2 & HE & Hp2 & Hb2); try assumption.
  { unfold makes_progress in *. now rewrite Hg1. }
  { congruence. }
  rewrite HE. eexists _, w1, None, c. split; [reflexivity |]. split; [exact Hc |].
  split; [exact Hbytes |]. split; [exact Hshort |]. split; [reflexivity |].
  intros _. cbn [SizeBytes]. rewrite Hb2, Hb1.
  rewrite wrap_uint64_id by (unfold in_uint64 in *; lia).
  rewrite chunkSizeBytes_value. lia.
Qed.

End UnknownLengthFacts.

Section UnknownLengthExamples.
Import Models Storage Chunking UnknownLength ChunkingFixtures.


(** An empty stream still makes one call, with an empty chunk; a stream
    that the driver reads byte by byte arrives as one chunk; and so does a
    stream whose reader hands out two bytes at a time and reports [io.EOF]
    together with the last one. *)
Example AppendToBlob_unknown_length_small :
  (exists w' : World Trivial.StorageDriver,
     UnknownLength.AppendToBlob (fun _ => 512%nat) example_account fresh_upload
         (bytes_Reader []) fresh_world
       = Some ((mkUpload "6b86b273" 0 1, w'), None) /\
     map call_chunkNumber (calls w') = [1] /\
     map call_chunkLength (calls w') = [None]) /\
  (exists w' : World Trivial.StorageDriver,
     UnknownLength.AppendToBlob (fun _ => 1%nat) example_account fresh_upload
         (bytes_Reader example_stream) fresh_world
       = Some ((mkUpload "6b86b273" 3 1, w'), None) /\
     map call_chunk (calls w') = [example_stream]) /\
  (exists w' : World Trivial.StorageDriver,
     UnknownLength.AppendToBlob (fun _ => 512%nat) example_account fresh_upload
         (mkStream example_stream (fun _ => 2%nat) true) fresh_world
       = Some ((mkUpload "6b86b273" 3 1, w'), None) /\
     map call_chunk (calls w') = [example_stream]).
Proof. split; [| split]; eexists; vm_compute; repeat split. Qed.

(** The reader that reports [io.EOF] together with its last byte, asked by
    [IsEOF] when one byte is left: the byte is gone. *)
Example IsEOF_on_last_byte :
  IsEOF (mkTrackingReader (mkStream [Byte.x03] (fun m => m) true) None 2)
  = (true, mkTrackingReader (mkStream [] (fun m => m) true) None 2) /\
  IsEOF (mkTrackingReader (bytes_Reader [Byte.x03]) None 2)
  = (false, mkTrackingReader (bytes_Reader []) (Some Byte.x03) 2).
Proof. split; reflexivity. Qed.

End UnknownLengthExamples.

(** ** Replication into the in-memory driver *)

Section ReplicationOnTrivial.
Import Models Storage Chunking Replication TrivialSessions.

Lemma append_chunk_on_trivial (account : ReducedAccount) (upload : Upload)
    (chunk old : list Byte.byte) (len : Z) (w : World Trivial.StorageDriver) :
  upload_in_driver account upload old (sd w) ->
  in_uint32 (NumChunks upload) -> NumChunks upload + 1 < 2^32 ->
  in_uint64 (SizeBytes upload) -> SizeBytes upload + len < 2^64 -> 0 <= len ->
  exists w',
    append_chunk account chunk len (upload, w)
      = ((mkUpload (StorageID upload) (SizeBytes upload + len) (NumChunks upload + 1), w'),
         None) /\
    upload_in_driver account
      (mkUpload (StorageID upload) (SizeBytes upload + len) (NumChunks upload + 1))
      (old ++ chunk) (sd w') /\
    calls w' = calls w
               ++ [mkAppendCall account (StorageID upload) (NumChunks upload + 1)
                     (Some len) chunk].
Proof.
  intros Hstate Hn Hn' Hs Hs' Hlen.
  unfold append_chunk, call_AppendToBlob. cbn [StorageID].
  rewrite (wrap_uint32_id (NumChunks upload + 1)) by (unfold in_uint32 in *; lia).
  rewrite (wrap_uint64_id (SizeBytes upload + len)) by (unfold in_uint64 in *; lia).
  cbn [sd_AppendToBlob Trivial.trivial_driver].
  destruct Hstate as [(H0 & -> & Hcount & Hblob) | (H1 & Hcount & Hblob)].
  - rewrite H0. change (0 + 1) with 1.
    rewrite AppendToBlob_first by exact Hcount. rewrite Hblob. cbn [default app].
    eexists. split; [reflexivity |]. split; [| reflexivity].
    right. cbn. rewrite !lookup_insert_eq. repeat split; lia.
  - rewrite (AppendToBlob_next account (StorageID upload) (Some len) chunk old
               (NumChunks upload) (sd w) Hcount Hblob H1 Hn').
    eexists. split; [reflexivity |]. split; [| reflexivity].
    right. cbn. rewrite !lookup_insert_eq. repeat split; lia.
Qed.

(** The chunking loop against the in-memory driver: every chunk is taken. *)
Lemma foreachChunk_loop_on_trivial (account : ReducedAccount) :
  forall (fuel : nat) (contents : Reader) (r : Z) (upload : Upload)
         (old : list Byte.byte) (w : World Trivial.StorageDriver),
    0 <= r ->
    Z.of_nat (length contents) = r ->
    r <= chunkSizeBytes * (Z.of_nat fuel + 1) ->
    in_uint32 (NumChunks upload) -> NumChunks upload + chunk_count r < 2^32 ->
    in_uint64 (SizeBytes upload) -> SizeBytes upload + r < 2^64 ->
    upload_in_driver account upload old (sd w) ->
    exists (upload' : Upload) (w' : World Trivial.StorageDriver)
           (new_calls : list AppendCall),
      foreachChunk_loop (append_chunk account) fuel contents r (upload, w)
        = Some ((upload', w'), None) /\
      StorageID upload' = StorageID upload /\
      1 <= NumChunks upload' /\
      Trivial.blobChunkCounts (sd w') !! Trivial.blobKey account (StorageID upload)
        = Some (NumChunks upload') /\
      Trivial.blobs (sd w') !! Trivial.blobKey account (StorageID upload)
        = Some (old ++ contents) /\
      calls w' = calls w ++ new_calls /\
      concat (map call_chunk new_calls) = contents.
Proof.
  assert (HC : 0 < chunkSizeBytes) by reflexivity.
  assert (Hlast : forall (contents : Reader) (r : Z) (upload : Upload)
                    (old : list Byte.byte) (w : World Trivial.StorageDriver),
            0 <= r -> r <= chunkSizeBytes ->
            in_uint32 (NumChunks upload) -> NumChunks upload + chunk_count r < 2^32 ->
            in_uint64 (SizeBytes upload) -> SizeBytes upload + r < 2^64 ->
            upload_in_driver account upload old (sd w) ->
            exists (upload' : Upload) (w' : World Trivial.StorageDriver)
                   (new_calls : list AppendCall),
              append_chunk account contents r (upload, w) = ((upload', w'), None) /\
              StorageID upload' = StorageID upload /\
              1 <= NumChunks upload' /\
              Trivial.blobChunkCounts (sd w') !! Trivial.blobKey account (StorageID upload)
                = Some (NumChunks upload') /\
              Trivial.blobs (sd w') !! Trivial.blobKey account (StorageID upload)
                = Some (old ++ contents) /\
              calls w' = calls w ++ new_calls /\
              concat (map call_chunk new_calls) = contents).
  { intros contents r upload old w Hr Hsmall Hn Hn' Hs Hs' Hstate.
    rewrite (chunk_count_small r) in Hn' by lia.
    destruct (append_chunk_on_trivial account upload contents old r w Hstate Hn Hn' Hs Hs' Hr)
      as (w' & Hrun & Hstate' & Hcalls).
    eexists _, w', _. split; [exact Hrun |]. split; [reflexivity |].
    destruct Hstate' as [(H0 & _) | (H1 & Hcount & Hblob)].
    - cbn in H0. unfold in_uint32 in Hn. lia.
    - cbn [NumChunks StorageID] in *. split; [exact H1 |]. split; [exact Hcount |].
      split; [exact Hblob |]. split; [exact Hcalls |]. cbn. apply app_nil_r. }
  induction fuel as [| fuel IH]; intros contents r upload old w Hr Hlen Hfuel Hn Hn' Hs Hs' Hstate.
  all: cbn [foreachChunk_loop]; destruct (chunkSizeBytes <? r) eqn:Hcmp;
    [apply Z.ltb_lt in Hcmp | apply Z.ltb_ge in Hcmp].
  - exfalso. rewrite chunkSizeBytes_value in *. lia.
  - destruct (Hlast contents r upload old w) as (upload' & w' & new_calls & Hrun & H);
      try assumption.
    exists upload', w', new_calls. now rewrite Hrun.
  - pose proof (chunk_count_step r Hcmp) as Hstep.
    pose proof (chunk_count_pos (r - chunkSizeBytes)) as Hpos.
    destruct (append_chunk_on_trivial account upload (LimitReader contents chunkSizeBytes)
                old chunkSizeBytes w Hstate Hn) as (w1 & Hrun1 & Hstate1 & Hcalls1);
      try assumption; try lia.
    rewrite Hrun1.
    rewrite (wrap_uint64_id (r - chunkSizeBytes)) by (unfold in_uint64 in *; lia).
    set (upload1 := mkUpload (StorageID upload) (SizeBytes upload + chunkSizeBytes)
                      (NumChunks upload + 1)) in *.
    destruct (IH (after_limit contents chunkSizeBytes) (r - chunkSizeBytes) upload1
                (old ++ LimitReader contents chunkSizeBytes) w1)
      as (upload' & w' & rest & Hrun & Hid & Hpos' & Hcount & Hblob & Hcalls & Hbytes).
    + lia.
    + rewrite after_limit_length by lia. lia.
    + rewrite chunkSizeBytes_value in *. lia.
    + unfold in_uint32 in *. cbn. lia.
    + cbn. lia.
    + unfold in_uint64 in *. cbn. rewrite chunkSizeBytes_value in *. lia.
    + cbn. lia.
    + exact Hstate1.
    + exists upload', w', (mkAppendCall account (StorageID upload) (NumChunks upload + 1)
                          (Some chunkSizeBytes) (LimitReader contents chunkSizeBytes) :: rest).
      split; [exact Hrun |]. cbn [StorageID upload1] in *.
      split; [exact Hid |]. split; [exact Hpos' |]. split; [exact Hcount |].
      split; [| split].
      * rewrite Hblob, <- app_assoc. unfold LimitReader, after_limit.
        now rewrite take_drop.
      * rewrite Hcalls, Hcalls1, <- app_assoc. reflexivity.
      * cbn [map concat call_chunk]. rewrite Hbytes.
        unfold LimitReader, after_limit. apply take_drop.
  - destruct (Hlast contents r upload old w) as (upload' & w' & new_calls & Hrun & H);
      try assumption.
    exists upload', w', new_calls. now rewrite Hrun.
Qed.

Variable timeNow : Z.
Variable generateStorageID : string.
Variable RepoClient : Type.
Variable getRepoClientForUpstream : ReducedAccount -> Repository -> result RepoClient.
Variable DownloadBlob : RepoClient -> string -> result (Reader * Z).
Variable SafeMediaType : Blob -> string.

(** The upload of a blob into the in-memory driver under a new storage ID
    goes through: the bytes are stored, and the blob row is backed. *)
Lemma uploadBlobToLocal_on_trivial (p : Processor Trivial.StorageDriver) (blob : Blob)
    (account : ReducedAccount) (contents : Reader) :
  chunk_count (Z.of_nat (length contents)) < 2^32 ->
  Z.of_nat (length contents) < 2^64 ->
  Trivial.blobChunkCounts (sd (world p)) !! Trivial.blobKey account generateStorageID = None ->
  Trivial.blobs (sd (world p)) !! Trivial.blobKey account generateStorageID = None ->
  exists (p' : Processor Trivial.StorageDriver),
    uploadBlobToLocal timeNow generateStorageID p blob account contents
      (Z.of_nat (length contents)) = Some (p', None) /\
    Trivial.ReadBlob account generateStorageID (sd (world p'))
      = Ok (contents, Z.of_nat (length contents)) /\
    bytes_appended (world p) (world p') = contents /\
    pending_blobs p' = pending_blobs p /\
    BlobsPushedCounter p' = BlobsPushedCounter p /\
    UploadsAbortedCounter p' = UploadsAbortedCounter p /\
    blobs p'
      = match blobs p !! blob_ID blob with
        | Some _ =>
            <[blob_ID blob :=
                mkBlob (blob_ID blob) (blob_AccountName blob) (blob_Digest blob)
                  (blob_SizeBytes blob) generateStorageID (blob_MediaType blob)
                  timeNow (timeNow + BlobValidationInterval) (blob_CanBeDeletedAt blob)]>
              (blobs p)
        | None => blobs p
        end.
Proof.
  intros Hchunks Hlen Hcount Hblob.
  unfold uploadBlobToLocal, AppendToBlob, foreachChunkWithKnownSize.
  destruct (foreachChunk_loop_on_trivial account
              (Z.to_nat (Z.of_nat (length contents) / chunkSizeBytes)) contents
              (Z.of_nat (length contents)) (mkUpload generateStorageID 0 0) [] (world p))
    as (upload' & w' & new_calls & Hrun & Hid & Hpos & Hcount' & Hblob' & Hcalls & Hbytes).
  - lia.
  - reflexivity.
  - rewrite Z2Nat.id by (apply Z.div_pos; [lia | reflexivity]).
    pose proof (Z.mul_succ_div_gt (Z.of_nat (length contents)) chunkSizeBytes eq_refl). lia.
  - unfold in_uint32. cbn. lia.
  - cbn. lia.
  - unfold in_uint64. cbn. lia.
  - cbn. lia.
  - left. cbn. auto.
  - rewrite Hrun. cbn [StorageID] in *. rewrite Hid.
    cbn [sd_FinalizeBlob Trivial.trivial_driver]. unfold Trivial.FinalizeBlob.
    rewrite Hblob'. rewrite bool_decide_eq_true_2 by eauto. cbn [negb app].
    unfold update_blob, with_driver, with_world.
    cbn [pending_blobs blobs world BlobsPushedCounter UploadsAbortedCounter sd calls].
    eexists. split; [reflexivity |].
    cbn [pending_blobs blobs world BlobsPushedCounter UploadsAbortedCounter sd calls].
    split; [| split; [| repeat split]].
    + unfold Trivial.ReadBlob. cbn [Trivial.blobs]. now rewrite Hblob'.
    + unfold bytes_appended. cbn [calls]. rewrite Hcalls.
      rewrite drop_app_length. exact Hbytes.
Qed.

(** Replication into the in-memory driver, from start to end.  When no
    other worker holds the blob, the upstream serves as many bytes as it
    announces, and the storage ID is new, [ReplicateBlob] returns nil: the
    bytes are in the driver under the new storage ID, the client has them
    with status 200 and their length, the blob row holds the storage ID and
    is due for validation in seven days, the pending row is gone and the
    push is counted. *)
Theorem ReplicateBlob_on_trivial (p : Processor Trivial.StorageDriver) (blob : Blob)
    (account : ReducedAccount) (repo : Repository) (rw : ResponseWriter)
    (client : RepoClient) (contents : Reader) :
  pending_blobs p !! (ra_Name account, blob_Digest blob) = None ->
  getRepoClientForUpstream account repo = Ok client ->
  DownloadBlob client (blob_Digest blob) = Ok (contents, Z.of_nat (length contents)) ->
  chunk_count (Z.of_nat (length contents)) < 2^32 ->
  Z.of_nat (length contents) < 2^64 ->
  Trivial.blobChunkCounts (sd (world p)) !! Trivial.blobKey account generateStorageID = None ->
  Trivial.blobs (sd (world p)) !! Trivial.blobKey account generateStorageID = None ->
  is_Some (blobs p !! blob_ID blob) ->
  exists (p' : Processor Trivial.StorageDriver) (rw' : ResponseWriter),
    ReplicateBlob timeNow generateStorageID RepoClient getRepoClientForUpstream
      DownloadBlob SafeMediaType p blob account repo (Some rw)
    = Some (p', Some rw', (true, None)) /\
    Trivial.ReadBlob account generateStorageID (sd (world p'))
      = Ok (contents, Z.of_nat (length contents)) /\
    rw_Status rw' = Some 200 /\
    rw_Header rw' !! "Content-Length" = Some (FormatUint (Z.of_nat (length contents))) /\
    rw_Body rw' = rw_Body rw ++ contents /\
    blobs p' !! blob_ID blob
      = Some (mkBlob (blob_ID blob) (blob_AccountName blob) (blob_Digest blob)
                (blob_SizeBytes blob) generateStorageID (blob_MediaType blob)
                timeNow (timeNow + BlobValidationInterval) (blob_CanBeDeletedAt blob)) /\
    pending_blobs p' = pending_blobs p /\
    BlobsPushedCounter p' = S (BlobsPushedCounter p).
Proof.
  intros Hfree Hclient Hdownload Hchunks Hlen Hcount Hblob [row Hrow].
  unfold ReplicateBlob, insert_pending_blob. cbn [pb_AccountName pb_Digest].
  rewrite Hfree. unfold replicate. rewrite Hclient, Hdownload. cbn [option_map].
  match goal with
  | |- context [uploadBlobToLocal _ _ ?p1 _ _ _ _] =>
      destruct (uploadBlobToLocal_on_trivial p1 blob account contents Hchunks Hlen Hcount Hblob)
        as (p' & Hrun & Hread & Hbytes & Hpending & Hpushed & Haborted & Hblobs)
  end.
  rewrite Hrun. cbn [pending_blobs blobs world] in *.
  unfold delete_pending_blobs, count_pushed.
  cbn [pending_blobs blobs world BlobsPushedCounter UploadsAbortedCounter].
  eexists _, _. split; [reflexivity |].
  cbn [pending_blobs blobs world BlobsPushedCounter UploadsAbortedCounter].
  split; [exact Hread |]. rewrite Hbytes.
  unfold tee, write_blob_headers. cbn [rw_Status rw_Header rw_Body].
  split; [reflexivity |]. split; [apply lookup_insert_eq |]. split; [reflexivity |].
  split; [| split].
  - rewrite Hblobs, Hrow. apply lookup_insert_eq.
  - rewrite Hpending, delete_insert_eq. now apply delete_id.
  - cbn in Hpushed. now rewrite Hpushed.
Qed.

End ReplicationOnTrivial.

Section ReplicationOnTrivialExamples.
Import Models Storage Chunking Replication ReplicationFixtures.

(** The idle blob of the fixtures, replicated from the upstream that serves
    three bytes. *)
Lemma ReplicateBlob_on_trivial_witness :
  exists (p' : Processor Trivial.StorageDriver) (rw' : ResponseWriter),
    replicate_on idle = Some (p', Some rw', (true, None)) /\
    Trivial.ReadBlob replica_account "6b86b273" (sd (world p'))
      = Ok ([Byte.x7b; Byte.x7d; Byte.x0a], 3) /\
    rw_Status rw' = Some 200 /\
    rw_Header rw' !! "Content-Length" = Some "3" /\
    rw_Body rw' = [Byte.x7b; Byte.x7d; Byte.x0a] /\
    blobs p' !! 1
      = Some (mkBlob 1 "library" (blob_Digest config_blob) 3 "6b86b273"
                (blob_MediaType config_blob) 3600 (3600 + BlobValidationInterval) None) /\
    pending_blobs p' = pending_blobs idle /\
    BlobsPushedCounter p' = 1%nat.
Proof.
  apply (ReplicateBlob_on_trivial 3600 "6b86b273" unit upstream_client upstream_download
           blob_MediaType idle config_blob replica_account alpine empty_response tt
           [Byte.x7b; Byte.x7d; Byte.x0a]);
    try reflexivity.
  vm_compute. eauto.
Defined.

End ReplicationOnTrivialExamples.

(** ** Platform filters *)

Section PlatformFilterFacts.
Import Imagespecs Models.

(** [IsEqualTo] decides the equality of two filters: the same platforms in
    the same order. *)
Theorem IsEqualTo_iff_equal (f other : PlatformFilter) :
  IsEqualTo f other = true <-> f = other.
Proof.
  unfold IsEqualTo. revert other.
  induction f as [| p f IH]; intros [| q other]; cbn [length Nat.eqb negb combine forallb].
  - split; reflexivity.
  - split; discriminate.
  - split; discriminate.
  - specialize (IH other).
    destruct (length f =? length other)%nat eqn:Hlen; cbn [negb] in *.
    + rewrite andb_true_iff, bool_decide_eq_true, IH. split.
      * intros [-> ->]. reflexivity.
      * intros [= -> ->]. split; reflexivity.
    + split; [discriminate |]. intros [= -> ->].
      rewrite Nat.eqb_refl in Hlen. discriminate Hlen.
Qed.

(** What [Includes] accepts: everything when the filter is empty, and
    otherwise exactly the platforms that the filter lists. *)
Lemma Includes_iff (f : PlatformFilter) (platform : Platform) :
  Includes f platform = true <-> f = [] \/ In platform f.
Proof.
  unfold Includes. destruct f as [| p f]; cbn [length Nat.eqb].
  - split; auto.
  - rewrite existsb_exists. split.
    + intros (x & Hin & Hx). apply bool_decide_eq_true in Hx. subst. now right.
    + intros [H | H]; [discriminate H |].
      exists platform. split; [exact H | now apply bool_decide_eq_true].
Qed.

End PlatformFilterFacts.

(** ** Parsed manifests *)

Section ParsedManifestFacts.
Import Imagespecs Models Manifest.

Lemma index_references_spec (pf : PlatformFilter) :
  forall (ms acc : list Descriptor),
    index_references pf ms acc
    = acc ++ List.filter (fun m => match DPlatform m with
                                   | None => true
                                   | Some platform => Includes pf platform
                                   end) ms.
Proof.
  induction ms as [| m ms IH]; intros acc; cbn [index_references List.filter].
  - now rewrite app_nil_r.
  - destruct (match DPlatform m with None => true | Some platform => Includes pf platform end);
      rewrite IH; [now rewrite <- app_assoc | reflexivity].
Qed.

(** What the interface promises of [AcceptableAlternates]: it never
    panics, and what it returns is taken from [ManifestReferences] of the
    same manifest and platform filter. *)
Theorem AcceptableAlternates_among_references (a : ParsedManifest) (pf : PlatformFilter) :
  exists alternates,
    AcceptableAlternates a pf = Some alternates /\
    forall d, In d alternates -> In d (ManifestReferences a pf).
Proof.
  destruct a as [m | m | m | m]; try (exists []; split; [reflexivity | intros d []]).
  unfold AcceptableAlternates.
  destruct (String.eqb_spec (list_MediaType m) DockerV2ListMediaType) as [Hmt | Hmt].
  - rewrite (list_alternates_spec _ _ [] Hmt).
    + eexists. split; [reflexivity |]. cbn [app]. intros d Hd.
      now apply filter_In in Hd as [Hd _].
    + intros d Hd. rewrite ManifestReferences_list in Hd.
      now apply filtered_children_platform in Hd.
  - rewrite (list_alternates_other _ _ [] Hmt).
    exists []. split; [reflexivity | intros d []].
Qed.

(** Without a platform filter every child of a manifest list or an image
    index is a reference, in the order of the manifest; an image manifest
    has none. *)
Theorem ManifestReferences_without_filter (a : ParsedManifest) :
  map Digest (ManifestReferences a []) = child_digests a.
Proof.
  destruct a as [m | m | m | m]; try reflexivity.
  - rewrite ManifestReferences_list. unfold filtered_children, child_digests.
    rewrite map_map. cbn [Digest].
    f_equal. apply filter_all. reflexivity.
  - cbn [ManifestReferences child_digests]. rewrite index_references_spec. cbn [app].
    f_equal. apply filter_all. intros d _. now destruct (DPlatform d).
Qed.

End ParsedManifestFacts.

Section ParseManifestFacts.
Import Imagespecs Models Manifest.
Variable Schema2ListFromManifest : list Byte.byte -> result Schema2List.
Variable Schema2FromManifest : list Byte.byte -> result Schema2.
Variable OCI1IndexFromManifest : list Byte.byte -> result OCI1Index.
Variable OCI1FromManifest : list Byte.byte -> result OCI1.

(** [ManifestMediaTypes] and the switch of [ParseManifest] agree:
    [ParseManifest] returns a manifest only for a media type of the list,
    and for a media type of the list it fails only with the error of one of
    the parsers of the image library, never because the media type is
    unsupported. *)
Theorem ParseManifest_media_types (mediaType : string) (contents : list Byte.byte) :
  let parsed :=
    ParseManifest Schema2ListFromManifest Schema2FromManifest
      OCI1IndexFromManifest OCI1FromManifest mediaType contents in
  (is_ok parsed = true -> In mediaType ManifestMediaTypes) /\
  (In mediaType ManifestMediaTypes ->
   forall e : string, parsed = Err e ->
     Schema2ListFromManifest contents = Err e \/
     Schema2FromManifest contents = Err e \/
     OCI1IndexFromManifest contents = Err e \/
     OCI1FromManifest contents = Err e).
Proof.
  unfold ParseManifest, ManifestMediaTypes.
  destruct (String.eqb_spec mediaType DockerV2ListMediaType) as [E1 | E1].
  { split; [intros _; now left |]. intros _ e.
    destruct (Schema2ListFromManifest contents); cbn; [discriminate | intros [= ->]; auto]. }
  destruct (String.eqb_spec mediaType DockerV2Schema2MediaType) as [E2 | E2].
  { split; [intros _; right; now left |]. intros _ e.
    destruct (Schema2FromManifest contents); cbn; [discriminate | intros [= ->]; auto]. }
  destruct (String.eqb_spec mediaType MediaTypeImageIndex) as [E3 | E3].
  { split; [intros _; right; right; now left |]. intros _ e.
    destruct (OCI1IndexFromManifest contents); cbn; [discriminate | intros [= ->]; auto]. }
  destruct (String.eqb_spec mediaType MediaTypeImageManifest) as [E4 | E4].
  { split; [intros _; right; right; right; now left |]. intros _ e.
    destruct (OCI1FromManifest contents); cbn; [discriminate | intros [= ->]; auto 6]. }
  split; [discriminate |].
  intros [H | [H | [H | [H | []]]]]; congruence.
Qed.

End ParseManifestFacts.

(** ** Audiences *)

Section AudienceIdentification.
Import Keppel Auth.
Variable IsAccountName : string -> bool.

Lemma cut_dot_join (s h t : string) :
  cut_dot s = Some (h, t) -> s = (h ++ "." ++ t)%string.
Proof.
  revert h. induction s as [| c s IH]; intros h; cbn [cut_dot]; [discriminate |].
  destruct (Ascii.eqb_spec c ".") as [-> | Hc].
  - intros [= <- <-]. reflexivity.
  - destruct (cut_dot s) as [[h' t'] |]; [| discriminate].
    intros [= <- <-]. rewrite append_cons. f_equal. now apply IH.
Qed.

(** Without an anycast hostname in the configuration, no hostname is taken
    for an anycast audience. *)
Theorem IdentifyAudience_no_anycast_without_hostname (hostname : string)
    (cfg : Configuration) :
  AnycastAPIPublicHostname cfg = "" ->
  IsAnycast (IdentifyAudience IsAccountName hostname cfg) = false.
Proof.
  intros Hany.
  assert (Hremapped : IsAnycast (identify_remapped IsAccountName hostname cfg) = false).
  { unfold identify_remapped, SplitN_dot_2.
    destruct (cut_dot hostname) as [[head tail] |]; [| reflexivity].
    destruct (negb (head =? "")%string); [| reflexivity].
    destruct (String.eqb_spec tail "") as [Ht | Ht]; cbn [negb andb]; [reflexivity |].
    destruct (IsAccountName head); [| reflexivity].
    destruct (tail =? APIPublicHostname cfg)%string; [reflexivity |].
    rewrite Hany. apply String.eqb_neq in Ht. now rewrite Ht. }
  unfold IdentifyAudience.
  destruct (String.eqb_spec hostname "") as [Hh | Hh]; cbn [negb]; [exact Hremapped |].
  destruct (hostname =? APIPublicHostname cfg)%string; [reflexivity |].
  rewrite Hany. apply String.eqb_neq in Hh. now rewrite Hh.
Qed.

(** The other way round of the round trip: the audience of a hostname has
    this hostname again, unless the hostname was not recognised and the
    audience is the fallback, whose hostname is the public one. *)
Theorem Hostname_of_IdentifyAudience (hostname : string) (cfg : Configuration) :
  Hostname (IdentifyAudience IsAccountName hostname cfg) cfg = hostname \/
  (IdentifyAudience IsAccountName hostname cfg = fallback /\
   Hostname fallback cfg = APIPublicHostname cfg).
Proof.
  assert (Hremapped :
            Hostname (identify_remapped IsAccountName hostname cfg) cfg = hostname \/
            identify_remapped IsAccountName hostname cfg = fallback).
  { unfold identify_remapped, SplitN_dot_2.
    destruct (cut_dot hostname) as [[head tail] |] eqn:Hcut; [| now right].
    apply cut_dot_join in Hcut.
    destruct (String.eqb_spec head "") as [Hhead | Hhead]; cbn [negb andb]; [now right |].
    destruct (negb (tail =? "")%string); [| now right].
    destruct (IsAccountName head); [| now right].
    destruct (String.eqb_spec tail (APIPublicHostname cfg)) as [Ht | Ht].
    - left. unfold Hostname. cbn [IsAnycast AccountName].
      apply String.eqb_neq in Hhead. rewrite Hhead. cbn [negb]. now rewrite <- Ht.
    - destruct (String.eqb_spec tail (AnycastAPIPublicHostname cfg)) as [Ht' | Ht'];
        [| now right].
      left. unfold Hostname. cbn [IsAnycast AccountName].
      apply String.eqb_neq in Hhead. rewrite Hhead. cbn [negb]. now rewrite <- Ht'. }
  assert (Hfallback : Hostname fallback cfg = APIPublicHostname cfg) by reflexivity.
  unfold IdentifyAudience.
  destruct (String.eqb_spec hostname "") as [Hh | Hh]; cbn [negb].
  - destruct Hremapped as [H | H]; [now left | right; now split].
  - destruct (String.eqb_spec hostname (APIPublicHostname cfg)) as [H1 | H1];
      [left; now rewrite H1 |].
    destruct (String.eqb_spec hostname (AnycastAPIPublicHostname cfg)) as [H2 | H2];
      [left; now rewrite H2 |].
    destruct Hremapped as [H | H]; [now left | right; now split].
Qed.

End AudienceIdentification.

Section AudienceIdentificationExamples.
Import Keppel Auth.

(** A deployment without an anycast endpoint. *)
Lemma IdentifyAudience_no_anycast_without_hostname_witness :
  IsAnycast (IdentifyAudience dns_label "library.keppel.example.org"
               (mkConfiguration "keppel.example.org" "")) = false.
Proof.
  apply (IdentifyAudience_no_anycast_without_hostname dns_label).
  reflexivity.
Defined.

End AudienceIdentificationExamples.

(** ** What a reverse-proxied request carries *)

Section ReverseProxyFacts.
Import Keppel Auth Anycast.

(** The request that goes to the peer keeps the method and the path of the
    client's request and goes to the peer's host.  Of the client's headers
    only [Accept] and [Authorization] are passed on; every other header is
    dropped, and [X-Keppel-Forwarded-By] is set to this Keppel's hostname
    whatever the client sent under this name.  The query is the client's,
    with [forwarded-by] set. *)
Theorem proxy_request_passes_listed_headers_only (cfg : Configuration) (r : Request)
    (peerHostName : string) :
  let req := proxy_request cfg r peerHostName in
  Method req = Method r /\ Path req = Path r /\ Host req = peerHostName /\
  Header req !! "Accept" = Some (default [] (Header r !! "Accept")) /\
  Header req !! "Authorization" = Some (default [] (Header r !! "Authorization")) /\
  Header req !! "X-Keppel-Forwarded-By" = Some [APIPublicHostname cfg] /\
  (forall name : string,
     name <> "Accept" -> name <> "Authorization" -> name <> "X-Keppel-Forwarded-By" ->
     Header req !! name = None) /\
  (forall key : string, key <> "forwarded-by" -> Query req !! key = Query r !! key).
Proof.
  unfold proxy_request, Values_Set, reverseProxyHeaders.
  cbn [Method Path Host Header Query fold_left].
  split; [reflexivity |]. split; [reflexivity |]. split; [reflexivity |].
  split; [| split; [| split; [| split]]].
  - rewrite lookup_insert_ne by discriminate.
    rewrite lookup_insert_ne by discriminate. apply lookup_insert_eq.
  - rewrite lookup_insert_ne by discriminate. apply lookup_insert_eq.
  - apply lookup_insert_eq.
  - intros name H1 H2 H3.
    rewrite !lookup_insert_ne by congruence. apply lookup_empty.
  - intros key Hkey. now rewrite lookup_insert_ne by congruence.
Qed.

End ReverseProxyFacts.

(** ** Creating and updating accounts *)

Section CreateOrUpdateFacts.
Import Models FederationDriver Accounts.
Context {P : Policies} {FD SD : Type}.
Variable fd_ClaimAccountName : FD -> Account -> string -> FD * (ClaimResult * option string).
Variable sd_CanSetupAccount : ReducedAccount -> SD -> option string.

(** A request that is answered with an error has changed neither the
    accounts table nor the audit trail, and the storage driver was not
    touched. *)
Theorem CreateOrUpdateAccount_error_writes_nothing (p p' : Processor FD SD)
    (account : APIAccount P) (userInfo : option string)
    (getSubleaseToken : string -> result string)
    (setCustomFields : Account -> rresult Account) (rerr : RegistryV2Error) :
  CreateOrUpdateAccount fd_ClaimAccountName sd_CanSetupAccount p account userInfo
    getSubleaseToken setCustomFields = (p', RErr rerr) ->
  db_accounts p' = db_accounts p /\ db_peers p' = db_peers p /\
  audit p' = audit p /\ sd p' = sd p.
Proof.
  unfold CreateOrUpdateAccount, FindAccount.
  destruct (check_account_name (api_Name account)); [now intros [= <- _] |].
  destruct (db_accounts p !! api_Name account) as [original |].
  - destruct (negb (AuthTenantID original =? api_AuthTenantID account)%string);
      [now intros [= <- _] |].
    destruct (validate_account p account (Some original) setCustomFields)
      as [[targetAccount peer] | e]; [| now intros [= <- _]].
    destruct userInfo as [user |];
      repeat match goal with
             | |- context [if ?b then _ else _] => destruct b
             end; discriminate.
  - destruct (validate_account p account None setCustomFields)
      as [[targetAccount peer] | e]; [| now intros [= <- _]].
    destruct (if negb (UpstreamPeerHostName targetAccount =? "")%string
              then getSubleaseToken peer else Ok "") as [secret | e];
      [| now intros [= <- _]].
    destruct (fd_ClaimAccountName (fd p) targetAccount secret) as [fd' [claimResult err]].
    destruct claimResult; cbn [sd fd db_accounts db_peers audit].
    + destruct (sd_CanSetupAccount (Reduced targetAccount) (sd p));
        [now intros [= <- _] |].
      destruct userInfo; discriminate.
    + now intros [= <- _].
    + now intros [= <- _].
Qed.

(** An account is only created after the federation driver has granted its
    name and the storage driver has agreed to set it up.  The row that is
    inserted is the account that is returned, and the creation is recorded
    for the user, if there is one. *)
Theorem CreateOrUpdateAccount_creates_after_claim (p p' : Processor FD SD)
    (account : APIAccount P) (userInfo : option string)
    (getSubleaseToken : string -> result string)
    (setCustomFields : Account -> rresult Account) (created : Account) :
  db_accounts p !! api_Name account = None ->
  CreateOrUpdateAccount fd_ClaimAccountName sd_CanSetupAccount p account userInfo
    getSubleaseToken setCustomFields = (p', ROk created) ->
  (exists (secret : string) (err : option string),
     fd_ClaimAccountName (fd p) created secret = (fd p', (ClaimSucceeded, err))) /\
  sd_CanSetupAccount (Reduced created) (sd p) = None /\
  db_accounts p' = <[Name created := created]> (db_accounts p) /\
  audit p' = audit p ++ match userInfo with
                        | Some user => [mkAuditEvent user CreateAction created]
                        | None => []
                        end.
Proof.
  intros Hnew. unfold CreateOrUpdateAccount, FindAccount. rewrite Hnew.
  destruct (check_account_name (api_Name account)); [discriminate |].
  destruct (validate_account p account None setCustomFields)
    as [[targetAccount peer] | e]; [| discriminate].
  destruct (if negb (UpstreamPeerHostName targetAccount =? "")%string
            then getSubleaseToken peer else Ok "") as [secret | e]; [| discriminate].
  destruct (fd_ClaimAccountName (fd p) targetAccount secret) as [fd' [claimResult err]] eqn:Hclaim.
  destruct claimResult; cbn [sd fd db_accounts db_peers audit]; try discriminate.
  destruct (sd_CanSetupAccount (Reduced targetAccount) (sd p)) eqn:Hsetup; [discriminate |].
  destruct userInfo as [user |]; intros [= <- <-]; cbn [sd fd db_accounts db_peers audit].
  - split; [now exists secret, err |]. repeat split; auto.
  - split; [now exists secret, err |]. repeat split; auto. now rewrite app_nil_r.
Qed.

(** Updating an account that exists never goes to the federation driver or
    to the storage driver: names are claimed at creation only.  The row is
    written only if something changes, and the update is recorded only if
    something other than the deletion mark changes. *)
Theorem CreateOrUpdateAccount_update_claims_nothing (p p' : Processor FD SD)
    (account : APIAccount P) (userInfo : option string)
    (getSubleaseToken : string -> result string)
    (setCustomFields : Account -> rresult Account) (original updated : Account) :
  db_accounts p !! api_Name account = Some original ->
  CreateOrUpdateAccount fd_ClaimAccountName sd_CanSetupAccount p account userInfo
    getSubleaseToken setCustomFields = (p', ROk updated) ->
  fd p' = fd p /\ sd p' = sd p /\
  AuthTenantID original = api_AuthTenantID account /\
  db_accounts p' = (if decide (original = updated) then db_accounts p
                    else <[Name updated := updated]> (db_accounts p)) /\
  audit p' = audit p ++ match userInfo with
                        | Some user =>
                            if decide (set_IsDeleting original (IsDeleting updated) = updated)
                            then []
                            else [mkAuditEvent user UpdateAction updated]
                        | None => []
                        end.
Proof.
  intros Hrow. unfold CreateOrUpdateAccount, FindAccount. rewrite Hrow.
  destruct (check_account_name (api_Name account)); [discriminate |].
  destruct (String.eqb_spec (AuthTenantID original) (api_AuthTenantID account)) as [Ht | Ht];
    cbn [negb]; [| discriminate].
  destruct (validate_account p account (Some original) setCustomFields)
    as [[targetAccount peer] | e]; [| discriminate].
  unfold bool_decide.
  destruct userInfo as [user |];
    destruct (decide_rel eq original targetAccount) as [E1 | E1]; cbn [negb];
    try destruct (decide_rel eq (set_IsDeleting original (IsDeleting targetAccount))
                    targetAccount) as [E2 | E2]; cbn [negb];
    intros [= <- <-]; cbn [sd fd db_accounts db_peers audit];
    repeat split; auto;
    repeat match goal with
           | |- context [decide ?Q] => destruct (decide Q); try contradiction
           end; auto using app_nil_r.
Qed.

End CreateOrUpdateFacts.

Section CreateOrUpdateExamples.
Import Models FederationDriver Accounts AccountsFixtures.

(** The storage driver refuses new accounts: the name is claimed, but no
    account row is written. *)
Lemma CreateOrUpdateAccount_error_writes_nothing_witness :
  let p := mkProcessor (∅ : gmap AccountName Account) (∅ : gset string)
             (∅ : gmap string FederationSwift.accountFile)
             (Trivial.mkStorageDriver ∅ ∅ true) [] in
  let p' := fst (CreateOrUpdateAccount
                   (FederationSwift.ClaimAccountName FederationFixtures.peerA)
                   Trivial.CanSetupAccount p (api_account "library") (Some "alice")
                   (fun _ => Err "no sublease token") (fun account => ROk account)) in
  db_accounts p' = db_accounts p /\ db_peers p' = db_peers p /\
  audit p' = audit p /\ sd p' = sd p.
Proof.
  apply (CreateOrUpdateAccount_error_writes_nothing
           (FederationSwift.ClaimAccountName FederationFixtures.peerA)
           Trivial.CanSetupAccount _ _ (api_account "library") (Some "alice")
           (fun _ => Err "no sublease token") (fun account => ROk account)
           (mkRegistryV2Error
              "cannot set up backing storage for this account: CanSetupAccount failed as requested"
              (Some 409))).
  vm_compute. reflexivity.
Defined.

(** Alice creates the account [library] on a fresh deployment. *)
Lemma CreateOrUpdateAccount_creates_after_claim_witness :
  let created := mkAccount "library" "tenant1" "" "" [] "" false "[]" "" "[]" "[]" None None in
  let p' := fst (create (api_account "library")) in
  (exists (secret : string) (err : option string),
     FederationSwift.ClaimAccountName FederationFixtures.peerA (fd fresh_processor)
       created secret = (fd p', (ClaimSucceeded, err))) /\
  Trivial.CanSetupAccount (Reduced created) (sd fresh_processor) = None /\
  db_accounts p' = <[Name created := created]> (db_accounts fresh_processor) /\
  audit p' = audit fresh_processor ++ [mkAuditEvent "alice" CreateAction created].
Proof.
  apply (CreateOrUpdateAccount_creates_after_claim
           (FederationSwift.ClaimAccountName FederationFixtures.peerA)
           Trivial.CanSetupAccount fresh_processor _ (api_account "library") (Some "alice")
           (fun _ => Err "no sublease token") (fun account => ROk account));
    [reflexivity | vm_compute; reflexivity].
Defined.

(** Alice sends the same account again, now marked as deleting. *)
Lemma CreateOrUpdateAccount_update_claims_nothing_witness :
  let original := mkAccount "library" "tenant1" "" "" [] "" false "[]" "" "[]" "[]" None None in
  let updated := mkAccount "library" "tenant1" "" "" [] "" true "[]" "" "[]" "[]" None None in
  let p := fst (create (api_account "library")) in
  let p' := fst (CreateOrUpdateAccount
                   (FederationSwift.ClaimAccountName FederationFixtures.peerA)
                   Trivial.CanSetupAccount p
                   (@mkAPIAccount no_policies "library" "tenant1" "deleting" [] [] [] None None None)
                   (Some "alice")
                   (fun _ => Err "no sublease token") (fun account => ROk account)) in
  fd p' = fd p /\ sd p' = sd p /\
  AuthTenantID original = "tenant1" /\
  db_accounts p' = (if decide (original = updated) then db_accounts p
                    else <[Name updated := updated]> (db_accounts p)) /\
  audit p' = audit p ++ (if decide (set_IsDeleting original (IsDeleting updated) = updated)
                         then []
                         else [mkAuditEvent "alice" UpdateAction updated]).
Proof.
  apply (CreateOrUpdateAccount_update_claims_nothing
           (FederationSwift.ClaimAccountName FederationFixtures.peerA)
           Trivial.CanSetupAccount _ _
           (@mkAPIAccount no_policies "library" "tenant1" "deleting" [] [] [] None None None)
           (Some "alice")
           (fun _ => Err "no sublease token") (fun account => ROk account));
    vm_compute; reflexivity.
Defined.

End CreateOrUpdateExamples.

(** ** The last stage of an account deletion *)

Section AccountDeletionEnd.
Import Models AccountDeletion.
Context {SD FD : Type}.
Variable timeNow : Z.
Variable digest_Parse : string -> result string.
Variable sd_DeleteManifest : ReducedAccount -> string -> string -> SD -> SD * option string.
Variable sd_CleanupAccount : ReducedAccount -> SD -> SD * option string.
Variable fd_ForfeitAccountName : Account -> FD -> FD * option string.

Lemma account_manifests_none (d : DB) (accountName : AccountName)
    (keep : Repository -> ManifestRow -> bool) :
  account_manifests d accountName (fun _ _ => true) = [] ->
  account_manifests d accountName keep = [].
Proof.
  unfold account_manifests.
  induction (manifests d) as [| m ms IH]; cbn [flat_map]; [reflexivity |].
  intros H. apply app_eq_nil in H as [Hm Hms]. rewrite (IH Hms), app_nil_r. clear IH Hms.
  induction (repos d) as [| r rs IHr]; cbn [flat_map] in *; [reflexivity |].
  apply app_eq_nil in Hm as [Hr Hrs]. rewrite (IHr Hrs), app_nil_r.
  rewrite andb_true_r in Hr.
  destruct ((m_RepoID m =? repo_ID r) && (repo_AccountName r =? accountName)%string
            && bool_decide (is_Some (accounts d !! accountName))); [discriminate Hr |].
  reflexivity.
Qed.

(** The last stage of [deleteMarkedAccount], for an account without
    manifests and blobs.  The repositories of the account are deleted in any
    case.  The account row is deleted only if both the storage driver and
    the federation driver confirm; if one of them fails, the task returns
    its error, and the account row is still there.  The federation driver is
    asked only after the storage driver has confirmed. *)
Theorem deleteMarkedAccount_last_stage (j : Janitor SD FD) (accountName : AccountName)
    (a : Account) :
  accounts (db j) !! accountName = Some a ->
  Name a = accountName ->
  deleteAccountCountManifestsQuery (db j) accountName = 0 ->
  deleteAccountCountBlobsQuery (db j) accountName = 0 ->
  exists (j' : Janitor SD FD) (err : option string),
    deleteMarkedAccount_body timeNow digest_Parse sd_DeleteManifest sd_CleanupAccount
      fd_ForfeitAccountName Accounts.FindAccount j accountName = Return j' err /\
    (forall r, In r (repos (db j')) -> repo_AccountName r <> accountName) /\
    sd j' = fst (sd_CleanupAccount (Accounts.Reduced a) (sd j)) /\
    match snd (sd_CleanupAccount (Accounts.Reduced a) (sd j)) with
    | Some _ =>
        err <> None /\ accounts (db j') !! accountName = Some a /\ fd j' = fd j
    | None =>
        fd j' = fst (fd_ForfeitAccountName a (fd j)) /\
        match snd (fd_ForfeitAccountName a (fd j)) with
        | Some _ => err <> None /\ accounts (db j') !! accountName = Some a
        | None => err = None /\ accounts (db j') !! accountName = None
        end
    end.
Proof.
  intros Hrow Hname Hmanifests Hblobs.
  assert (Hnone : account_manifests (db j) accountName (fun _ _ => true) = []).
  { unfold deleteAccountCountManifestsQuery in Hmanifests.
    destruct (account_manifests (db j) accountName (fun _ _ => true)); [reflexivity |].
    cbn [length] in Hmanifests. lia. }
  unfold deleteMarkedAccount_body, Accounts.FindAccount. rewrite Hrow, Hname.
  unfold deleteAccountFindManifestsQuery.
  rewrite (account_manifests_none _ _ _ Hnone). cbn [map foreach_manifest_row].
  rewrite Hmanifests. cbn [Z.ltb Z.compare].
  unfold with_db. cbn [db sd fd]. unfold deleteAccountCountBlobsQuery in *.
  cbn [blobs deleteAccountReposQuery]. rewrite Hblobs. cbn [Z.ltb Z.compare].
  assert (Hrepos : forall r,
            In r (List.filter (fun r => negb (repo_AccountName r =? accountName)%string)
                    (repos (db j))) -> repo_AccountName r <> accountName).
  { intros r Hr. apply filter_In in Hr as [_ Hr].
    now apply negb_true_iff, String.eqb_neq in Hr. }
  destruct (sd_CleanupAccount (Accounts.Reduced a) (sd j)) as [s [e |]]; cbn [fst snd].
  - eexists _, _. split; [reflexivity |]. cbn [db sd fd repos accounts].
    split; [exact Hrepos |]. split; [reflexivity |].
    split; [discriminate |]. split; [exact Hrow | reflexivity].
  - destruct (fd_ForfeitAccountName a (fd j)) as [f [e |]]; cbn [fst snd].
    + eexists _, _. split; [reflexivity |]. cbn [db sd fd repos accounts].
      split; [exact Hrepos |]. split; [reflexivity |]. split; [reflexivity |].
      split; [discriminate | exact Hrow].
    + eexists _, _. split; [reflexivity |].
      cbn [db sd fd repos accounts delete_account].
      split; [exact Hrepos |]. split; [reflexivity |]. split; [reflexivity |].
      split; [reflexivity | apply lookup_delete_eq].
Qed.

End AccountDeletionEnd.

Section AccountDeletionEndExamples.
Import Models AccountDeletion DeletionFixtures.

(** The account [test1] after its manifests and blobs are gone. *)
Lemma deleteMarkedAccount_last_stage_witness :
  let j := mkJanitor (mkDB {[ "test1" := test1 ]} [foo] [] [] []) tt tt in
  exists (j' : Janitor unit unit) (err : option string),
    run_body j = Return j' err /\
    (forall r, In r (repos (db j')) -> repo_AccountName r <> "test1") /\
    sd j' = fst (storage_cleanup (Accounts.Reduced test1) (sd j)) /\
    match snd (storage_cleanup (Accounts.Reduced test1) (sd j)) with
    | Some _ => err <> None /\ accounts (db j') !! "test1" = Some test1 /\ fd j' = fd j
    | None =>
        fd j' = fst (forfeit test1 (fd j)) /\
        match snd (forfeit test1 (fd j)) with
        | Some _ => err <> None /\ accounts (db j') !! "test1" = Some test1
        | None => err = None /\ accounts (db j') !! "test1" = None
        end
    end.
Proof.
  apply (deleteMarkedAccount_last_stage clock parse_digest storage_delete_manifest
           storage_cleanup forfeit
           (mkJanitor (mkDB {[ "test1" := test1 ]} [foo] [] [] []) tt tt) "test1" test1);
    reflexivity.
Defined.

(** The marked account of the fixtures has three manifest rows. *)
Lemma deleteMarkedAccount_returns_witness :
  exists out,
    run 3 marked = Some out /\ forall j', out <> Recurse j'.
Proof.
  apply (deleteMarkedAccount_returns clock parse_digest storage_delete_manifest
           storage_cleanup forfeit Accounts.FindAccount "test1" 3 marked).
  cbn. lia.
Defined.

End AccountDeletionEndExamples.

(** ** Marking accounts for deletion, and finding the marked ones *)

Section DiscoverFacts.
Import Models AccountDeletion.

Lemma insert_by_attempt_In (a b : Account) (l : list Account) :
  In b (insert_by_attempt a l) <-> b = a \/ In b l.
Proof.
  induction l as [| c l IH]; cbn [insert_by_attempt].
  - cbn. intuition congruence.
  - destruct (attempt_order a c); cbn [In]; [intuition congruence |].
    rewrite IH. intuition congruence.
Qed.

Lemma sorted_by_attempt_In (b : Account) (l : list Account) :
  In b (fold_right insert_by_attempt [] l) <-> In b l.
Proof.
  induction l as [| a l IH]; cbn [fold_right]; [reflexivity |].
  rewrite insert_by_attempt_In, IH. cbn. intuition congruence.
Qed.

Lemma attempt_order_false (a b : Account) :
  attempt_order a b = false -> attempt_at b <= attempt_at a.
Proof.
  unfold attempt_order, attempt_at.
  destruct (NextDeletionAttemptAt a) as [ta |], (NextDeletionAttemptAt b) as [tb |];
    try discriminate.
  cbn [default]. unfold id. intros H. apply orb_false_iff in H as [H _].
  apply Z.ltb_ge in H. exact H.
Qed.

Lemma attempt_order_true (now : Z) (a b : Account) :
  due_for_deletion now a = true -> due_for_deletion now b = true ->
  attempt_order a b = true -> attempt_at a <= attempt_at b.
Proof.
  unfold due_for_deletion, attempt_order, attempt_at.
  destruct (NextDeletionAttemptAt a) as [ta |], (NextDeletionAttemptAt b) as [tb |];
    rewrite ?andb_false_r; try discriminate.
  cbn [default]. unfold id. intros _ _ H. apply orb_true_iff in H as [H | H].
  - apply Z.ltb_lt in H. lia.
  - apply andb_true_iff in H as [H _]. apply Z.eqb_eq in H. lia.
Qed.

Lemma sorted_by_attempt_head (now : Z) (l : list Account) (a : Account) (rest : list Account) :
  (forall b, In b l -> due_for_deletion now b = true) ->
  fold_right insert_by_attempt [] l = a :: rest ->
  forall b, In b l -> attempt_at a <= attempt_at b.
Proof.
  revert a rest. induction l as [| x l IH]; intros a rest Hdue Hsort b Hb; [destruct Hb |].
  cbn [fold_right] in Hsort.
  destruct (fold_right insert_by_attempt [] l) as [| y tail] eqn:Hl.
  - cbn in Hsort. injection Hsort as <- <-.
    assert (l = []) as ->.
    { destruct l as [| z l]; [reflexivity |].
      assert (Hz : In z (fold_right insert_by_attempt [] (z :: l)))
        by (apply sorted_by_attempt_In; now left).
      rewrite Hl in Hz. destruct Hz. }
    destruct Hb as [<- | []]. lia.
  - assert (Hy : forall c, In c l -> attempt_at y <= attempt_at c).
    { apply (IH y tail); [intros c Hc; apply Hdue; now right | reflexivity]. }
    assert (Hyin : In y l) by (apply sorted_by_attempt_In; rewrite Hl; now left).
    cbn [insert_by_attempt] in Hsort.
    destruct (attempt_order x y) eqn:Hxy; injection Hsort as <- <-.
    + assert (Hle : attempt_at x <= attempt_at y).
      { apply (attempt_order_true now); [apply Hdue; now left | apply Hdue; now right | exact Hxy]. }
      destruct Hb as [<- | Hb]; [lia |]. specialize (Hy b Hb). lia.
    + apply attempt_order_false in Hxy.
      destruct Hb as [<- | Hb]; [lia | now apply Hy].
Qed.

Lemma discoverAccountForDeletion_cases
    (accounts : gmap AccountName Account) (timeNow : Z) :
  match discoverAccountForDeletion accounts timeNow with
  | Ok accountName =>
      exists (k : AccountName) (a : Account),
        accounts !! k = Some a /\ Name a = accountName /\
        due_for_deletion timeNow a = true /\
        forall k' b, accounts !! k' = Some b -> due_for_deletion timeNow b = true ->
                     attempt_at a <= attempt_at b
  | Err err =>
      err = ErrNoRows /\
      forall k b, accounts !! k = Some b -> due_for_deletion timeNow b = false
  end.
Proof.
  unfold discoverAccountForDeletion, accountDeletionSelectQuery.
  set (due := List.filter (due_for_deletion timeNow) (map snd (map_to_list accounts))).
  assert (Hdue : forall b, In b due <->
                   (exists k, accounts !! k = Some b) /\ due_for_deletion timeNow b = true).
  { intros b. unfold due. rewrite filter_In, in_map_iff. split.
    - intros [((k & b') & <- & Hin) Hb]. split; [| exact Hb].
      exists k. apply elem_of_map_to_list. now apply list_elem_of_In.
    - intros [[k Hk] Hb]. split; [| exact Hb].
      exists (k, b). split; [reflexivity |].
      apply list_elem_of_In. now apply elem_of_map_to_list. }
  destruct (fold_right insert_by_attempt [] due) as [| a rest] eqn:Hsort; cbn [map].
  - split; [reflexivity |]. intros k b Hk.
    destruct (due_for_deletion timeNow b) eqn:Hb; [| reflexivity].
    assert (Hin : In b due) by (apply Hdue; eauto).
    apply sorted_by_attempt_In in Hin. rewrite Hsort in Hin. destruct Hin.
  - assert (Hain : In a due) by (apply sorted_by_attempt_In; rewrite Hsort; now left).
    apply Hdue in Hain as [[k Hk] Ha].
    exists k, a. split; [exact Hk |]. split; [reflexivity |]. split; [exact Ha |].
    intros k' b Hk' Hb.
    apply (sorted_by_attempt_head timeNow due a rest); [| exact Hsort |].
    + intros c Hc. now apply Hdue in Hc.
    + apply Hdue. eauto.
Qed.

(** [discoverAccountForDeletion] finds an account exactly when one is
    marked for deletion and due.  The account it names is such an account,
    and none of the others has been due for longer. *)
Theorem discoverAccountForDeletion_finds_the_longest_due
    (accounts : gmap AccountName Account) (timeNow : Z) :
  match discoverAccountForDeletion accounts timeNow with
  | Ok accountName =>
      exists (k : AccountName) (a : Account),
        accounts !! k = Some a /\ Name a = accountName /\
        due_for_deletion timeNow a = true /\
        forall k' b, accounts !! k' = Some b -> due_for_deletion timeNow b = true ->
                     attempt_at a <= attempt_at b
  | Err err =>
      err = ErrNoRows /\
      forall k b, accounts !! k = Some b -> due_for_deletion timeNow b = false
  end.
Proof. apply discoverAccountForDeletion_cases. Qed.

End DiscoverFacts.

Section MarkForDeletionFacts.
Import Models Accounts AccountDeletion.
Context {FD SD : Type}.

(** An account that is marked for deletion is found by the deletion job,
    but only once the clock has moved on: at any later time the job finds an
    account to delete, and at the time of the marking (or before) it finds
    none if no other account is due.  The marking is recorded for the user,
    if there is one, and touches neither driver. *)
Theorem MarkAccountForDeletion_then_discover (p : Processor FD SD) (account a : Account)
    (userInfo : option string) (t t' : Z) :
  db_accounts p !! Name account = Some a ->
  let p' := fst (MarkAccountForDeletion t p account userInfo) in
  (t < t' ->
     exists accountName,
       discoverAccountForDeletion (db_accounts p') t' = Ok accountName) /\
  (t' <= t ->
     (forall k b, db_accounts p !! k = Some b -> due_for_deletion t' b = false) ->
     discoverAccountForDeletion (db_accounts p') t' = Err ErrNoRows) /\
  audit p' = audit p ++ match userInfo with
                        | Some user => [mkAuditEvent user DeleteAction account]
                        | None => []
                        end /\
  Accounts.fd p' = Accounts.fd p /\ Accounts.sd p' = Accounts.sd p.
Proof.
  intros Hrow p'.
  assert (Hdb : db_accounts p' = markAccountForDeletion (db_accounts p) t (Name account)).
  { unfold p', MarkAccountForDeletion. now destruct userInfo. }
  assert (Hmarked : exists a', db_accounts p' !! Name account = Some a' /\
                      IsDeleting a' = true /\ NextDeletionAttemptAt a' = Some t).
  { rewrite Hdb. unfold markAccountForDeletion. rewrite lookup_alter_eq, Hrow.
    eexists. split; [reflexivity |]. split; reflexivity. }
  split; [| split; [| split; [| split]]].
  - intros Hlater. destruct Hmarked as (a' & Ha' & Hdel & Hat).
    pose proof (discoverAccountForDeletion_cases (db_accounts p') t') as H.
    destruct (discoverAccountForDeletion (db_accounts p') t') as [name | err];
      [now exists name |].
    destruct H as [_ H]. specialize (H _ _ Ha').
    unfold due_for_deletion in H. rewrite Hdel, Hat in H.
    apply andb_false_iff in H as [H | H]; [discriminate H |].
    apply Z.ltb_ge in H. lia.
  - intros Hearly Hothers.
    pose proof (discoverAccountForDeletion_cases (db_accounts p') t') as H.
    destruct (discoverAccountForDeletion (db_accounts p') t') as [name | err];
      [| now destruct H as [-> _]].
    exfalso. destruct H as (k & b & Hk & _ & Hb & _).
    rewrite Hdb in Hk. unfold markAccountForDeletion in Hk.
    destruct (decide (Name account = k)) as [<- | Hne].
    + rewrite lookup_alter_eq, Hrow in Hk. injection Hk as <-.
      unfold due_for_deletion in Hb. cbn in Hb.
      apply Z.ltb_lt in Hb. lia.
    + rewrite lookup_alter_ne in Hk by exact Hne.
      rewrite (Hothers _ _ Hk) in Hb. discriminate Hb.
  - unfold p', MarkAccountForDeletion. destruct userInfo; cbn [fst audit]; [reflexivity |].
    now rewrite app_nil_r.
  - unfold p', MarkAccountForDeletion. now destruct userInfo.
  - unfold p', MarkAccountForDeletion. now destruct userInfo.
Qed.

End MarkForDeletionFacts.

Section MarkForDeletionExamples.
Import Models Accounts AccountDeletion AccountsFixtures.

(** Alice marks the account [library] at 3600; the job looks at 3601. *)
Lemma MarkAccountForDeletion_then_discover_witness :
  let library := mkAccount "library" "tenant1" "" "" [] "" false "[]" "" "[]" "[]" None None in
  let p := fst (create (api_account "library")) in
  let p' := fst (MarkAccountForDeletion 3600 p library (Some "alice")) in
  (3600 < 3601 ->
     exists accountName, discoverAccountForDeletion (db_accounts p') 3601 = Ok accountName) /\
  (3601 <= 3600 ->
     (forall k b, db_accounts p !! k = Some b -> due_for_deletion 3601 b = false) ->
     discoverAccountForDeletion (db_accounts p') 3601 = Err ErrNoRows) /\
  audit p' = audit p ++ [mkAuditEvent "alice" DeleteAction library] /\
  Accounts.fd p' = Accounts.fd p /\ Accounts.sd p' = Accounts.sd p.
Proof.
  apply (MarkAccountForDeletion_then_discover
           (fst (create (api_account "library")))
           (mkAccount "library" "tenant1" "" "" [] "" false "[]" "" "[]" "[]" None None)
           (mkAccount "library" "tenant1" "" "" [] "" false "[]" "" "[]" "[]" None None)
           (Some "alice") 3600 3601).
  vm_compute. reflexivity.
Defined.

(** The job finds the marked account of the example. *)
Example discoverAccountForDeletion_library :
  let library := mkAccount "library" "tenant1" "" "" [] "" false "[]" "" "[]" "[]" None None in
  let p' := fst (MarkAccountForDeletion 3600 (fst (create (api_account "library")))
                   library (Some "alice")) in
  discoverAccountForDeletion (db_accounts p') 3601 = Ok "library" /\
  discoverAccountForDeletion (db_accounts p') 3600 = Err ErrNoRows.
Proof. vm_compute. split; reflexivity. Qed.

End MarkForDeletionExamples.

(** ** Durations read from JSON *)

Section DurationReadFacts.
Import Duration.

Lemma unmarshal_units_inv (obj : durationObj) (d : Duration) :
  unmarshal_units obj units = Some d ->
  exists len, In (Unit obj, len) units /\ d = wrap_int64 (Value obj * len).
Proof.
  unfold units. cbn [unmarshal_units].
  repeat match goal with
  | |- context [String.eqb ?n (Unit obj)] =>
      destruct (String.eqb_spec n (Unit obj)) as [<- |];
      [ intros [= <-]; eexists; split; [cbn; tauto | reflexivity] | ]
  end.
  discriminate.
Qed.

Lemma units_whole_seconds (name : string) (len : Duration) :
  In (name, len) units -> Z.rem len Second = 0.
Proof.
  unfold units. cbn [In]. intros Hin.
  repeat (destruct Hin as [Hin | Hin]; [injection Hin as _ <-; reflexivity |]).
  contradiction.
Qed.

(** [UnmarshalJSON] reads a document only if its unit is one of y, w, d, h,
    m and s.  A duration that was read, from a value that does not overflow
    the nanosecond count, can be written again: [MarshalJSON] renders it
    (possibly with a longer unit), and the rendering reads back as the same
    duration. *)
Theorem UnmarshalJSON_then_MarshalJSON (obj : durationObj) (d : Duration) :
  UnmarshalJSON obj = Ok d ->
  (forall len, In (Unit obj, len) units -> in_int64 (Value obj * len)) ->
  In (Unit obj) (map fst units) /\
  exists obj' : durationObj,
    MarshalJSON d = Ok obj' /\ UnmarshalJSON obj' = Ok d.
Proof.
  unfold UnmarshalJSON.
  destruct (unmarshal_units obj units) as [d' |] eqn:E; [| discriminate].
  intros [= ->] Hfit.
  destruct (unmarshal_units_inv _ _ E) as (len & Hin & Hd).
  split; [apply in_map_iff; now exists (Unit obj, len) |].
  rewrite (wrap_int64_id _ (Hfit _ Hin)) in Hd.
  assert (Hs : Z.rem d Second = 0).
  { subst d. pose proof (units_whole_seconds _ _ Hin) as Hlen.
    apply Z.rem_divide in Hlen; [| discriminate].
    apply Z.rem_divide; [discriminate |].
    now apply Z.divide_mul_r. }
  assert (Hrange : in_int64 d) by (subst d; now apply Hfit).
  unfold MarshalJSON. destruct (d =? 0) eqn:E0.
  - apply Z.eqb_eq in E0. exists (mkDurationObj 0 "s").
    split; [reflexivity |]. now rewrite E0.
  - destruct (marshal_units_total d Hs) as [obj' Hobj']. exists obj'.
    rewrite Hobj'. split; [reflexivity |].
    now rewrite (unmarshal_marshal_units d obj' Hrange Hobj').
Qed.

(** 120 minutes. *)
Lemma UnmarshalJSON_then_MarshalJSON_witness :
  In "m" (map fst units) /\
  exists obj' : durationObj,
    MarshalJSON (2 * Hour) = Ok obj' /\ UnmarshalJSON obj' = Ok (2 * Hour).
Proof.
  apply (UnmarshalJSON_then_MarshalJSON (mkDurationObj 120 "m") (2 * Hour)).
  - reflexivity.
  - intros len Hin. unfold units in Hin. cbn [In Unit] in Hin.
    repeat (destruct Hin as [Hin | Hin];
            [ first [ discriminate Hin
                    | injection Hin as <-; unfold in_int64, Minute, Second; cbn [Value]; lia ] | ]).
    contradiction.
Defined.

(** 120 minutes come back as 2 hours. *)
Example UnmarshalJSON_then_MarshalJSON_hours :
  UnmarshalJSON (mkDurationObj 120 "m") = Ok (2 * Hour) /\
  MarshalJSON (2 * Hour) = Ok (mkDurationObj 2 "h").
Proof. split; reflexivity. Qed.

End DurationReadFacts.

(** ** The pages of the catalog *)

Section CatalogFacts.
Import Models Catalog.
Variable AccountsWithCatalogAccess : AccountName -> list AccountName.

(** The loop keeps the page within the limit, and a partial result fills
    the page. *)
Lemma collect_within_limit (repos : list Repository) (includeAccountName : bool)
    (marker : string) (limit : Z) :
  0 <= limit ->
  forall (accountNames : list AccountName) (idx : nat) (allNames : list string)
         (partialResult : bool) (names : list string) (partial : bool),
    Z.of_nat (length allNames) <= limit ->
    (partialResult = true -> Z.of_nat (length allNames) = limit) ->
    collect repos includeAccountName marker limit idx accountNames allNames partialResult
      = (names, partial) ->
    Z.of_nat (length names) <= limit /\
    (partial = true -> Z.of_nat (length names) = limit).
Proof.
  intros Hlimit.
  induction accountNames as [| accountName rest IH];
    intros idx allNames partialResult names partial Hlen Hfull; cbn [collect].
  - intros [= <- <-]. split; assumption.
  - match goal with
    | |- context [limit <? Z.of_nat (length ?l)] =>
        set (grown := l); destruct (Z.ltb_spec limit (Z.of_nat (length grown))) as [Hover | Hfit]
    end.
    + apply IH.
      * rewrite length_take. lia.
      * intros _. rewrite length_take. lia.
    + apply IH; [exact Hfit |].
      intros Hp. specialize (Hfull Hp). unfold grown in *.
      rewrite length_app in *. lia.
Qed.

(** Every name on the page is in the names collected so far or is a
    repository of one of the accounts. *)
Lemma collect_sound (repos : list Repository) (includeAccountName : bool)
    (marker : string) (limit : Z) :
  forall (accountNames : list AccountName) (idx : nat) (allNames : list string)
         (partialResult : bool) (names : list string) (partial : bool),
    collect repos includeAccountName marker limit idx accountNames allNames partialResult
      = (names, partial) ->
    forall name, In name names ->
      In name allNames \/
      exists accountName,
        In accountName accountNames /\
        In name (getCatalogForAccount repos accountName includeAccountName).
Proof.
  induction accountNames as [| accountName rest IH];
    intros idx allNames partialResult names partial; cbn [collect].
  - intros [= <- <-] name Hin. now left.
  - set (listed := getCatalogForAccount repos accountName includeAccountName).
    set (kept := if (idx =? 0)%nat && negb (marker =? "")%string
                 then List.filter (fun name => String.ltb marker name) listed
                 else listed).
    assert (Hkept : forall name, In name (allNames ++ FederationSwift.sort_strings kept) ->
                      In name allNames \/ In name listed).
    { intros name Hin. apply in_app_or in Hin as [Hin | Hin]; [now left | right].
      rewrite sort_strings_In in Hin. unfold kept in Hin.
      destruct ((idx =? 0)%nat && negb (marker =? "")%string); [| exact Hin].
      now apply filter_In in Hin as [Hin _]. }
    destruct (limit <? Z.of_nat (length (allNames ++ FederationSwift.sort_strings kept)));
      intros Hrun name Hin;
      destruct (IH _ _ _ _ _ Hrun name Hin) as [Hold | (acc & Hacc & Hname)].
    + apply list_elem_of_In, elem_of_take in Hold as (i & Hi & _).
      apply list_elem_of_lookup_2, list_elem_of_In in Hi.
      destruct (Hkept _ Hi) as [H | H]; [now left |].
      right. exists accountName. split; [now left | exact H].
    + right. exists acc. split; [now right | exact Hname].
    + destruct (Hkept _ Hold) as [H | H]; [now left |].
      right. exists accountName. split; [now left | exact H].
    + right. exists acc. split; [now right | exact Hname].
Qed.

(** Without a marker, a result that is not partial has every repository of
    every account. *)
Lemma collect_complete (repos : list Repository) (includeAccountName : bool) (limit : Z) :
  forall (accountNames : list AccountName) (idx : nat) (allNames : list string)
         (partialResult : bool) (names : list string),
    collect repos includeAccountName "" limit idx accountNames allNames partialResult
      = (names, false) ->
    (forall name, In name allNames -> In name names) /\
    forall accountName name,
      In accountName accountNames ->
      In name (getCatalogForAccount repos accountName includeAccountName) ->
      In name names.
Proof.
  assert (Hpartial : forall (accountNames : list AccountName) (idx : nat)
                       (allNames names : list string) (partial : bool),
            collect repos includeAccountName "" limit idx accountNames allNames true
              = (names, partial) -> partial = true).
  { induction accountNames as [| accountName rest IH]; intros idx allNames names partial;
      cbn [collect]; [now intros [= _ <-] |].
    destruct (limit <? _); apply IH. }
  induction accountNames as [| accountName rest IH];
    intros idx allNames partialResult names; cbn [collect].
  - intros [= <- _]. split; [auto | intros ? ? []].
  - rewrite andb_false_r.
    destruct (limit <? _).
    + intros Hrun. apply Hpartial in Hrun. discriminate Hrun.
    + intros Hrun. destruct (IH _ _ _ _ Hrun) as [Hold Hnew]. split.
      * intros name Hin. apply Hold. apply in_or_app. now left.
      * intros acc name [<- | Hacc] Hname; [| now apply (Hnew acc)].
        apply Hold. apply in_or_app. right. now rewrite sort_strings_In.
Qed.

Lemma limit_cases (query : Anycast.Values) (limit : Z) :
  (if negb (Anycast.Values_Get query "n" =? "")%string then
     match ParseUint (Anycast.Values_Get query "n") with
     | Err e => inr ("invalid value for n: " ++ e)%string
     | Ok limit =>
         if limit =? 0 then inr "invalid value for n: must not be 0" else inl limit
     end
   else inl maxLimit) = inl limit ->
  1 <= limit.
Proof.
  destruct (negb (Anycast.Values_Get query "n" =? "")%string).
  - unfold ParseUint. destruct (Anycast.Values_Get query "n") as [| c s]; [discriminate |].
    assert (Hpos : forall s acc v, 0 <= acc -> digits_value s acc = Some v -> 0 <= v).
    { clear. induction s as [| c s IH]; intros acc v Hacc; cbn [digits_value].
      - now intros [= <-].
      - destruct (Accounts.is_digit c) eqn:Hd; [| discriminate].
        apply IH. unfold Accounts.is_digit in Hd.
        apply andb_true_iff in Hd as [Hd _]. apply Nat.leb_le in Hd. lia. }
    destruct (digits_value (String c s) 0) as [v |] eqn:E; [| discriminate].
    apply Hpos in E; [| lia].
    destruct (v <? 2^64); [| discriminate].
    destruct (Z.eqb_spec v 0); [discriminate |]. intros [= <-]. lia.
  - intros [= <-]. unfold maxLimit. lia.
Qed.

(** The pagination of the catalog: a page never has more than 100 names.
    When there is a [Link] to a next page, the page is full: its [n] is the
    number of names on the page, and its [last] is the last name of the
    page. *)
Theorem handleGetCatalog_page_is_bounded (repos : list Repository)
    (query : Anycast.Values) (audienceAccountName : AccountName) :
  match handleGetCatalog AccountsWithCatalogAccess repos query audienceAccountName with
  | BadRequest _ => True
  | Page repositories link =>
      Z.of_nat (length repositories) <= 100 /\
      match link with
      | None => True
      | Some (n, last) =>
          n = Z.of_nat (length repositories) /\ 1 <= n /\
          exists before, repositories = before ++ [last]
      end
  end.
Proof.
  unfold handleGetCatalog.
  match goal with
  | |- context [match ?x with inl _ => _ | inr _ => _ end] =>
      destruct x as [limit | msg] eqn:Hlimit; [| exact I]
  end.
  apply limit_cases in Hlimit.
  match goal with
  | |- context [match ?x with inl _ => _ | inr _ => _ end] =>
      destruct x as [markerAccountName | msg]; [| exact I]
  end.
  set (limit' := if maxLimit <? limit then maxLimit else limit).
  assert (Hrange : 1 <= limit' <= 100).
  { unfold limit', maxLimit. destruct (Z.ltb_spec 100 limit); lia. }
  match goal with
  | |- context [collect ?r ?i ?m ?l ?x ?a ?n ?p] =>
      destruct (collect r i m l x a n p) as [allNames partialResult] eqn:Hrun
  end.
  apply collect_within_limit in Hrun as [Hlen Hfull]; [| lia | cbn; lia | discriminate].
  split; [lia |].
  destruct partialResult; [| exact I].
  specialize (Hfull eq_refl). split; [now symmetry |]. split; [lia |].
  destruct allNames as [| x before _] using rev_ind; [cbn in Hfull; lia |].
  exists before. now rewrite last_last.
Qed.

(** What is on a page: every name is a repository of an account that the
    token has catalog access to, with the account name in front unless the
    API is domain-remapped.  A first page (no marker) without a [Link] has
    all of them. *)
Theorem handleGetCatalog_lists_accessible_repositories (repos : list Repository)
    (query : Anycast.Values) (audienceAccountName : AccountName) :
  match handleGetCatalog AccountsWithCatalogAccess repos query audienceAccountName with
  | BadRequest _ => True
  | Page repositories link =>
      (exists markerAccountName,
         forall name, In name repositories ->
           exists r, In r repos /\
             In (repo_AccountName r) (AccountsWithCatalogAccess markerAccountName) /\
             name = if (audienceAccountName =? "")%string
                    then (repo_AccountName r ++ "/" ++ repo_Name r)%string
                    else repo_Name r) /\
      (Anycast.Values_Get query "last" = "" -> link = None ->
       forall r, In r repos ->
         In (repo_AccountName r) (AccountsWithCatalogAccess "") ->
         In (if (audienceAccountName =? "")%string
             then (repo_AccountName r ++ "/" ++ repo_Name r)%string
             else repo_Name r) repositories)
  end.
Proof.
  unfold handleGetCatalog.
  match goal with
  | |- context [match ?x with inl _ => _ | inr _ => _ end] =>
      destruct x as [limit | msg]; [| exact I]
  end.
  set (limit' := if maxLimit <? limit then maxLimit else limit).
  set (marker := Anycast.Values_Get query "last").
  set (include := (audienceAccountName =? "")%string).
  match goal with
  | |- context [match ?x with inl _ => _ | inr _ => _ end] =>
      destruct x as [markerAccountName | msg] eqn:Hmarker; [| exact I]
  end.
  destruct (collect repos include marker limit' 0
              (FederationSwift.sort_strings (AccountsWithCatalogAccess markerAccountName))
              [] false) as [allNames partialResult] eqn:Hrun.
  assert (Hlisted : forall accountName name,
            In name (getCatalogForAccount repos accountName include) <->
            exists r, In r repos /\ repo_AccountName r = accountName /\
              name = if include then (repo_AccountName r ++ "/" ++ repo_Name r)%string
                     else repo_Name r).
  { intros accountName name. unfold getCatalogForAccount. rewrite in_map_iff. split.
    - intros (r & <- & Hr). apply filter_In in Hr as [Hr Hacc].
      apply String.eqb_eq in Hacc. exists r. rewrite Hacc. auto.
    - intros (r & Hr & Hacc & ->). exists r. rewrite Hacc. split; [reflexivity |].
      apply filter_In. split; [exact Hr | now apply String.eqb_eq]. }
  split.
  - exists markerAccountName. intros name Hin.
    destruct (collect_sound _ _ _ _ _ _ _ _ _ _ Hrun name Hin) as [[] | (acc & Hacc & Hname)].
    rewrite sort_strings_In in Hacc. apply Hlisted in Hname as (r & Hr & Hr' & ->).
    exists r. rewrite Hr'. auto.
  - intros Hfirst Hlink r Hr Haccess.
    destruct partialResult; [discriminate Hlink |].
    fold marker in Hfirst. rewrite Hfirst in Hmarker, Hrun.
    cbn [String.eqb negb] in Hmarker. injection Hmarker as <-.
    apply collect_complete in Hrun as [_ Hall].
    apply (Hall (repo_AccountName r)); [now rewrite sort_strings_In |].
    apply Hlisted. exists r. auto.
Qed.

End CatalogFacts.

Section CatalogExamples.
Import Models Catalog Anycast.

(** The two repositories of the account [test1], one name per page: the
    first page links to the second, and the second is the last. *)
Example handleGetCatalog_two_pages :
  let repos := [mkRepository 1 "test1" "foo"; mkRepository 2 "test1" "bar"] in
  let access := fun _ : AccountName => ["test1"] in
  handleGetCatalog access repos (Values_Set ∅ "n" "1") ""
    = Page ["test1/bar"] (Some (1, "test1/bar")) /\
  handleGetCatalog access repos (Values_Set (Values_Set ∅ "n" "1") "last" "test1/bar") ""
    = Page ["test1/foo"] None /\
  handleGetCatalog access repos (Values_Set ∅ "n" "0") ""
    = BadRequest "invalid value for n: must not be 0" /\
  handleGetCatalog access repos (Values_Set ∅ "last" "test1") ""
    = BadRequest "invalid value for last: must contain a slash".
Proof. vm_compute. repeat split. Qed.

End CatalogExamples.
